(** * web: a shallow embedding of [main.go]

    The program drives a headless Firefox through the selenium WebDriver
    interface, optionally fills a form and runs a script, and prints the
    rendered page as normalised text together with the captured console
    output.

    The file has three parts: the model of the program, function by
    function; the vocabulary in which its properties are stated; and the
    properties with their proofs.

    Go strings are byte sequences: they are modelled by [string], whose
    characters are the 256 byte values.  [len], slicing and the prefix
    tests all count bytes, as they do in Go.

    The program's effects are calls on the world outside it (the
    driver, the file system, standard output); a computation is a
    function of the world that gives an outcome, the new world and the
    list of the calls made.  Three things are taken from outside and
    left open: how the world answers a call, the external pure functions
    ([html2text.FromString], [filepath.Join], the Unicode case tables),
    and the clock, of which a bounded wait only learns how many polls fit
    into its timeout. *)

From Stdlib Require Import String Ascii List ZArith NArith Lia Bool.
From Stdlib Require Import DecimalString.
Import ListNotations.
Open Scope string_scope.

Set Warnings "-register-all".

(* ================================================================== *)
(** ** Bytes and elementary string operations *)

Definition byte (c : ascii) : N := N_of_ascii c.

Definition LF : ascii := "010"%char.
Definition nl : string := String LF "".

Fixpoint take (n : nat) (s : string) : string :=
  match n, s with
  | S n', String c t => String c (take n' t)
  | _, _ => ""
  end.

Fixpoint drop (n : nat) (s : string) : string :=
  match n, s with
  | S n', String _ t => drop n' t
  | _, _ => s
  end.

Fixpoint srev (s : string) : string :=
  match s with
  | "" => ""
  | String c t => srev t ++ String c ""
  end.

(** [len(s)]: the number of bytes, as a Go [int]. *)
Definition len (s : string) : Z := Z.of_nat (String.length s).

(** ** Package [strings] *)

(** [strings.HasPrefix(s, prefix)]. *)
Definition HasPrefix (s p : string) : bool := String.prefix p s.

(** [strings.TrimPrefix(s, prefix)]. *)
Definition TrimPrefix (s p : string) : string :=
  if HasPrefix s p then drop (String.length p) s else s.

(** [strings.Contains(s, substr)]. *)
Fixpoint Contains (s sub : string) : bool :=
  HasPrefix s sub ||
  match s with
  | "" => false
  | String _ t => Contains t sub
  end.

(** One left-to-right pass replacing the non-overlapping occurrences of
    [old]; [fuel] bounds the number of positions visited. *)
Fixpoint replaceFrom (fuel : nat) (s old new : string) : string :=
  match fuel with
  | O => s
  | S fuel' =>
      if HasPrefix s old
      then new ++ replaceFrom fuel' (drop (String.length old) s) old new
      else match s with
           | "" => ""
           | String c t => String c (replaceFrom fuel' t old new)
           end
  end.

(** [strings.ReplaceAll(s, old, new)].  Go returns [s] at once when
    [old == new].  Every call site passes a non-empty [old]; for an empty
    [old] Go interleaves [new] between the runes, which is not modelled
    (the model returns [s]). *)
Definition ReplaceAll (s old new : string) : string :=
  if (old =? new) || (old =? "") then s
  else replaceFrom (S (String.length s)) s old new.

(** [strings.Split(s, sep)] for a separator of one byte, the only kind
    the program uses.  The result is never empty. *)
Fixpoint Split (s : string) (sep : ascii) : list string :=
  match s with
  | "" => [""]
  | String c t =>
      if Ascii.eqb c sep then "" :: Split t sep
      else match Split t sep with
           | l :: ls => String c l :: ls
           | [] => [String c ""]
           end
  end.

(** [strings.Join(elems, sep)]. *)
Definition Join (elems : list string) (sep : string) : string :=
  String.concat sep elems.

(** [strings.Repeat(s, count)]. *)
Fixpoint Repeat (s : string) (count : nat) : string :=
  match count with
  | O => ""
  | S n => s ++ Repeat s n
  end.

(** *** White space

    [strings.TrimSpace] removes the leading and trailing white space "as
    defined by Unicode".  A Go string holds UTF-8, and [unicode.IsSpace]
    is true of U+0009..U+000D, U+0020, U+0085, U+00A0, U+1680,
    U+2000..U+200A, U+2028, U+2029, U+202F, U+205F and U+3000.  A rune is
    white space exactly when the bytes at that position are the (unique,
    shortest-form) encoding of one of these code points; malformed and
    over-long sequences decode to U+FFFD, which is not white space.

    [spaceWidth s] is the width in bytes of the white-space rune at the
    head of [s], and 0 when [s] is empty or starts with another rune. *)

Definition asciiSpace (c : ascii) : bool :=
  let b := byte c in
  ((9 <=? b) && (b <=? 13) || (b =? 32))%N.

Definition spaceWidth (s : string) : nat :=
  match s with
  | "" => 0
  | String c0 t =>
      if asciiSpace c0 then 1
      else
        match t with
        | "" => 0
        | String c1 t1 =>
            let b0 := byte c0 in
            let b1 := byte c1 in
            if (b0 =? 194)%N then                       (* C2 85, C2 A0 *)
              if ((b1 =? 133) || (b1 =? 160))%N then 2 else 0
            else
              match t1 with
              | "" => 0
              | String c2 _ =>
                  let b2 := byte c2 in
                  if ((b0 =? 225) && (b1 =? 154) && (b2 =? 128))%N  (* U+1680 *)
                  then 3
                  else if ((b0 =? 226) && (b1 =? 128) &&             (* U+2000..200A, 2028, 2029, 202F *)
                           ((128 <=? b2) && (b2 <=? 138)
                            || (b2 =? 168) || (b2 =? 169) || (b2 =? 175)))%N
                  then 3
                  else if ((b0 =? 226) && (b1 =? 129) && (b2 =? 159))%N  (* U+205F *)
                  then 3
                  else if ((b0 =? 227) && (b1 =? 128) && (b2 =? 128))%N  (* U+3000 *)
                  then 3
                  else 0
              end
        end
  end.

(** The same test at the tail of a string, on its reversal: the width of
    the white-space rune that ends [s], given [r = srev s].  Decoding
    backwards ([utf8.DecodeLastRuneInString]) finds a white-space rune
    exactly when the last bytes are one of the encodings above. *)
Definition spaceWidthRev (r : string) : nat :=
  match r with
  | "" => 0
  | String c0 t =>
      if asciiSpace c0 then 1
      else
        match t with
        | "" => 0
        | String c1 t1 =>
            let bl := byte c0 in      (* last byte *)
            let bp := byte c1 in      (* the byte before it *)
            if ((bp =? 194) && ((bl =? 133) || (bl =? 160)))%N then 2
            else
              match t1 with
              | "" => 0
              | String c2 _ =>
                  let b0 := byte c2 in
                  if ((b0 =? 225) && (bp =? 154) && (bl =? 128))%N then 3
                  else if ((b0 =? 226) && (bp =? 128) &&
                           ((128 <=? bl) && (bl <=? 138)
                            || (bl =? 168) || (bl =? 169) || (bl =? 175)))%N
                  then 3
                  else if ((b0 =? 226) && (bp =? 129) && (bl =? 159))%N then 3
                  else if ((b0 =? 227) && (bp =? 128) && (bl =? 128))%N then 3
                  else 0
              end
        end
  end.

(** Strip white-space runes from the head while there are some. *)
Fixpoint stripWhile (width : string -> nat) (fuel : nat) (s : string) : string :=
  match fuel with
  | O => s
  | S fuel' =>
      match width s with
      | O => s
      | w => stripWhile width fuel' (drop w s)
      end
  end.

(** [strings.TrimLeftFunc(s, unicode.IsSpace)]. *)
Definition TrimLeftSpace (s : string) : string :=
  stripWhile spaceWidth (String.length s) s.

(** [strings.TrimRightFunc(s, unicode.IsSpace)]. *)
Definition TrimRightSpace (s : string) : string :=
  srev (stripWhile spaceWidthRev (String.length s) (srev s)).

(** [strings.TrimSpace(s)]. *)
Definition TrimSpace (s : string) : string :=
  TrimRightSpace (TrimLeftSpace s).

(* ================================================================== *)
(** ** [ensureProtocol] and [cleanMarkdown] *)

(** [ensureProtocol]: ensure URL has protocol. *)
Definition ensureProtocol (url : string) : string :=
  if negb (HasPrefix url "http://") && negb (HasPrefix url "https://")
  then "http://" ++ url
  else url.

(** The loop [for strings.Contains(markdown, "\n\n\n") { ... }]. *)
Fixpoint collapseBlankLines (fuel : nat) (markdown : string) : string :=
  match fuel with
  | O => markdown
  | S fuel' =>
      if Contains markdown (nl ++ nl ++ nl)
      then collapseBlankLines fuel'
             (ReplaceAll markdown (nl ++ nl ++ nl) (nl ++ nl))
      else markdown
  end.

(** The body of the loop over [lines]: normalise a list bullet. *)
Definition normalizeBullet (line : string) : string :=
  if HasPrefix line "* " || HasPrefix line "- "
  then "- " ++ TrimPrefix (TrimPrefix line "* ") "- "
  else line.

(** [cleanMarkdown]. *)
Definition cleanMarkdown (markdown : string) : string :=
  (* Format headers properly *)
  let markdown := ReplaceAll markdown (nl ++ "# ") (nl ++ "# ") in
  let markdown := ReplaceAll markdown (nl ++ "## ") (nl ++ "## ") in
  let markdown := ReplaceAll markdown (nl ++ "### ") (nl ++ "### ") in
  (* Collapse multiple blank lines *)
  let markdown := collapseBlankLines (String.length markdown) markdown in
  (* Normalize list bullets *)
  let lines := Split markdown LF in
  let lines := map normalizeBullet lines in
  TrimSpace (Join lines nl).

(* ================================================================== *)
(** ** Packages [strconv], [fmt] and [strings.ToUpper] *)

(** [%d] of [fmt.Sprintf]: an [int] in decimal. *)
Definition Itoa (n : Z) : string := NilZero.string_of_int (Z.to_int n).

Definition digitVal (c : ascii) : option Z :=
  let b := byte c in
  if ((48 <=? b) && (b <=? 57))%N then Some (Z.of_N b - 48)%Z else None.

Fixpoint parseDigits (s : string) (acc : Z) : option Z :=
  match s with
  | "" => Some acc
  | String c t =>
      match digitVal c with
      | Some d => parseDigits t (acc * 10 + d)%Z
      | None => None
      end
  end.

(** [strconv.Atoi(s)] on a platform whose [int] has 64 bits: an optional
    sign and at least one decimal digit, the value within the range of
    [int].  [None] stands for a non-nil error. *)
Definition Atoi (s : string) : option Z :=
  let '(neg, digits) :=
    match s with
    | String c t =>
        if Ascii.eqb c "-" then (true, t)
        else if Ascii.eqb c "+" then (false, t)
        else (false, s)
    | "" => (false, "")
    end in
  match digits with
  | "" => None
  | _ =>
      match parseDigits digits 0 with
      | Some n =>
          let v := if neg : bool then (- n)%Z else n in
          if ((- 2 ^ 63 <=? v) && (v <? 2 ^ 63))%Z then Some v else None
      | None => None
      end
  end.

Fixpoint mapBytes (f : ascii -> ascii) (s : string) : string :=
  match s with
  | "" => ""
  | String c t => String (f c) (mapBytes f t)
  end.

Fixpoint isASCII (s : string) : bool :=
  match s with
  | "" => true
  | String c t => (byte c <? 128)%N && isASCII t
  end.

Definition upperByte (c : ascii) : ascii :=
  let b := byte c in
  if ((97 <=? b) && (b <=? 122))%N then ascii_of_N (b - 32) else c.

(** What the program takes from outside its own source and only passes
    along: the Unicode case tables, the HTML-to-text converter, the path
    joiner and the operating system's name. *)
Class Externals := {
  (** [strings.Map(unicode.ToUpper, s)], which [strings.ToUpper] falls
      back to when [s] has a byte outside ASCII. *)
  unicode_ToUpper : string -> string;
  (** [html2text.FromString]. *)
  html2text_FromString : string -> string + string;
  (** [filepath.Join]. *)
  filepath_Join : list string -> string;
  (** [runtime.GOOS]. *)
  GOOS : string
}.

(** [strings.ToUpper(s)]. *)
Definition ToUpper `{Externals} (s : string) : string :=
  if isASCII s then mapBytes upperByte s else unicode_ToUpper s.

(* ================================================================== *)
(** ** Configuration and [parseArgs] *)

Definition DEFAULT_TRUNCATE_AFTER : Z := 100000.

Record FormInput := { Name : string; Value : string }.

Record Config := {
  URL : string;
  Profile : string;
  FormID : string;
  Inputs : list FormInput;
  AfterSubmitURL : string;
  JSCode : string;
  ScreenshotPath : string;
  TruncateAfter : Z;
  RawFlag : bool
}.

Definition set_RawFlag (c : Config) (b : bool) : Config :=
  {| URL := URL c; Profile := Profile c; FormID := FormID c; Inputs := Inputs c;
     AfterSubmitURL := AfterSubmitURL c; JSCode := JSCode c;
     ScreenshotPath := ScreenshotPath c; TruncateAfter := TruncateAfter c;
     RawFlag := b |}.

Definition set_TruncateAfter (c : Config) (v : Z) : Config :=
  {| URL := URL c; Profile := Profile c; FormID := FormID c; Inputs := Inputs c;
     AfterSubmitURL := AfterSubmitURL c; JSCode := JSCode c;
     ScreenshotPath := ScreenshotPath c; TruncateAfter := v;
     RawFlag := RawFlag c |}.

Definition set_ScreenshotPath (c : Config) (v : string) : Config :=
  {| URL := URL c; Profile := Profile c; FormID := FormID c; Inputs := Inputs c;
     AfterSubmitURL := AfterSubmitURL c; JSCode := JSCode c;
     ScreenshotPath := v; TruncateAfter := TruncateAfter c;
     RawFlag := RawFlag c |}.

Definition set_FormID (c : Config) (v : string) : Config :=
  {| URL := URL c; Profile := Profile c; FormID := v; Inputs := Inputs c;
     AfterSubmitURL := AfterSubmitURL c; JSCode := JSCode c;
     ScreenshotPath := ScreenshotPath c; TruncateAfter := TruncateAfter c;
     RawFlag := RawFlag c |}.

Definition add_Input (c : Config) (i : FormInput) : Config :=
  {| URL := URL c; Profile := Profile c; FormID := FormID c;
     Inputs := Inputs c ++ [i];
     AfterSubmitURL := AfterSubmitURL c; JSCode := JSCode c;
     ScreenshotPath := ScreenshotPath c; TruncateAfter := TruncateAfter c;
     RawFlag := RawFlag c |}.

Definition set_AfterSubmitURL (c : Config) (v : string) : Config :=
  {| URL := URL c; Profile := Profile c; FormID := FormID c; Inputs := Inputs c;
     AfterSubmitURL := v; JSCode := JSCode c;
     ScreenshotPath := ScreenshotPath c; TruncateAfter := TruncateAfter c;
     RawFlag := RawFlag c |}.

Definition set_JSCode (c : Config) (v : string) : Config :=
  {| URL := URL c; Profile := Profile c; FormID := FormID c; Inputs := Inputs c;
     AfterSubmitURL := AfterSubmitURL c; JSCode := v;
     ScreenshotPath := ScreenshotPath c; TruncateAfter := TruncateAfter c;
     RawFlag := RawFlag c |}.

Definition set_Profile (c : Config) (v : string) : Config :=
  {| URL := URL c; Profile := v; FormID := FormID c; Inputs := Inputs c;
     AfterSubmitURL := AfterSubmitURL c; JSCode := JSCode c;
     ScreenshotPath := ScreenshotPath c; TruncateAfter := TruncateAfter c;
     RawFlag := RawFlag c |}.

Definition set_URL (c : Config) (v : string) : Config :=
  {| URL := v; Profile := Profile c; FormID := FormID c; Inputs := Inputs c;
     AfterSubmitURL := AfterSubmitURL c; JSCode := JSCode c;
     ScreenshotPath := ScreenshotPath c; TruncateAfter := TruncateAfter c;
     RawFlag := RawFlag c |}.

(** The configuration [parseArgs] starts from; the fields it does not
    name have Go's zero values. *)
Definition initialConfig : Config :=
  {| URL := ""; Profile := "default"; FormID := ""; Inputs := [];
     AfterSubmitURL := ""; JSCode := ""; ScreenshotPath := "";
     TruncateAfter := DEFAULT_TRUNCATE_AFTER; RawFlag := false |}.

(** The loop of [parseArgs] over [args[i:]].  The index [i] of the source
    is the number of arguments already dropped.  [None]: the process left
    through [--help] ([printHelp(); os.Exit(0)]). *)
Fixpoint parseLoop (config : Config) (args : list string) : option Config :=
  match args with
  | [] => Some config
  | arg :: rest =>
      if arg =? "--help" then None
      else if arg =? "--raw" then parseLoop (set_RawFlag config true) rest
      else if arg =? "--truncate-after" then
        match rest with
        | v :: rest' =>
            match Atoi v with
            | Some val =>
                if (val >? 0)%Z
                then parseLoop (set_TruncateAfter config val) rest'
                else parseLoop config rest'
            | None => parseLoop config rest'
            end
        | [] => Some config
        end
      else if arg =? "--screenshot" then
        match rest with
        | v :: rest' => parseLoop (set_ScreenshotPath config v) rest'
        | [] => Some config
        end
      else if arg =? "--form" then
        match rest with
        | v :: rest' => parseLoop (set_FormID config v) rest'
        | [] => Some config
        end
      else if arg =? "--input" then
        match rest with
        | name :: rest' =>
            match rest' with
            | flag :: rest'' =>
                if flag =? "--value" then
                  match rest'' with
                  | value :: rest''' =>
                      parseLoop
                        (add_Input config {| Name := name; Value := value |})
                        rest'''
                  | [] => Some config
                  end
                else parseLoop config rest'
            | [] => Some config
            end
        | [] => Some config
        end
      else if arg =? "--value" then parseLoop config rest
      else if arg =? "--after-submit" then
        match rest with
        | v :: rest' =>
            parseLoop (set_AfterSubmitURL config (ensureProtocol v)) rest'
        | [] => Some config
        end
      else if arg =? "--js" then
        match rest with
        | v :: rest' => parseLoop (set_JSCode config v) rest'
        | [] => Some config
        end
      else if arg =? "--profile" then
        match rest with
        | v :: rest' => parseLoop (set_Profile config v) rest'
        | [] => Some config
        end
      else if (URL config =? "") && negb (HasPrefix arg "--")
      then parseLoop (set_URL config arg) rest
      else parseLoop config rest
  end.

(** [parseArgs], on [os.Args[1:]]. *)
Definition parseArgs (args : list string) : option Config :=
  parseLoop initialConfig args.

(* ================================================================== *)
(** ** The outside world: selenium, the operating system, the clock *)

(** A Go [error] value, by its message: [nil] is [None : option error],
    and a pair [(v, err)] with a non-nil [err] is [inr err]. *)
Definition error := string.

(** [time.Duration], in nanoseconds. *)
Definition Duration := Z.
Definition Millisecond : Duration := 1000000%Z.
Definition Second : Duration := 1000000000%Z.

(** What [ExecuteScript] hands back: a JSON value decoded into
    [interface{}]. *)
Inductive jsval :=
| JNull
| JBool (b : bool)
| JNum (n : Z)
| JStr (s : string)
| JArr (l : list jsval)
| JObj (m : list (string * jsval)).

(** [m[key]] on a [map[string]interface{}]. *)
Fixpoint lookup (key : string) (m : list (string * jsval)) : option jsval :=
  match m with
  | [] => None
  | (k, v) :: m' => if k =? key then Some v else lookup key m'
  end.

(** [log.Message]. *)
Record LogMessage := { Timestamp : Z; Level : string; Message : string }.

(** A [selenium.WebElement], by its identifier. *)
Definition WebElement := nat.

(** [selenium.Capabilities] as [processRequest] fills them. *)
Record Capabilities := {
  browserName : string;
  binary : string;
  args : list string;
  prefs : list (string * bool);
  logLevel : string
}.

(** [selenium.EnterKey], U+E007 in UTF-8. *)
Definition EnterKey : string := String "238" (String "128" (String "135" "")).

(** Every call the program makes outside its own code, indexed by the
    type of what comes back.  The clock is not modelled: of a bounded
    wait the world tells how many more polls fit into the timeout
    ([PollBudget]) and how the elapsed time prints ([Elapsed]). *)
Inductive Call : Type -> Type :=
| LookPath (file : string) : Call (string + error)
| UserHomeDir : Call (string + error)
| MkdirAll (path : string) : Call (option error)
| NewGeckoDriverService (path : string) (port : Z) : Call (option error)
| ServiceStop : Call unit
| NewRemote (caps : Capabilities) (urlPrefix : string) : Call (option error)
| Quit : Call unit
| Get (url : string) : Call (option error)
| ExecuteScript (script : string) : Call (jsval + error)
| FindElement (selector : string) : Call (WebElement + error)
| Clear (elem : WebElement) : Call (option error)
| SendKeys (elem : WebElement) (keys : string) : Call (option error)
| Click (elem : WebElement) : Call (option error)
| CurrentURL : Call (string + error)
| PageSource : Call (string + error)
| Screenshot : Call (string + error)
| Log (typ : string) : Call (list LogMessage + error)
| WriteFile (name data : string) : Call (option error)
| Sleep (d : Duration) : Call unit
| Print (text : string) : Call unit
| PollBudget (timeout : Duration) : Call nat
| Elapsed : Call string.

(** One call together with its answer. *)
Inductive Event : Type :=
| Ev : forall {R : Type}, Call R -> R -> Event.

(** The world answers every call and moves on. *)
Class Driver (W : Type) := {
  handle : forall {R : Type}, Call R -> W -> R * W
}.

(** *** Control flow

    A function body either goes on with a value, or leaves: through a
    [return] or through a panic.  A computation takes the world, and
    gives its outcome, the new world and the calls it made, in order. *)
Inductive Exit (R : Type) :=
| Returned (r : R)
| Panicked (msg : string).
Arguments Returned {R} r.
Arguments Panicked {R} msg.

Inductive Outcome (R A : Type) :=
| Val (a : A)
| Stop (e : Exit R).
Arguments Val {R A} a.
Arguments Stop {R A} e.

Definition M (W R A : Type) : Type := W -> Outcome R A * W * list Event.

Section Program.

Context {W : Type} {D : Driver W} {X : Externals}.

Definition ret {R A} (a : A) : M W R A := fun w => (Val a, w, []).

Definition bind {R A B} (m : M W R A) (f : A -> M W R B) : M W R B :=
  fun w =>
    match m w with
    | (Val a, w1, t1) =>
        match f a w1 with
        | (o, w2, t2) => (o, w2, (t1 ++ t2)%list)
        end
    | (Stop e, w1, t1) => (Stop e, w1, t1)
    end.

(** [return r]. *)
Definition Return {R A} (r : R) : M W R A :=
  fun w => (Stop (Returned r), w, []).

Definition panic {R A} (msg : string) : M W R A :=
  fun w => (Stop (Panicked msg), w, []).

Definition call {R A} (c : Call A) : M W R A :=
  fun w => match handle c w with (r, w') => (Val r, w', [Ev c r]) end.

(** A function call: the callee's [return] gives the call its value, a
    panic goes on up. *)
Definition fn {R A} (body : M W A A) : M W R A :=
  fun w =>
    match body w with
    | (Val a, w', t) => (Val a, w', t)
    | (Stop (Returned a), w', t) => (Val a, w', t)
    | (Stop (Panicked msg), w', t) => (Stop (Panicked msg), w', t)
    end.

(** [defer cleanup] followed by [body]: [cleanup] runs when [body] is
    left, however it is left. *)
Definition defer {R A} (cleanup : Call unit) (body : M W R A) : M W R A :=
  fun w =>
    match body w with
    | (o, w1, t1) =>
        match handle cleanup w1 with
        | (u, w2) => (o, w2, (t1 ++ [Ev cleanup u])%list)
        end
    end.

Notation "x <- m ;; k" := (bind m (fun x => k))
  (at level 100, m at next level, right associativity).
Notation "m ;; k" := (bind m (fun _ => k))
  (at level 100, right associativity).

(** [for _, x := range l { body }]. *)
Fixpoint forEach {R A} (l : list A) (body : A -> M W R unit) : M W R unit :=
  match l with
  | [] => ret tt
  | x :: l' => body x ;; forEach l' body
  end.

(** [v, err := f(); if err != nil { return r }]. *)
Definition orReturn {R A} (r : A + error) (f : error -> R) : M W R A :=
  match r with
  | inl a => ret a
  | inr err => Return (f err)
  end.

(** [if err := f(); err != nil { return r }]. *)
Definition failIf {R} (e : option error) (f : error -> R) : M W R unit :=
  match e with
  | None => ret tt
  | Some err => Return (f err)
  end.

(** [v, _ := f()]: on an error the value is the zero value. *)
Definition orZero (r : string + error) : string :=
  match r with
  | inl v => v
  | inr _ => ""
  end.

Definition Printf {R} (text : string) : M W R unit := call (Print text).
Definition Println {R} (text : string) : M W R unit := call (Print (text ++ nl)).

(** *** selenium's bounded wait

    [WaitWithTimeout(condition, timeout)] evaluates the condition; an
    error of the condition is returned at once, a true condition ends
    the wait with [nil]; otherwise, when the timeout has elapsed, the
    wait ends with a timeout error, and else it sleeps for the default
    interval and polls again.  [S] is the state of the variables the
    condition's closure captures and assigns. *)
Definition DefaultWaitInterval : Duration := (100 * Millisecond)%Z.

Fixpoint pollLoop {R S} (condition : S -> M W R (S * (bool * option error)))
    (budget : nat) (s : S) : M W R (S * option error) :=
  r <- condition s ;;
  match r with
  | (s', (_, Some err)) => ret (s', Some err)
  | (s', (true, None)) => ret (s', None)
  | (s', (false, None)) =>
      match budget with
      | O =>
          elapsed <- call Elapsed ;;
          ret (s', Some ("timeout after " ++ elapsed))
      | S budget' =>
          call (Sleep DefaultWaitInterval) ;;
          pollLoop condition budget' s'
      end
  end.

Definition WaitWithTimeout {R S} (condition : S -> M W R (S * (bool * option error)))
    (timeout : Duration) (s : S) : M W R (S * option error) :=
  budget <- call (PollBudget timeout) ;;
  pollLoop condition budget s.

(** The condition closure of [waitForSelector]. *)
Definition selectorCondition {R} (selector : string) (_ : unit)
  : M W R (unit * (bool * option error)) :=
  fn (r <- call (FindElement selector) ;;
      match r with
      | inl _ => Return (tt, (true, None))
      | inr _ => Return (tt, (false, None))
      end).

(** [waitForSelector] waits for an element matching the selector to
    appear. *)
Definition waitForSelector {R} (selector : string) (timeout : Duration)
  : M W R (option error) :=
  fn (r <- WaitWithTimeout (selectorCondition selector) timeout tt ;;
      ret (snd r)).

(** The condition closure of [waitForFunction]. *)
Definition functionCondition {R} (jsCode : string) (_ : unit)
  : M W R (unit * (bool * option error)) :=
  fn (r <- call (ExecuteScript jsCode) ;;
      match r with
      | inr _ => Return (tt, (false, None))
      | inl result =>
          match result with
          | JBool boolResult => Return (tt, (boolResult, None))
          | _ => Return (tt, (false, None))
          end
      end).

(** [waitForFunction] waits for a JavaScript condition to be true. *)
Definition waitForFunction {R} (jsCode : string) (timeout : Duration)
  : M W R (option error) :=
  fn (r <- WaitWithTimeout (functionCondition jsCode) timeout tt ;;
      ret (snd r)).

(** *** The scripts and selectors of the program *)

Definition consoleCaptureScript : string := "
		if (!window.__consoleMessages) {
			window.__consoleMessages = [];
			['log', 'warn', 'error', 'info', 'debug'].forEach(function(method) {
				var original = console[method];
				console[method] = function() {
					var args = Array.prototype.slice.call(arguments);
					var message = args.map(function(arg) {
						if (typeof arg === 'object') {
							try { return JSON.stringify(arg); }
							catch(e) { return String(arg); }
						}
						return String(arg);
					}).join(' ');
					window.__consoleMessages.push({
						level: method,
						message: message
					});
					original.apply(console, arguments);
				};
			});
		}
	".

Definition detectLiveViewScript : string :=
  "return document.querySelector('[data-phx-session]') !== null".

Definition navigationTrackingScript : string := "
			if (!window.__phxNavigationState) {
				window.__phxNavigationState = { loading: false };
				document.addEventListener('phx:page-loading-start', function() {
					window.__phxNavigationState.loading = true;
				});
				document.addEventListener('phx:page-loading-stop', function() {
					window.__phxNavigationState.loading = false;
				});
			}
		".

Definition loadingStarted : string :=
  "return window.__phxNavigationState && window.__phxNavigationState.loading === true".

Definition loadingStopped : string :=
  "return window.__phxNavigationState && window.__phxNavigationState.loading === false".

Definition readyStateComplete : string :=
  "return document.readyState === 'complete'".

Definition capturedLogsScript : string :=
  "return window.__consoleMessages || []".

Definition inputSelector (formID name : string) : string :=
  "#" ++ formID ++ " input[name='" ++ name ++ "']".

Definition formSelector (formID : string) : string := "#" ++ formID.

Definition submitSelector (formID : string) : string :=
  "#" ++ formID ++ " input[type='submit'], #" ++ formID ++ " button[type='submit']".

(** *** [handleForm] *)

Definition handleForm {R} (config : Config) (isLiveView : bool)
  : M W R (option error) :=
  fn (
    (* Fill form inputs *)
    forEach (Inputs config) (fun input =>
      let selector := inputSelector (FormID config) (Name input) in
      r <- call (FindElement selector) ;;
      elem <- orReturn r (fun err =>
                Some ("could not find input " ++ Name input ++ ": " ++ err)) ;;
      e <- call (Clear elem) ;;
      failIf e (fun err =>
                Some ("could not clear input " ++ Name input ++ ": " ++ err)) ;;
      e <- call (SendKeys elem (Value input)) ;;
      failIf e (fun err =>
                Some ("could not fill input " ++ Name input ++ ": " ++ err))) ;;
    (if isLiveView then
       (* For LiveView, use Phoenix event-based navigation tracking *)
       r <- call (FindElement (formSelector (FormID config))) ;;
       formElem <- orReturn r (fun err =>
                     Some ("could not find LiveView form: " ++ err)) ;;
       (* Submit the form by pressing Enter *)
       e <- call (SendKeys formElem EnterKey) ;;
       failIf e (fun err => Some ("could not submit LiveView form: " ++ err)) ;;
       Println "Waiting for Phoenix LiveView navigation..." ;;
       (* First, wait for loading to start (with short timeout) *)
       err <- waitForFunction loadingStarted (2 * Second)%Z ;;
       match err with
       | Some _ =>
           Printf ("Info: No navigation detected (this is normal for in-place updates)" ++ nl)
       | None =>
           (* If navigation started, wait for it to complete *)
           err <- waitForFunction loadingStopped (10 * Second)%Z ;;
           match err with
           | Some err =>
               Printf ("Warning: Navigation did not complete within timeout: "
                       ++ err ++ nl)
           | None => Println "Phoenix LiveView navigation completed"
           end
       end ;;
       Println "LiveView form submitted"
     else
       (* For regular forms, click submit button or press enter *)
       r <- call (FindElement (submitSelector (FormID config))) ;;
       match r with
       | inr _ =>
           (* Try pressing Enter on the form if no submit button *)
           r <- call (FindElement (formSelector (FormID config))) ;;
           formElem <- orReturn r (fun err =>
                         Some ("could not submit form: " ++ err)) ;;
           e <- call (SendKeys formElem EnterKey) ;;
           failIf e (fun err => Some ("could not submit form: " ++ err))
       | inl elem =>
           e <- call (Click elem) ;;
           failIf e (fun err => Some ("could not click submit button: " ++ err))
       end ;;
       Println "Form submitted") ;;
    ret None).

(** *** [getFirefoxPath] and [getGeckodriverPath] *)

Definition getFirefoxPath {R} : M W R string :=
  fn (
    (* Check PATH first *)
    r <- call (LookPath "firefox") ;;
    match r with
    | inl path => Return path
    | inr _ => ret tt
    end ;;
    (* Fall back to downloaded location *)
    h <- call UserHomeDir ;;
    let homeDir := orZero h in
    if GOOS =? "darwin" then
      Return (filepath_Join [homeDir; ".web-firefox"; "firefox"; "Nightly.app";
                             "Contents"; "MacOS"; "firefox"])
    else if GOOS =? "linux" then
      Return (filepath_Join [homeDir; ".web-firefox"; "firefox"; "firefox"])
    else Return "").

Definition getGeckodriverPath {R} : M W R string :=
  fn (
    r <- call (LookPath "geckodriver") ;;
    match r with
    | inl path => Return path
    | inr _ => ret tt
    end ;;
    h <- call UserHomeDir ;;
    let homeDir := orZero h in
    Return (filepath_Join [homeDir; ".web-firefox"; "geckodriver"; "geckodriver"])).

(** *** The pieces of [processRequest] that touch no driver *)

(** The type assertion [v.(bool)], which panics on any other value. *)
Definition assertBool {R} (v : jsval) : M W R bool :=
  match v with
  | JBool b => ret b
  | _ => panic "interface conversion: interface {} is not bool"
  end.

(** [fmt.Sprintf("[%s] %s", level, message)]. *)
Definition formatEntry (level message : string) : string :=
  "[" ++ level ++ "] " ++ message.

(** The body of the loop over the captured console entries. *)
Definition appendCaptured (consoleMessages : list string) (logEntry : jsval)
  : list string :=
  match logEntry with
  | JObj logMap =>
      let level :=
        match lookup "level" logMap with
        | Some (JStr lvl) =>
            let level := ToUpper lvl in
            (* Normalize 'warn' to 'warning' to match expected format *)
            if level =? "WARN" then "WARNING" else level
        | _ => "LOG"
        end in
      let message :=
        match lookup "message" logMap with
        | Some (JStr msg) => msg
        | _ => ""
        end in
      (consoleMessages ++ [formatEntry level message])%list
  | _ => consoleMessages
  end.

(** 1. Collect console.log/warn/error messages from the injected capture. *)
Definition collectCaptured (capturedLogs : jsval + error)
    (consoleMessages : list string) : list string :=
  match capturedLogs with
  | inl (JArr logArray) => fold_left appendCaptured logArray consoleMessages
  | _ => consoleMessages
  end.

(** The body of the loop over the browser's own log. *)
Definition appendBrowser (consoleMessages : list string) (logEntry : LogMessage)
  : list string :=
  let level := ToUpper (Level logEntry) in
  (* Only include WARN, ERROR, SEVERE logs from browser to avoid noise *)
  if (level =? "WARNING") || (level =? "WARN") || (level =? "ERROR")
     || (level =? "SEVERE")
  then (consoleMessages ++ [formatEntry level (Message logEntry)])%list
  else consoleMessages.

(** 2. Collect browser logs. *)
Definition collectBrowser (browserLogs : list LogMessage + error)
    (consoleMessages : list string) : list string :=
  match browserLogs with
  | inl entries => fold_left appendBrowser entries consoleMessages
  | inr _ => consoleMessages
  end.

(** The notice appended to a truncated text. *)
Definition truncationNotice (budget fullLength : Z) : string :=
  nl ++ nl ++ "... (output truncated after " ++ Itoa budget
     ++ " chars, full content was " ++ Itoa fullLength ++ " chars)".

(** "Truncate if specified" ([text] is the converter's output and
    [markdown] its normalisation).  [None]: the slice expression
    [markdown[:config.TruncateAfter]] panics, which it does for a
    negative bound. *)
Definition truncate (markdown text : string) (truncateAfter : Z) : option string :=
  if (len markdown >? truncateAfter)%Z then
    if (truncateAfter <? 0)%Z then None
    else Some (take (Z.to_nat truncateAfter) markdown
               ++ truncationNotice truncateAfter (len text))
  else Some markdown.

(** "Add header with URL and console messages". *)
Definition assemble (baseURL markdown : string) (consoleMessages : list string)
  : string :=
  let result :=
    "==========================" ++ nl ++ baseURL ++ nl
    ++ "==========================" ++ nl ++ nl ++ markdown in
  if (0 <? List.length consoleMessages)%nat then
    fold_left (fun result msg => result ++ msg ++ nl) consoleMessages
      (result ++ nl ++ nl ++ Repeat "=" 50 ++ nl ++ "CONSOLE OUTPUT:" ++ nl
       ++ Repeat "=" 50 ++ nl)
  else result.

(** *** [processRequest] *)

(** The condition closure of the wait for a URL change; the captured
    variable is [navigationOccurred]. *)
Definition urlChangedCondition {R} (currentURL : string) (navigationOccurred : bool)
  : M W R (bool * (bool * option error)) :=
  fn (r <- call CurrentURL ;;
      match r with
      | inr _ => Return (navigationOccurred, (false, None))
      | inl newURL =>
          if negb (newURL =? currentURL)
          then Return (true, (true, None))
          else Return (navigationOccurred, (false, None))
      end).

(** "Wait for navigation based on page type", after the injected script
    has run. *)
Definition waitAfterScript {R} (isLiveView : bool) (currentURL : string)
  : M W R unit :=
  if isLiveView then
    (* For LiveView pages, wait for navigation using Phoenix events *)
    Println "Waiting for Phoenix LiveView navigation..." ;;
    (* First, wait briefly for loading to potentially start *)
    call (Sleep (100 * Millisecond)%Z) ;;
    (* Check if navigation started *)
    err <- waitForFunction loadingStarted (1 * Second)%Z ;;
    match err with
    | Some _ =>
        (* No navigation event detected, check if URL changed *)
        r <- call CurrentURL ;;
        let newURL := orZero r in
        if negb (newURL =? currentURL) then
          Println "URL changed, waiting for page to stabilize..." ;;
          call (Sleep (500 * Millisecond)%Z)
        else
          Println "Info: No navigation detected (in-place LiveView update)"
    | None =>
        (* Navigation started, wait for it to complete *)
        err <- waitForFunction loadingStopped (10 * Second)%Z ;;
        match err with
        | Some err =>
            Printf ("Warning: Navigation did not complete within timeout: "
                    ++ err ++ nl)
        | None => Println "Phoenix LiveView navigation completed"
        end
    end
  else
    (* For non-LiveView pages, wait for traditional navigation *)
    Println "Waiting for page navigation..." ;;
    (* Brief delay to allow navigation to start *)
    call (Sleep (200 * Millisecond)%Z) ;;
    (* Wait for URL to change or timeout *)
    r <- WaitWithTimeout (urlChangedCondition currentURL) (5 * Second)%Z false ;;
    let navigationOccurred := fst r in
    if navigationOccurred : bool then
      (* Wait for page to be fully loaded *)
      Println "Navigation detected, waiting for page load..." ;;
      err <- waitForFunction readyStateComplete (5 * Second)%Z ;;
      match err with
      | Some err => Printf ("Warning: Page load wait timed out: " ++ err ++ nl)
      | None => Println "Page load completed"
      end
    else
      Println "Info: No navigation detected (page update without URL change)".

(** What [processRequest] does with the session once it is open. *)
Definition session {R} (config : Config) (baseURL : string)
  : M W (string * option error) R :=
  (* Navigate to page *)
  e <- call (Get baseURL) ;;
  failIf e (fun err =>
    ("", Some ("could not navigate to " ++ baseURL ++ ": " ++ err))) ;;
  (* Inject console capture script *)
  r <- call (ExecuteScript consoleCaptureScript) ;;
  match r with
  | inr err => Printf ("Warning: Could not inject console capture: " ++ err ++ nl)
  | inl _ => ret tt
  end ;;
  (* Detect LiveView pages *)
  r <- call (ExecuteScript detectLiveViewScript) ;;
  let isLiveView := match r with
                    | inl v => v
                    | inr _ => JBool false
                    end in
  isLiveView <- assertBool isLiveView ;;
  (if isLiveView : bool then
     Println "Detected Phoenix LiveView page, waiting for connection..." ;;
     (* Wait for Phoenix LiveView to connect *)
     err <- waitForSelector ".phx-connected" (10 * Second)%Z ;;
     match err with
     | Some err =>
         Printf ("Warning: Could not detect LiveView connection: " ++ err ++ nl)
     | None => Println "Phoenix LiveView connected"
     end ;;
     (* Set up navigation tracking using Phoenix events *)
     r <- call (ExecuteScript navigationTrackingScript) ;;
     match r with
     | inr err =>
         Printf ("Warning: Could not inject Phoenix navigation listeners: "
                 ++ err ++ nl)
     | inl _ => ret tt
     end
   else ret tt) ;;
  (* Handle form submission if specified *)
  (if negb (FormID config =? "") && (0 <? List.length (Inputs config))%nat then
     err <- handleForm config isLiveView ;;
     failIf err (fun err => ("", Some ("error handling form: " ++ err)))
   else ret tt) ;;
  (* Execute JavaScript if provided *)
  (if negb (JSCode config =? "") then
     (* Store current URL before executing JS *)
     u <- call CurrentURL ;;
     let currentURL := orZero u in
     r <- call (ExecuteScript (JSCode config)) ;;
     match r with
     | inr err => Printf ("Warning: JavaScript execution failed: " ++ err ++ nl)
     | inl _ => ret tt
     end ;;
     waitAfterScript isLiveView currentURL
   else ret tt) ;;
  (* Take screenshot if requested *)
  (if negb (ScreenshotPath config =? "") then
     r <- call Screenshot ;;
     screenshot <- orReturn r (fun err =>
                     ("", Some ("error taking screenshot: " ++ err))) ;;
     e <- call (WriteFile (ScreenshotPath config) screenshot) ;;
     failIf e (fun err => ("", Some ("error saving screenshot: " ++ err))) ;;
     Printf ("Screenshot saved to " ++ ScreenshotPath config ++ nl)
   else ret tt) ;;
  (* Navigate to after-submit URL if provided *)
  (if negb (AfterSubmitURL config =? "") then
     Printf ("Navigating to after-submit URL: " ++ AfterSubmitURL config ++ nl) ;;
     e <- call (Get (AfterSubmitURL config)) ;;
     failIf e (fun err =>
       ("", Some ("could not navigate to after-submit URL: " ++ err)))
   else ret tt) ;;
  (* Get page content *)
  r <- call PageSource ;;
  content <- orReturn r (fun err =>
               ("", Some ("could not get page content: " ++ err))) ;;
  (* Collect ALL logs *)
  let consoleMessages : list string := [] in
  capturedLogs <- call (ExecuteScript capturedLogsScript) ;;
  let consoleMessages := collectCaptured capturedLogs consoleMessages in
  browserLogs <- call (Log "browser") ;;
  let consoleMessages := collectBrowser browserLogs consoleMessages in
  (* Return raw HTML if requested *)
  (if RawFlag config then Return (content, None) else ret tt) ;;
  (* Convert HTML to markdown *)
  text <- orReturn (html2text_FromString content) (fun err =>
            ("", Some ("could not convert HTML to text: " ++ err))) ;;
  (* Clean and format the markdown *)
  let markdown := cleanMarkdown text in
  (* Truncate if specified *)
  markdown <- match truncate markdown text (TruncateAfter config) with
              | Some markdown => ret markdown
              | None => panic "slice bounds out of range"
              end ;;
  Return (assemble baseURL markdown consoleMessages, None).

Definition processRequest {R} (config : Config) : M W R (string * option error) :=
  fn (
    let baseURL := ensureProtocol (URL config) in
    firefoxExec <- getFirefoxPath ;;
    geckoDriverPath <- getGeckodriverPath ;;
    (* Get home directory for profile storage *)
    h <- call UserHomeDir ;;
    homeDir <- orReturn h (fun err =>
                 ("", Some ("could not get home directory: " ++ err))) ;;
    (* Start geckodriver service *)
    e <- call (NewGeckoDriverService geckoDriverPath 4444) ;;
    failIf e (fun err =>
      ("", Some ("could not start geckodriver service: " ++ err))) ;;
    defer ServiceStop (
      (* Configure Firefox with profile *)
      let profileDir :=
        filepath_Join [homeDir; ".web-firefox"; "profiles"; Profile config] in
      call (MkdirAll profileDir) ;;
      let caps :=
        {| browserName := "firefox";
           binary := firefoxExec;
           args := ["-headless"; "-profile"; profileDir];
           prefs := [("devtools.console.stdout.content", true)];
           logLevel := "trace" |} in
      (* Create WebDriver *)
      e <- call (NewRemote caps ("http://localhost:" ++ Itoa 4444)) ;;
      failIf e (fun err => ("", Some ("could not create webdriver: " ++ err))) ;;
      defer Quit (session config baseURL))).

End Program.

(* ================================================================== *)
(** ** A scripted world, to run the program on concrete inputs *)

Module Scripted.

(** A page described by what the driver will answer. *)
Record World := {
  liveView : bool;               (** is the LiveView marker in the page *)
  missing : list string;         (** the selectors that match no element *)
  loading : list bool;           (** the successive values of the loading flag *)
  currentURL : string;
  pageSource : string;
  consoleMessages : jsval;       (** [window.__consoleMessages] *)
  browserLog : list LogMessage;
  budget : nat                   (** polls that fit into any timeout *)
}.

Definition popLoading (w : World) : World :=
  {| liveView := liveView w; missing := missing w; loading := tl (loading w);
     currentURL := currentURL w; pageSource := pageSource w;
     consoleMessages := consoleMessages w; browserLog := browserLog w;
     budget := budget w |}.

Definition answerScript (script : string) (w : World) : (jsval + error) * World :=
  if script =? detectLiveViewScript then (inl (JBool (liveView w)), w)
  else if script =? loadingStarted
       then (inl (JBool (hd false (loading w))), popLoading w)
  else if script =? loadingStopped
       then (inl (JBool (negb (hd false (loading w)))), popLoading w)
  else if script =? capturedLogsScript then (inl (consoleMessages w), w)
  else (inl JNull, w).

Definition answer {R : Type} (c : Call R) (w : World) : R * World :=
  match c in Call R return R * World with
  | LookPath file => (inl ("/usr/bin/" ++ file), w)
  | UserHomeDir => (inl "/home/user", w)
  | MkdirAll _ => (None, w)
  | NewGeckoDriverService _ _ => (None, w)
  | ServiceStop => (tt, w)
  | NewRemote _ _ => (None, w)
  | Quit => (tt, w)
  | Get _ => (None, w)
  | ExecuteScript script => answerScript script w
  | FindElement selector =>
      if existsb (String.eqb selector) (missing w)
      then (inr "no such element", w)
      else (inl (String.length selector), w)
  | Clear _ => (None, w)
  | SendKeys _ _ => (None, w)
  | Click _ => (None, w)
  | CurrentURL => (inl (currentURL w), w)
  | PageSource => (inl (pageSource w), w)
  | Screenshot => (inl "PNG", w)
  | Log _ => (inl (browserLog w), w)
  | WriteFile _ _ => (None, w)
  | Sleep _ => (tt, w)
  | Print _ => (tt, w)
  | PollBudget _ => (budget w, w)
  | Elapsed => ("1s", w)
  end.

#[export] Instance driver : Driver World := {| handle := @answer |}.

(** A converter that leaves its input alone, and plain stand-ins for the
    other external functions. *)
#[export] Instance externals : Externals := {|
  unicode_ToUpper := fun s => s;
  html2text_FromString := fun s => inl s;
  filepath_Join := String.concat "/";
  GOOS := "linux"
|}.

Definition page (source : string) : World :=
  {| liveView := false; missing := []; loading := [];
     currentURL := "http://example.com"; pageSource := source;
     consoleMessages := JArr []; browserLog := []; budget := 1 |}.

Definition config (url : string) : Config :=
  {| URL := url; Profile := "default"; FormID := ""; Inputs := [];
     AfterSubmitURL := ""; JSCode := ""; ScreenshotPath := "";
     TruncateAfter := DEFAULT_TRUNCATE_AFTER; RawFlag := false |}.

End Scripted.

Definition outcomeOf {W R A} (x : Outcome R A * W * list Event) : Outcome R A :=
  fst (fst x).
Definition worldOf {W R A} (x : Outcome R A * W * list Event) : W :=
  snd (fst x).
Definition traceOf {W R A} (x : Outcome R A * W * list Event) : list Event :=
  snd x.

(* ================================================================== *)
(** * The vocabulary of the statements *)

(** ** Texts, lines and calls *)

Fixpoint noLF (s : string) : bool :=
  match s with
  | "" => true
  | String c t => negb (Ascii.eqb c LF) && noLF t
  end.

Definition isEmpty (s : string) : bool :=
  match s with
  | "" => true
  | _ => false
  end.

Definition startsWithTwoEmpty (l : list string) : bool :=
  match l with
  | a :: b :: _ :: _ => isEmpty a && isEmpty b
  | _ => false
  end.

(** Two empty lines in a row with a line before and a line after: three
    line feeds in a row in the text. *)
Fixpoint hasGap (l : list string) : bool :=
  match l with
  | [] => false
  | _ :: l' => startsWithTwoEmpty l' || hasGap l'
  end.

(** The text before the final [TrimSpace]. *)
Definition normalizedLines (markdown : string) : string :=
  Join (map normalizeBullet
          (Split (collapseBlankLines (String.length markdown) markdown) LF)) nl.

(** The bordered header block of the output. *)
Definition header (baseURL : string) : string :=
  "==========================" ++ nl ++ baseURL ++ nl
  ++ "==========================" ++ nl ++ nl.

(** The calls that set the session up and tear it down. *)
Definition setupCall (ev : Event) : bool :=
  match ev with
  | Ev c _ =>
      match c with
      | LookPath _ | UserHomeDir | MkdirAll _ | NewGeckoDriverService _ _
      | NewRemote _ _ | ServiceStop | Quit => true
      | _ => false
      end
  end.

(** A call that touches the form: any element interaction, and any
    look-up other than the one for the LiveView connection marker. *)
Definition formInteraction (ev : Event) : bool :=
  match ev with
  | Ev c _ =>
      match c with
      | Clear _ | SendKeys _ _ | Click _ => true
      | FindElement selector => negb (selector =? ".phx-connected")
      | _ => false
      end
  end.

(** The start of a bounded wait with the given timeout. *)
Definition isWait (timeout : Duration) (ev : Event) : bool :=
  match ev with
  | Ev c _ =>
      match c with
      | PollBudget t => (t =? timeout)%Z
      | _ => false
      end
  end.

(** A call made while polling the script [jsCode]: an evaluation of
    the script, the sleep between two polls, or the reading of the
    elapsed time for the timeout error. *)
Definition isPoll (jsCode : string) (ev : Event) : bool :=
  match ev with
  | Ev c _ =>
      match c with
      | ExecuteScript script => script =? jsCode
      | Sleep d => (d =? DefaultWaitInterval)%Z
      | Elapsed => true
      | _ => false
      end
  end.

(** A read of the current URL. *)
Definition isCurrentURL (ev : Event) : bool :=
  match ev with
  | Ev c _ =>
      match c with
      | CurrentURL => true
      | _ => false
      end
  end.

(** The 500 ms sleep that lets a page stabilise after its URL changed. *)
Definition isStabilizationDelay (ev : Event) : bool :=
  match ev with
  | Ev c _ =>
      match c with
      | Sleep d => (d =? 500 * Millisecond)%Z
      | _ => false
      end
  end.

(** A press of the Enter key on an element. *)
Definition isEnterKey (ev : Event) : bool :=
  match ev with
  | Ev c _ =>
      match c with
      | SendKeys _ keys => keys =? EnterKey
      | _ => false
      end
  end.

(** What [handleForm] prints around its wait on a LiveView page. *)
Definition waitingText : string :=
  "Waiting for Phoenix LiveView navigation..." ++ nl.

Definition inPlaceText : string :=
  "Info: No navigation detected (this is normal for in-place updates)" ++ nl.

Definition completedText : string :=
  "Phoenix LiveView navigation completed" ++ nl.

Definition warningText (err : error) : string :=
  "Warning: Navigation did not complete within timeout: " ++ err ++ nl.

Definition submittedText : string := "LiveView form submitted" ++ nl.

(** ** The merged log *)

Section LogTerms.

Context {X : Externals}.

(** The level text of an instrumented entry: upper-cased, with WARN
    expanded. *)
Definition capturedLevel (logMap : list (string * jsval)) : string :=
  match lookup "level" logMap with
  | Some (JStr lvl) =>
      if ToUpper lvl =? "WARN" then "WARNING" else ToUpper lvl
  | _ => "LOG"
  end.

(** Its message, empty when the entry holds no string message. *)
Definition capturedMessage (logMap : list (string * jsval)) : string :=
  match lookup "message" logMap with
  | Some (JStr msg) => msg
  | _ => ""
  end.

(** The line [[LEVEL] message] of an instrumented entry. *)
Definition capturedLine (logMap : list (string * jsval)) : string :=
  "[" ++ capturedLevel logMap ++ "] " ++ capturedMessage logMap.

(** The entries of the instrumented capture: the objects of the array
    the page hands back. *)
Fixpoint objectsOf (l : list jsval) : list (list (string * jsval)) :=
  match l with
  | [] => []
  | JObj m :: l' => m :: objectsOf l'
  | _ :: l' => objectsOf l'
  end.

(** The instrumented entries of a run; none when the query failed or
    did not give an array. *)
Definition capturedEntries (capturedLogs : jsval + error)
  : list (list (string * jsval)) :=
  match capturedLogs with
  | inl (JArr l) => objectsOf l
  | _ => []
  end.

(** The entries of the native channel; none when the query failed. *)
Definition browserEntries (browserLogs : list LogMessage + error)
  : list LogMessage :=
  match browserLogs with
  | inl l => l
  | inr _ => []
  end.

(** The native entries that are kept. *)
Definition severe (e : LogMessage) : bool :=
  let level := ToUpper (Level e) in
  (level =? "WARNING") || (level =? "WARN") || (level =? "ERROR")
  || (level =? "SEVERE").

(** The line [[LEVEL] message] of a native entry. *)
Definition browserLine (e : LogMessage) : string :=
  "[" ++ ToUpper (Level e) ++ "] " ++ Message e.

End LogTerms.

(** C3 as the spec words it: every instrumented entry, then every entry
    of the native channel, which holds the severities WARNING, ERROR and
    SEVERE only; each level upper-cased, and WARN expanded. *)
Definition claimedLevel `{Externals} (level : string) : string :=
  if ToUpper level =? "WARN" then "WARNING" else ToUpper level.

Definition claimedSeverity `{Externals} (e : LogMessage) : bool :=
  let level := claimedLevel (Level e) in
  (level =? "WARNING") || (level =? "ERROR") || (level =? "SEVERE").

Definition claimedMerge `{Externals} (instrumented : list (string * string))
    (native : list LogMessage) : list string :=
  List.app
    (map (fun e => "[" ++ claimedLevel (fst e) ++ "] " ++ snd e) instrumented)
    (map (fun e => "[" ++ claimedLevel (Level e) ++ "] " ++ Message e)
       (filter claimedSeverity native)).

(** The array the capture script builds from such entries. *)
Definition capturedArray (instrumented : list (string * string)) : jsval :=
  JArr (map (fun e => JObj [("level", JStr (fst e)); ("message", JStr (snd e))])
          instrumented).

(** ** Runs *)

Section RunTerms.

Context {W : Type} {D : Driver W} {X : Externals}.

Notation "x <- m ;; k" := (bind m (fun x => k))
  (at level 100, m at next level, right associativity).
Notation "m ;; k" := (bind m (fun _ => k))
  (at level 100, right associativity).

(** Every call of [m], whatever the world, satisfies [P]. *)
Definition Emits {R A} (P : Event -> Prop) (m : M W R A) : Prop :=
  forall w, Forall P (traceOf (m w)).

(** Every [return] of [m] gives a value in [P]. *)
Definition Returns {R A} (P : R -> Prop) (m : M W R A) : Prop :=
  forall w r, outcomeOf (m w) = Stop (Returned r) -> P r.

(** [m] never runs off its end: it leaves through [return] or a panic. *)
Definition NoValue {R A} (m : M W R A) : Prop :=
  forall w a, outcomeOf (m w) <> Val a.

(** Whenever [m] returns [r], the calls of the run end with calls [suf]
    that stand in relation [Q] to [r]. *)
Definition Ends {R A} (Q : R -> list Event -> Prop) (m : M W R A) : Prop :=
  forall w r,
    outcomeOf (m w) = Stop (Returned r) ->
    exists pre suf, traceOf (m w) = (pre ++ suf)%list /\ Q r suf.

(** The calls of [m] begin with calls in [P], and what follows satisfies
    [Q]. *)
Definition Begins {R A} (P : Event -> Prop) (Q : list Event -> Prop)
    (m : M W R A) : Prop :=
  forall w, exists pre rest,
    traceOf (m w) = (pre ++ rest)%list /\ Forall P pre /\ Q rest.

(** The trace of every run of [m] that returns without an error
    satisfies [Q]. *)
Definition Succeeds {A} (Q : list Event -> Prop)
    (m : M W (string * option error) A) : Prop :=
  forall w r,
    outcomeOf (m w) = Stop (Returned r) -> snd r = None -> Q (traceOf (m w)).

(** What follows the set-up: nothing, or a navigation to [url] first. *)
Definition startsWithGet (url : string) (rest : list Event) : Prop :=
  rest = [] \/ exists r rest', rest = Ev (Get url) r :: rest'.

(** Set-up calls, then the navigation to [url], which succeeds. *)
Definition navigated (url : string) (t : list Event) : Prop :=
  exists setup rest,
    t = (setup ++ Ev (Get url) None :: rest)%list
    /\ Forall (fun ev => setupCall ev = true) setup.

(** The calls with which a successful raw run ends, before the session
    is closed. *)
Definition rawEnd (r : string * option error) (suf : list Event) : Prop :=
  snd r = None ->
  exists r1 r2,
    suf = [Ev PageSource (inl (fst r));
           Ev (ExecuteScript capturedLogsScript) r1;
           Ev (Log "browser") r2].

(** A successful run that is not raw returns the assembled text. *)
Definition assembled (config : Config) (baseURL : string)
    (r : string * option error) : Prop :=
  snd r = None -> RawFlag config = false ->
  exists markdown rest, fst r = header baseURL ++ markdown ++ rest.

(** The body of the loop of [handleForm] over the fields. *)
Definition fillField (formID : string) (input : FormInput)
  : M W (option error) unit :=
  let selector := inputSelector formID (Name input) in
  r <- call (FindElement selector) ;;
  elem <- orReturn r (fun err =>
            Some ("could not find input " ++ Name input ++ ": " ++ err)) ;;
  e <- call (Clear elem) ;;
  failIf e (fun err =>
            Some ("could not clear input " ++ Name input ++ ": " ++ err)) ;;
  e <- call (SendKeys elem (Value input)) ;;
  failIf e (fun err =>
            Some ("could not fill input " ++ Name input ++ ": " ++ err)).

(** What [handleForm] does once the fields are filled. *)
Definition submitForm (config : Config) (isLiveView : bool)
  : M W (option error) unit :=
  if isLiveView then
    r <- call (FindElement (formSelector (FormID config))) ;;
    formElem <- orReturn r (fun err =>
                  Some ("could not find LiveView form: " ++ err)) ;;
    e <- call (SendKeys formElem EnterKey) ;;
    failIf e (fun err => Some ("could not submit LiveView form: " ++ err)) ;;
    Println "Waiting for Phoenix LiveView navigation..." ;;
    err <- waitForFunction loadingStarted (2 * Second)%Z ;;
    match err with
    | Some _ =>
        Printf ("Info: No navigation detected (this is normal for in-place updates)" ++ nl)
    | None =>
        err <- waitForFunction loadingStopped (10 * Second)%Z ;;
        match err with
        | Some err =>
            Printf ("Warning: Navigation did not complete within timeout: "
                    ++ err ++ nl)
        | None => Println "Phoenix LiveView navigation completed"
        end
    end ;;
    Println "LiveView form submitted"
  else
    r <- call (FindElement (submitSelector (FormID config))) ;;
    match r with
    | inr _ =>
        r <- call (FindElement (formSelector (FormID config))) ;;
        formElem <- orReturn r (fun err =>
                      Some ("could not submit form: " ++ err)) ;;
        e <- call (SendKeys formElem EnterKey) ;;
        failIf e (fun err => Some ("could not submit form: " ++ err))
    | inl elem =>
        e <- call (Click elem) ;;
        failIf e (fun err => Some ("could not click submit button: " ++ err))
    end ;;
    Println "Form submitted".

(** The three ways in which a field fails, with the calls made. *)
Definition failedFill (formID : string) (input : FormInput) (reason err : string)
    (t : list Event) : Prop :=
  let selector := inputSelector formID (Name input) in
  (reason = "find" /\ t = [Ev (FindElement selector) (inr err)])
  \/ (exists elem,
        reason = "clear"
        /\ t = [Ev (FindElement selector) (inl elem); Ev (Clear elem) (Some err)])
  \/ (exists elem,
        reason = "fill"
        /\ t = [Ev (FindElement selector) (inl elem); Ev (Clear elem) None;
                Ev (SendKeys elem (Value input)) (Some err)]).

(** [handleForm] on a LiveView page, up to the key press that submits
    the form. *)
Definition fillAndSubmit (config : Config) : M W (option error) unit :=
  forEach (Inputs config) (fillField (FormID config)) ;;
  r <- call (FindElement (formSelector (FormID config))) ;;
  formElem <- orReturn r (fun err =>
                Some ("could not find LiveView form: " ++ err)) ;;
  e <- call (SendKeys formElem EnterKey) ;;
  failIf e (fun err => Some ("could not submit LiveView form: " ++ err)).

(** The navigation wait that follows: "wait for Phoenix navigation to
    complete". *)
Definition liveViewWait : M W (option error) unit :=
  Println "Waiting for Phoenix LiveView navigation..." ;;
  err <- waitForFunction loadingStarted (2 * Second)%Z ;;
  match err with
  | Some _ =>
      Printf ("Info: No navigation detected (this is normal for in-place updates)" ++ nl)
  | None =>
      err <- waitForFunction loadingStopped (10 * Second)%Z ;;
      match err with
      | Some err =>
          Printf ("Warning: Navigation did not complete within timeout: "
                  ++ err ++ nl)
      | None => Println "Phoenix LiveView navigation completed"
      end
  end.

End RunTerms.

(** ** Concrete inputs in the scripted world *)

Module Cases.

Import Scripted.

(** A LiveView page whose loading flag is never set. *)
Definition liveViewPage : World :=
  {| liveView := true; missing := []; loading := [];
     currentURL := "http://localhost:4000/users/log-in";
     pageSource := "<form id='login_form' data-phx-session='x'></form>";
     consoleMessages := JArr []; browserLog := []; budget := 1 |}.

Definition loginConfig : Config :=
  {| URL := "localhost:4000/users/log-in"; Profile := "default";
     FormID := "login_form";
     Inputs := [{| Name := "email"; Value := "test@example.com" |}];
     AfterSubmitURL := ""; JSCode := ""; ScreenshotPath := "";
     TruncateAfter := DEFAULT_TRUNCATE_AFTER; RawFlag := false |}.

(** A form with three fields, the second of which is not in the page. *)
Definition threeFields : Config :=
  {| URL := "example.com"; Profile := "default"; FormID := "f";
     Inputs := [{| Name := "a"; Value := "1" |}; {| Name := "b"; Value := "2" |};
                {| Name := "c"; Value := "3" |}];
     AfterSubmitURL := ""; JSCode := ""; ScreenshotPath := "";
     TruncateAfter := DEFAULT_TRUNCATE_AFTER; RawFlag := false |}.

Definition pageWithoutB : World :=
  {| liveView := false; missing := [inputSelector "f" "b"]; loading := [];
     currentURL := "http://example.com"; pageSource := "<form id='f'></form>";
     consoleMessages := JArr []; browserLog := []; budget := 1 |}.

(** A script to run, and no form. *)
Definition scriptConfig : Config :=
  {| URL := "localhost:4000"; Profile := "default"; FormID := "";
     Inputs := []; AfterSubmitURL := "";
     JSCode := "document.querySelector('button').click()";
     ScreenshotPath := ""; TruncateAfter := DEFAULT_TRUNCATE_AFTER;
     RawFlag := false |}.

(** A form identifier, and no field. *)
Definition formWithoutFields : Config :=
  {| URL := "example.com"; Profile := "default"; FormID := "f";
     Inputs := []; AfterSubmitURL := ""; JSCode := "console.log(1)";
     ScreenshotPath := ""; TruncateAfter := DEFAULT_TRUNCATE_AFTER;
     RawFlag := false |}.

Definition rawConfig : Config :=
  {| URL := "https://example.com"; Profile := "default"; FormID := "";
     Inputs := []; AfterSubmitURL := ""; JSCode := ""; ScreenshotPath := "";
     TruncateAfter := 5; RawFlag := true |}.

Definition budgetTwo : Config :=
  {| URL := "example.com"; Profile := "default"; FormID := "";
     Inputs := []; AfterSubmitURL := ""; JSCode := ""; ScreenshotPath := "";
     TruncateAfter := 2; RawFlag := false |}.

(** A page that warns once through the console, in a browser whose own
    log holds one entry at level WARN. *)
Definition consoleWarning : list (string * string) := [("warn", "slow")].

Definition browserWarning : list LogMessage :=
  [{| Timestamp := 0; Level := "WARN"; Message := "deprecated API" |}].

Definition warningPage : World :=
  {| liveView := false; missing := []; loading := [];
     currentURL := "http://example.com"; pageSource := "hello";
     consoleMessages := capturedArray consoleWarning;
     browserLog := browserWarning; budget := 1 |}.

End Cases.

(* ================================================================== *)
(** * The vocabulary of the further properties *)

(** ** Command lines *)

(** A URL with a protocol, as [ensureProtocol] understands it. *)
Definition hasProtocol (url : string) : bool :=
  HasPrefix url "http://" || HasPrefix url "https://".

(** The arguments that give the fields of a form. *)
Definition inputArgs (inputs : list FormInput) : list string :=
  flat_map (fun input => ["--input"; Name input; "--value"; Value input]) inputs.

(** A command line that spells a configuration out, option by option;
    [budget] is the text given for the truncation budget. *)
Definition commandLine (config : Config) (budget : string) : list string :=
  (URL config :: "--profile" :: Profile config :: "--form" :: FormID config
   :: inputArgs (Inputs config)
   ++ ["--after-submit"; AfterSubmitURL config; "--js"; JSCode config;
       "--screenshot"; ScreenshotPath config; "--truncate-after"; budget]
   ++ (if RawFlag config then ["--raw"] else []))%list.

Definition set_Inputs (c : Config) (l : list FormInput) : Config :=
  {| URL := URL c; Profile := Profile c; FormID := FormID c; Inputs := l;
     AfterSubmitURL := AfterSubmitURL c; JSCode := JSCode c;
     ScreenshotPath := ScreenshotPath c; TruncateAfter := TruncateAfter c;
     RawFlag := RawFlag c |}.

(** ** Normalised text *)

(** A text that [cleanMarkdown] has nothing to do on: no three line
    feeds in a row, no line that begins with the bullet ["* "], and no
    white space at either end. *)
Definition normalText (t : string) : Prop :=
  Contains t (nl ++ nl ++ nl) = false
  /\ Contains t (nl ++ "* ") = false
  /\ HasPrefix t "* " = false
  /\ TrimSpace t = t.

(** ** Errors *)

(** How the errors of [processRequest] begin. *)
Definition requestErrors : list string :=
  ["could not get home directory: "; "could not start geckodriver service: ";
   "could not create webdriver: "; "could not navigate to ";
   "error handling form: "; "error taking screenshot: ";
   "error saving screenshot: "; "could not navigate to after-submit URL: ";
   "could not get page content: "; "could not convert HTML to text: "].

(** How the errors of [handleForm] begin. *)
Definition formErrors : list string :=
  ["could not find input "; "could not clear input "; "could not fill input ";
   "could not find LiveView form: "; "could not submit LiveView form: ";
   "could not submit form: "; "could not click submit button: "].

(** An error that begins as one of [prefixes]. *)
Definition beginsAs (prefixes : list string) (err : error) : bool :=
  existsb (HasPrefix err) prefixes.

(** The two panics of the program. *)
Definition conversionPanic : string :=
  "interface conversion: interface {} is not bool".

Definition slicePanic : string := "slice bounds out of range".

(** ** Panics *)

Section PanicTerms.

Context {W : Type} {D : Driver W}.

(** Every panic of [m] has a message in [P]. *)
Definition Panics {R A} (P : string -> Prop) (m : M W R A) : Prop :=
  forall w msg, outcomeOf (m w) = Stop (Panicked msg) -> P msg.

End PanicTerms.

(** A configuration with a negative budget, which [parseArgs] never
    gives. *)
Definition negativeBudget : Config :=
  {| URL := "example.com"; Profile := "default"; FormID := "";
     Inputs := []; AfterSubmitURL := ""; JSCode := ""; ScreenshotPath := "";
     TruncateAfter := -1; RawFlag := false |}.

(** ** Set-up and release *)

(** The calls that look for the executables and the home directory. *)
Definition pathCall (ev : Event) : bool :=
  match ev with
  | Ev c _ =>
      match c with
      | LookPath _ | UserHomeDir => true
      | _ => false
      end
  end.

(** The capabilities [processRequest] asks for. *)
Definition firefoxCapabilities (firefoxExec profileDir : string) : Capabilities :=
  {| browserName := "firefox";
     binary := firefoxExec;
     args := ["-headless"; "-profile"; profileDir];
     prefs := [("devtools.console.stdout.content", true)];
     logLevel := "trace" |}.

(** The directory of the browser profile. *)
Definition profileDirectory `{Externals} (homeDir : string) (config : Config)
  : string :=
  filepath_Join [homeDir; ".web-firefox"; "profiles"; Profile config].

(** A call that acquires a resource: the driver service when it starts,
    the session when it opens. *)
Definition acquires (ev : Event) : bool :=
  match ev with
  | Ev c r =>
      match c in Call R return R -> bool with
      | NewGeckoDriverService _ _ =>
          fun e => match e with None => true | Some _ => false end
      | NewRemote _ _ =>
          fun e => match e with None => true | Some _ => false end
      | _ => fun _ => false
      end r
  end.

(** A call that releases one. *)
Definition releases (ev : Event) : bool :=
  match ev with
  | Ev c _ =>
      match c with
      | ServiceStop | Quit => true
      | _ => false
      end
  end.

Definition quiet (ev : Event) : bool := negb (acquires ev || releases ev).

(** The answer to a navigation. *)
Definition navigationAnswer (ev : Event) : option (string * option error) :=
  match ev with
  | Ev c r =>
      match c in Call R return R -> option (string * option error) with
      | Get url => fun e => Some (url, e)
      | _ => fun _ => None
      end r
  end.

(** ** A world without network *)

Module Offline.

(** The driver starts and opens a session, and no page can be reached:
    a navigation fails, and there is no URL to read. *)
Definition answer {R : Type} (c : Call R) (w : Scripted.World)
  : R * Scripted.World :=
  match c in Call R return R * Scripted.World with
  | Get _ => (Some "Reached error page: about:neterror", w)
  | CurrentURL => (inr "no such window", w)
  | other => Scripted.answer other w
  end.

Definition driver : Driver Scripted.World := {| handle := @answer |}.

End Offline.

(** ** The text of a run *)

Section TextTerms.

Context {X : Externals}.

(** The calls with which a successful run that is not raw ends, before
    the session is closed, and the text it returns. *)
Definition textEnd (config : Config) (baseURL : string)
    (r : string * option error) (suf : list Event) : Prop :=
  snd r = None ->
  exists content r1 r2 text markdown,
    suf = [Ev PageSource (inl content);
           Ev (ExecuteScript capturedLogsScript) r1;
           Ev (Log "browser") r2]
    /\ html2text_FromString content = inl text
    /\ truncate (cleanMarkdown text) text (TruncateAfter config) = Some markdown
    /\ fst r = assemble baseURL markdown (collectBrowser r2 (collectCaptured r1 [])).

End TextTerms.

(** ** Waits and forms *)

(** A call of [waitForSelector] that does not end the wait: a look-up
    of the selector that fails, the sleep between two polls, or the
    reading of the elapsed time for the timeout error. *)
Definition missedLookup (selector : string) (ev : Event) : bool :=
  match ev with
  | Ev c r =>
      match c in Call R return R -> bool with
      | FindElement s =>
          fun r => (s =? selector)
                   && match r with inl _ => false | inr _ => true end
      | Sleep d => fun _ => (d =? DefaultWaitInterval)%Z
      | Elapsed => fun _ => true
      | _ => fun _ => false
      end r
  end.

(** The detection script answering that the page is a LiveView page. *)
Definition liveViewDetected (ev : Event) : bool :=
  match ev with
  | Ev c r =>
      match c in Call R return R -> bool with
      | ExecuteScript script =>
          fun r => (script =? detectLiveViewScript)
                   && match r with
                      | inl (JBool true) => true
                      | _ => false
                      end
      | _ => fun _ => false
      end r
  end.

(** A call that waits: the start of a bounded wait, a sleep, or the
    reading of the time a wait has taken. *)
Definition waits (ev : Event) : bool :=
  match ev with
  | Ev c _ =>
      match c with
      | PollBudget _ | Sleep _ | Elapsed => true
      | _ => false
      end
  end.

(** ** The wait after an injected script *)

Section ScriptWaitTerms.

Context {W : Type} {D : Driver W}.

(** [m] always runs to its end: it neither returns from the function
    that contains it nor panics. *)
Definition Completes {R A} (m : M W R A) : Prop :=
  forall w, exists a, outcomeOf (m w) = Val a.

End ScriptWaitTerms.

(** A read of the URL that gives another URL than [url]. *)
Definition urlDiffers (url : string) (ev : Event) : bool :=
  match ev with
  | Ev c r =>
      match c in Call R return R -> bool with
      | CurrentURL =>
          fun r => match r with
                   | inl newURL => negb (newURL =? url)
                   | inr _ => false
                   end
      | _ => fun _ => false
      end r
  end.

(** A poll of the readiness of the document. *)
Definition readinessPoll (ev : Event) : bool :=
  match ev with
  | Ev c _ =>
      match c with
      | ExecuteScript script => script =? readyStateComplete
      | _ => false
      end
  end.

(* ================================================================== *)
(** * Running commands

    [extractTarGz] unpacks the driver archive with the system's [tar],
    through [runCommand] and [findExecutable]. *)

(** [strings.Fields(s)]: the maximal runs of bytes of [s] that hold no
    white-space rune.  [current] is the field being read. *)
Definition flush (current : string) : list string :=
  match current with
  | "" => []
  | _ => [current]
  end.

Fixpoint fieldsFrom (fuel : nat) (current s : string) : list string :=
  match fuel with
  | O => flush current
  | S fuel' =>
      match s with
      | "" => flush current
      | String c t =>
          match spaceWidth s with
          | O => fieldsFrom fuel' (current ++ String c "") t
          | w => (flush current ++ fieldsFrom fuel' "" (drop w s))%list
          end
      end
  end.

Definition Fields (s : string) : list string :=
  fieldsFrom (String.length s) "" s.

(** The operating system, as far as [runCommand] sees it. *)
Definition Process := nat.

Class System := {
  (** [_, err := os.Stat(path)]: is [err == nil] *)
  os_Stat : string -> bool;
  (** [os.StartProcess(name, argv, attr)] *)
  os_StartProcess : string -> list string -> Process + error;
  (** [state, err := proc.Wait()], with [state.Success()] *)
  proc_Wait : Process -> bool + error
}.

Section Commands.

Context {X : Externals} {Sys : System}.

(** The loop of [findExecutable] over [paths]. *)
Fixpoint searchPaths (paths : list string) (name : string) : string + error :=
  match paths with
  | [] => inr ("executable not found: " ++ name)
  | dir :: paths' =>
      let path := filepath_Join [dir; name] in
      if os_Stat path then inl path else searchPaths paths' name
  end.

(** [findExecutable]: simple path search. *)
Definition findExecutable (name : string) : string + error :=
  let paths := ["/bin"; "/usr/bin"; "/usr/local/bin"] in
  searchPaths paths name.

(** [runCommand]: simple command execution. *)
Definition runCommand (cmd : string) : option error :=
  let parts := Fields cmd in
  match parts with
  | [] => Some "empty command"
  | name :: _ =>
      (* Find the executable *)
      match findExecutable name with
      | inr err => Some err
      | inl executable =>
          match os_StartProcess executable parts with
          | inr err => Some err
          | inl proc =>
              match proc_Wait proc with
              | inr err => Some err
              | inl success =>
                  if negb success then Some ("command failed: " ++ cmd)
                  else None
              end
          end
      end
  end.

(** [fmt.Sprintf("tar -xzf %s -C %s", src, dest)]. *)
Definition tarCommand (src dest : string) : string :=
  "tar -xzf " ++ src ++ " -C " ++ dest.

(** [extractTarGz]: use system tar command for simplicity. *)
Definition extractTarGz (src dest : string) : option error :=
  let cmd := tarCommand src dest in
  match runCommand cmd with
  | Some err => Some ("failed to extract tar.gz: " ++ err)
  | None => None
  end.

End Commands.

(** A system with [tar] in [/usr/bin], which succeeds on the arguments
    of a plain extraction and on no others. *)
Module Unix.

#[export] Instance system : System := {|
  os_Stat := fun path => path =? "/usr/bin/tar";
  os_StartProcess := fun name argv =>
    match argv with
    | [_; _; _; _; _] => inl 0
    | _ => inl 1
    end;
  proc_Wait := fun proc => inl (Nat.eqb proc 0)
|}.

End Unix.

(* ================================================================== *)
(** * The program

    [main] reads the arguments, makes sure that the browser and its
    driver are installed, processes the request and prints the result. *)

(** The double quote. *)
Definition quote : string := String (Ascii.ascii_of_nat 34) "".

(** What [printHelp] prints. *)
Definition helpText : string :=
  "web - portable web scraper for llms

Usage: web <url> [options]

Options:
  --help                     Show this help message
  --raw                      Output raw page instead of converting to markdown
  --truncate-after <number>  Truncate output after <number> characters and append a notice (default: "
  ++ Itoa DEFAULT_TRUNCATE_AFTER ++ ")
  --screenshot <filepath>    Take a screenshot of the page and save it to the given filepath
  --form <id>                The id of the form for inputs
  --input <name>             Specify the name attribute for a form input field
  --value <value>            Provide the value to fill for the last --input field
  --after-submit <url>       After form submission and navigation, load this URL before converting to markdown
  --js <code>                Execute JavaScript code on the page after it loads
  --profile <name>           Use or create named session profile (default: "
  ++ quote ++ "default" ++ quote ++ ")

Phoenix LiveView Support:
This tool automatically detects Phoenix LiveView applications and properly handles:
- Connection waiting (.phx-connected)
- Form submissions with loading states
- State management between interactions

Examples:
  web https://example.com
  web https://example.com --screenshot page.png --truncate-after 5000
  web localhost:4000/login --form login_form --input email --value test@example.com --input password --value secret
".

(** What the process writes, and where. *)
Inductive Output :=
| Stdout (text : string)
| Stderr (text : string).

(** How the process ends: [os.Exit(code)] or the return of [main], or a
    panic that nothing recovers. *)
Inductive Ending :=
| Exited (code : Z)
| Panicking (msg : string).

(** [ensureFirefox()] and [ensureGeckodriver()] download and unpack the
    browser and its driver when they are not installed.  [main] sees
    what they print and whether they fail. *)
Class Setup := {
  ensureFirefox : list string * option error;
  ensureGeckodriver : list string * option error
}.

(** The texts printed by the calls of a run. *)
Definition printed (t : list Event) : list string :=
  flat_map (fun ev =>
              match ev with
              | Ev c _ =>
                  match c with
                  | Print text => [text]
                  | _ => []
                  end
              end) t.

Section Main.

Context {W : Type} {D : Driver W} {X : Externals} {Ins : Setup}.

Definition main (args : list string) (w : W) : Ending * list Output :=
  match parseArgs args with
  | None => (Exited 0, [Stdout helpText])
  | Some config =>
      if URL config =? "" then
        (Exited 1, [Stdout helpText])
      else
        (* Ensure Firefox and geckodriver are installed *)
        let (progress1, err) := ensureFirefox in
        match err with
        | Some err =>
            (Exited 1,
             map Stdout progress1
             ++ [Stderr ("Error setting up Firefox: " ++ err ++ nl)])%list
        | None =>
            let (progress2, err) := ensureGeckodriver in
            match err with
            | Some err =>
                (Exited 1,
                 map Stdout (progress1 ++ progress2)
                 ++ [Stderr ("Error setting up geckodriver: " ++ err ++ nl)])%list
            | None =>
                (* Process the request *)
                let run := processRequest (R := Empty_set) config w in
                let progress :=
                  map Stdout (progress1 ++ progress2 ++ printed (traceOf run)) in
                match outcomeOf run with
                | Val (_, Some err) =>
                    (Exited 1,
                     progress
                     ++ [Stderr ("Error processing request: " ++ err ++ nl)])%list
                | Val (result, None) =>
                    (Exited 0, progress ++ [Stdout (result ++ nl)])%list
                | Stop (Panicked msg) => (Panicking msg, progress)
                | Stop (Returned r) => match r with end
                end
            end
        end
  end.

End Main.

(** An installation that is complete. *)
Module Installed.

#[export] Instance setup : Setup := {|
  ensureFirefox := ([], None);
  ensureGeckodriver := ([], None)
|}.

End Installed.

(** An output on the error stream that begins with ["Error "], or any
    output on the standard stream. *)
Definition wellReported (o : Output) : bool :=
  match o with
  | Stdout _ => true
  | Stderr text => HasPrefix text "Error "
  end.

Definition onStdout (o : Output) : bool :=
  match o with
  | Stdout _ => true
  | Stderr _ => false
  end.

(** The capabilities and the address with which a session is asked
    for. *)
Definition sessionRequest (ev : Event) : option (Capabilities * string) :=
  match ev with
  | Ev c _ =>
      match c with
      | NewRemote caps url => Some (caps, url)
      | _ => None
      end
  end.

Definition requestsSession (ev : Event) : bool :=
  match sessionRequest ev with
  | Some _ => true
  | None => false
  end.

(* ================================================================== *)
(** * Properties *)

(** ** The model at work *)

Example cleanMarkdown_ex1 :
  cleanMarkdown ("a" ++ nl ++ nl ++ nl ++ nl ++ nl ++ "* b  " ++ nl)
  = "a" ++ nl ++ nl ++ "- b".
Proof. vm_compute. reflexivity. Qed.

(** Trimming removes the white space of ASCII and of Unicode (here
    U+00A0 in front, and U+2003 and a tab behind), and leaves alone a
    byte that only looks like the start of one (a lone C2). *)
Example TrimSpace_ex :
  TrimSpace (String "194" (String "160" (" x y" ++ String "226" (String "128"
               (String "131" (String "009" ""))))))
  = "x y"
  /\ TrimSpace (" " ++ String "194" "x ") = String "194" "x".
Proof. split; vm_compute; reflexivity. Qed.

Example cleanMarkdown_ex2 : cleanMarkdown "  * x" = "* x".
Proof. vm_compute. reflexivity. Qed.

Example cleanMarkdown_ex3 : cleanMarkdown "* x" = "- x".
Proof. vm_compute. reflexivity. Qed.

Example Itoa_ex : (Itoa 0, Itoa 100000, Itoa (-7)) = ("0", "100000", "-7").
Proof. vm_compute. reflexivity. Qed.

Example Atoi_ex :
  (Atoi "5000", Atoi "+12", Atoi "-3", Atoi "", Atoi "-", Atoi "1_0", Atoi "12a",
   Atoi "9223372036854775808", Atoi "007")
  = (Some 5000, Some 12, Some (-3), None, None, None, None, None, Some 7)%Z.
Proof. vm_compute. reflexivity. Qed.

Example parseArgs_ex :
  option_map TruncateAfter
    (parseArgs ["example.com"; "--truncate-after"; "5"; "--truncate-after"; "0"])
  = Some 5%Z.
Proof. vm_compute. reflexivity. Qed.

Example processRequest_ex :
  outcomeOf (processRequest (D := Scripted.driver) (X := Scripted.externals)
               (R := unit) (Scripted.config "example.com")
               (Scripted.page ("a" ++ nl ++ nl ++ nl ++ "* b")))
  = Val ("==========================" ++ nl ++ "http://example.com" ++ nl
         ++ "==========================" ++ nl ++ nl
         ++ "a" ++ nl ++ nl ++ "- b", None).
Proof. vm_compute. reflexivity. Qed.

(** ** Strings *)

Arguments HasPrefix : simpl never.

Section StringFacts.

Lemma app_nil_r (s : string) : s ++ "" = s.
Proof. induction s; simpl; congruence. Qed.

Lemma app_assoc (a b c : string) : (a ++ b) ++ c = a ++ b ++ c.
Proof. induction a; simpl; congruence. Qed.

Lemma length_app (a b : string) :
  String.length (a ++ b) = String.length a + String.length b.
Proof. induction a; simpl; congruence. Qed.

Lemma take_drop (n : nat) (s : string) : take n s ++ drop n s = s.
Proof.
  revert s; induction n as [|n IH]; intros [|c t]; simpl; try reflexivity.
  now rewrite IH.
Qed.

Lemma length_take (n : nat) (s : string) :
  n <= String.length s -> String.length (take n s) = n.
Proof.
  revert s; induction n as [|n IH]; intros [|c t]; simpl; intros Hn;
    try reflexivity; try lia.
  rewrite IH; lia.
Qed.

Lemma length_drop_le (n : nat) (s : string) :
  String.length (drop n s) <= String.length s.
Proof.
  revert s; induction n as [|n IH]; intros [|c t]; simpl; try lia.
  specialize (IH t); lia.
Qed.

Lemma drop_app_length (a b : string) : drop (String.length a) (a ++ b) = b.
Proof. induction a; simpl; auto. Qed.

Lemma take_app_length (a b : string) : take (String.length a) (a ++ b) = a.
Proof. induction a; simpl; congruence. Qed.

Lemma srev_app (a b : string) : srev (a ++ b) = srev b ++ srev a.
Proof.
  induction a as [|c a IH]; simpl.
  - now rewrite app_nil_r.
  - now rewrite IH, app_assoc.
Qed.

Lemma srev_involutive (s : string) : srev (srev s) = s.
Proof.
  induction s as [|c s IH]; simpl; [reflexivity|].
  now rewrite srev_app, IH.
Qed.

Lemma length_srev (s : string) : String.length (srev s) = String.length s.
Proof.
  induction s as [|c s IH]; simpl; [reflexivity|].
  rewrite length_app, IH; simpl; lia.
Qed.

(** *** Prefixes *)

Lemma HasPrefix_nil (s : string) : HasPrefix s "" = true.
Proof. destruct s; reflexivity. Qed.

Lemma HasPrefix_cons (c d : ascii) (s p : string) :
  HasPrefix (String c s) (String d p) = Ascii.eqb d c && HasPrefix s p.
Proof.
  unfold HasPrefix; simpl.
  destruct (ascii_dec d c) as [->|Hn].
  - now rewrite Ascii.eqb_refl.
  - apply Ascii.eqb_neq in Hn. now rewrite Hn.
Qed.

Lemma HasPrefix_empty (d : ascii) (p : string) :
  HasPrefix "" (String d p) = false.
Proof. reflexivity. Qed.

Lemma HasPrefix_app (p r : string) : HasPrefix (p ++ r) p = true.
Proof.
  induction p as [|c p IH]; simpl.
  - apply HasPrefix_nil.
  - now rewrite HasPrefix_cons, Ascii.eqb_refl, IH.
Qed.

Lemma HasPrefix_inv (s p : string) :
  HasPrefix s p = true -> s = p ++ drop (String.length p) s.
Proof.
  revert s; induction p as [|d p IH]; intros s H; simpl.
  - now destruct s.
  - destruct s as [|c s]; [discriminate|].
    rewrite HasPrefix_cons in H. apply andb_true_iff in H as [Hc Hp].
    apply Ascii.eqb_eq in Hc. subst d. simpl. f_equal. now apply IH.
Qed.

(** A prefix test only looks at as many bytes as the prefix has. *)
Lemma HasPrefix_app_l (s r p : string) :
  HasPrefix s p = true -> HasPrefix (s ++ r) p = true.
Proof.
  intros H. rewrite (HasPrefix_inv _ _ H), app_assoc. apply HasPrefix_app.
Qed.

Lemma HasPrefix_app_false (s r p : string) :
  HasPrefix (s ++ r) p = false -> HasPrefix s p = false.
Proof.
  intros H. destruct (HasPrefix s p) eqn:E; [|reflexivity].
  now rewrite (HasPrefix_app_l _ r _ E) in H.
Qed.

(** *** Substrings *)

Lemma Contains_cons (c : ascii) (s sub : string) :
  Contains (String c s) sub = HasPrefix (String c s) sub || Contains s sub.
Proof. reflexivity. Qed.

Lemma Contains_nil (s : string) : Contains s "" = true.
Proof. destruct s; unfold Contains; fold Contains; now rewrite HasPrefix_nil. Qed.

Lemma Contains_app_r (a s sub : string) :
  Contains (a ++ s) sub = false -> Contains s sub = false.
Proof.
  induction a as [|c a IH]; simpl; [auto|].
  intros H. apply orb_false_iff in H as [_ H]. auto.
Qed.

Lemma Contains_app_l (s b sub : string) :
  Contains (s ++ b) sub = false -> Contains s sub = false.
Proof.
  induction s as [|c s IH]; intros H.
  - destruct sub as [|d sub]; [|reflexivity].
    simpl in H. rewrite Contains_nil in H. discriminate.
  - simpl in H. apply orb_false_iff in H as [H1 H2].
    rewrite Contains_cons. apply orb_false_iff; split.
    + apply (HasPrefix_app_false (String c s) b sub H1).
    + auto.
Qed.

Lemma Contains_middle (a s b sub : string) :
  Contains (a ++ s ++ b) sub = false -> Contains s sub = false.
Proof. intros H. apply Contains_app_r in H. now apply Contains_app_l in H. Qed.

End StringFacts.

(** ** White-space trimming *)

Section Trimming.

Variable width : string -> nat.
Hypothesis width_nil : width "" = 0.

Lemma stripWhile_suffix (fuel : nat) (s : string) :
  exists a, s = a ++ stripWhile width fuel s.
Proof.
  revert s; induction fuel as [|fuel IH]; intros s; cbn [stripWhile].
  - now exists "".
  - destruct (width s) as [|n] eqn:E.
    + now exists "".
    + destruct (IH (drop (S n) s)) as [a Ha].
      exists (take (S n) s ++ a).
      now rewrite app_assoc, <- Ha, take_drop.
Qed.

Lemma stripWhile_fixed (fuel : nat) (s : string) :
  width s = 0 -> stripWhile width fuel s = s.
Proof. intros H. destruct fuel; simpl; [reflexivity|]. now rewrite H. Qed.

(** The fuel, the length of the string, is enough: the loop stops because
    no white space is left. *)
Lemma stripWhile_done (fuel : nat) (s : string) :
  String.length s <= fuel -> width (stripWhile width fuel s) = 0.
Proof.
  revert s; induction fuel as [|fuel IH]; intros s Hl; cbn [stripWhile].
  - destruct s; [exact width_nil | simpl in Hl; lia].
  - destruct (width s) as [|n] eqn:E; [exact E|].
    apply IH. destruct s as [|c t].
    + rewrite width_nil in E. discriminate.
    + simpl in *. pose proof (length_drop_le n t). lia.
Qed.

Lemma stripWhile_idem (s : string) :
  let t := stripWhile width (String.length s) s in
  stripWhile width (String.length t) t = t.
Proof.
  intros t. apply stripWhile_fixed. unfold t. now apply stripWhile_done.
Qed.

End Trimming.

Lemma TrimLeftSpace_suffix (s : string) : exists a, s = a ++ TrimLeftSpace s.
Proof. apply stripWhile_suffix. Qed.

Lemma TrimLeftSpace_head (s : string) : spaceWidth (TrimLeftSpace s) = 0.
Proof. apply stripWhile_done; [reflexivity | lia]. Qed.

Lemma TrimLeftSpace_fixed (s : string) :
  spaceWidth s = 0 -> TrimLeftSpace s = s.
Proof. apply stripWhile_fixed. Qed.

Lemma TrimRightSpace_prefix (s : string) : exists b, s = TrimRightSpace s ++ b.
Proof.
  unfold TrimRightSpace.
  destruct (stripWhile_suffix spaceWidthRev (String.length s) (srev s)) as [a Ha].
  exists (srev a).
  rewrite <- srev_app, <- Ha. now rewrite srev_involutive.
Qed.

Lemma TrimRightSpace_idem (s : string) :
  TrimRightSpace (TrimRightSpace s) = TrimRightSpace s.
Proof.
  unfold TrimRightSpace. rewrite srev_involutive, length_srev.
  f_equal. apply stripWhile_fixed.
  apply stripWhile_done; [reflexivity|]. rewrite length_srev. lia.
Qed.

(** Whether a string starts with white space is decided by its first
    rune: cutting the string further on does not make it start with one. *)
Lemma spaceWidth_prefix (v b : string) :
  spaceWidth (v ++ b) = 0 -> spaceWidth v = 0.
Proof.
  destruct v as [|c0 [|c1 [|c2 v]]]; simpl; try reflexivity.
  - destruct (asciiSpace c0); [discriminate | reflexivity].
  - destruct (asciiSpace c0); [discriminate|].
    destruct (byte c0 =? 194)%N; [auto | reflexivity].
  - auto.
Qed.

Lemma TrimSpace_idem (s : string) : TrimSpace (TrimSpace s) = TrimSpace s.
Proof.
  unfold TrimSpace.
  destruct (TrimRightSpace_prefix (TrimLeftSpace s)) as [b Hb].
  rewrite (TrimLeftSpace_fixed (TrimRightSpace (TrimLeftSpace s))).
  - apply TrimRightSpace_idem.
  - apply (spaceWidth_prefix _ b). rewrite <- Hb. apply TrimLeftSpace_head.
Qed.

Lemma TrimSpace_middle (s : string) : exists a b, s = a ++ TrimSpace s ++ b.
Proof.
  unfold TrimSpace.
  destruct (TrimLeftSpace_suffix s) as [a Ha].
  destruct (TrimRightSpace_prefix (TrimLeftSpace s)) as [b Hb].
  exists a, b. now rewrite <- Hb.
Qed.

(** ** Collapsing blank lines *)

Lemma ReplaceAll_same (s old : string) : ReplaceAll s old old = s.
Proof. unfold ReplaceAll. now rewrite String.eqb_refl. Qed.

Lemma HasPrefix_split (s p : string) :
  HasPrefix s p = true ->
  exists r, s = p ++ r /\ drop (String.length p) s = r.
Proof.
  intros H. exists (drop (String.length p) s). split; [|reflexivity].
  now apply HasPrefix_inv.
Qed.

Lemma replaceFrom_le (fuel : nat) (s : string) :
  String.length (replaceFrom fuel s (nl ++ nl ++ nl) (nl ++ nl)) <= String.length s.
Proof.
  revert s; induction fuel as [|fuel IH]; intros s; cbn [replaceFrom]; [lia|].
  destruct (HasPrefix s (nl ++ nl ++ nl)) eqn:E.
  - apply HasPrefix_split in E as (r & -> & ->).
    specialize (IH r). rewrite !length_app. simpl in *. lia.
  - destruct s as [|c t]; [simpl; lia|]. specialize (IH t). simpl in *. lia.
Qed.

Lemma replaceFrom_lt (fuel : nat) (s : string) :
  String.length s < fuel ->
  Contains s (nl ++ nl ++ nl) = true ->
  String.length (replaceFrom fuel s (nl ++ nl ++ nl) (nl ++ nl)) < String.length s.
Proof.
  revert s; induction fuel as [|fuel IH]; intros s Hf Hc; [lia|].
  cbn [replaceFrom].
  destruct (HasPrefix s (nl ++ nl ++ nl)) eqn:E.
  - apply HasPrefix_split in E as (r & -> & ->).
    pose proof (replaceFrom_le fuel r) as Hle.
    rewrite !length_app. simpl in *. lia.
  - destruct s as [|c t]; [discriminate|].
    rewrite Contains_cons, E in Hc. simpl in Hc, Hf.
    assert (Ht : String.length t < fuel) by lia.
    specialize (IH t Ht Hc). simpl in *. lia.
Qed.

Lemma ReplaceAll_shrinks (s : string) :
  Contains s (nl ++ nl ++ nl) = true ->
  String.length (ReplaceAll s (nl ++ nl ++ nl) (nl ++ nl)) < String.length s.
Proof.
  intros H. unfold ReplaceAll.
  change ((nl ++ nl ++ nl =? nl ++ nl) || (nl ++ nl ++ nl =? "")) with false.
  cbv iota. apply replaceFrom_lt; [lia | exact H].
Qed.

(** The loop runs until no three consecutive line feeds are left: the
    fuel it is given is enough. *)
Lemma collapseBlankLines_done (fuel : nat) (s : string) :
  String.length s <= fuel ->
  Contains (collapseBlankLines fuel s) (nl ++ nl ++ nl) = false.
Proof.
  revert s; induction fuel as [|fuel IH]; intros s Hl; cbn [collapseBlankLines].
  - destruct s; [reflexivity | simpl in Hl; lia].
  - destruct (Contains s (nl ++ nl ++ nl)) eqn:E; [|exact E].
    apply IH. pose proof (ReplaceAll_shrinks s E). lia.
Qed.

Lemma collapseBlankLines_fixed (fuel : nat) (s : string) :
  Contains s (nl ++ nl ++ nl) = false -> collapseBlankLines fuel s = s.
Proof. intros H. destruct fuel; cbn [collapseBlankLines]; [|rewrite H]; reflexivity. Qed.

(** ** Lines *)

Lemma Split_nonempty (s : string) : Split s LF <> [].
Proof.
  destruct s as [|c t]; simpl; [discriminate|].
  destruct (Ascii.eqb c LF); [discriminate|].
  destruct (Split t LF); discriminate.
Qed.

Lemma Split_cons_shape (c : ascii) (t : string) :
  Ascii.eqb c LF = false ->
  exists l ls, Split t LF = l :: ls /\ Split (String c t) LF = String c l :: ls.
Proof.
  intros Hc. simpl. rewrite Hc.
  destruct (Split t LF) as [|l ls] eqn:E.
  - now apply Split_nonempty in E.
  - now exists l, ls.
Qed.

Lemma Join_Split (s : string) : Join (Split s LF) nl = s.
Proof.
  unfold Join. induction s as [|c t IH]; [reflexivity|].
  destruct (Ascii.eqb c LF) eqn:Hc.
  - apply Ascii.eqb_eq in Hc. subst c. cbn [Split]. rewrite Ascii.eqb_refl.
    destruct (Split t LF) as [|l ls] eqn:E; [now apply Split_nonempty in E|].
    change (String.concat nl ("" :: l :: ls))
      with ("" ++ nl ++ String.concat nl (l :: ls)).
    rewrite IH. reflexivity.
  - destruct (Split_cons_shape c t Hc) as (l & ls & E1 & E2).
    rewrite E2. rewrite E1 in IH.
    destruct ls as [|y ls]; simpl in *; now rewrite IH.
Qed.

Lemma Split_noLF (s : string) : Forall (fun l => noLF l = true) (Split s LF).
Proof.
  induction s as [|c t IH]; [repeat constructor|].
  destruct (Ascii.eqb c LF) eqn:Hc.
  - simpl. rewrite Hc. now constructor.
  - destruct (Split_cons_shape c t Hc) as (l & ls & E1 & E2).
    rewrite E2. rewrite E1 in IH. inversion IH; subst.
    constructor; [|assumption]. simpl. now rewrite Hc.
Qed.

Lemma Split_line_app (l r : string) :
  noLF l = true -> Split (l ++ nl ++ r) LF = l :: Split r LF.
Proof.
  induction l as [|c l IH]; intros H.
  - reflexivity.
  - simpl in H. apply andb_true_iff in H as [Hc Hl].
    apply negb_true_iff in Hc.
    cbn [append Split]. rewrite Hc.
    change (l ++ String LF r) with (l ++ nl ++ r).
    now rewrite (IH Hl).
Qed.

Lemma Split_line (l : string) : noLF l = true -> Split l LF = [l].
Proof.
  induction l as [|c l IH]; intros H; [reflexivity|].
  simpl in H. apply andb_true_iff in H as [Hc Hl].
  apply negb_true_iff in Hc. simpl. now rewrite Hc, (IH Hl).
Qed.

Lemma Split_Join (ls : list string) :
  ls <> [] -> Forall (fun l => noLF l = true) ls ->
  Split (Join ls nl) LF = ls.
Proof.
  unfold Join. induction ls as [|x ls IH]; intros Hne Hall; [contradiction|].
  inversion Hall as [|? ? Hx Hls]; subst.
  destruct ls as [|y ls].
  - simpl. now apply Split_line.
  - cbn [String.concat]. rewrite (Split_line_app _ _ Hx).
    f_equal. apply IH; [discriminate | assumption].
Qed.

(** Three line feeds in a row, read off the lines. *)
Lemma HasPrefix_two_LF (t : string) :
  HasPrefix t (nl ++ nl) = startsWithTwoEmpty (Split t LF).
Proof.
  destruct t as [|c1 [|c2 t2]].
  - reflexivity.
  - unfold nl; cbn [append]. rewrite !HasPrefix_cons, HasPrefix_empty, andb_false_r.
    simpl. destruct (Ascii.eqb c1 LF); reflexivity.
  - unfold nl; cbn [append]. rewrite !HasPrefix_cons, HasPrefix_nil, andb_true_r.
    rewrite (Ascii.eqb_sym LF c1), (Ascii.eqb_sym LF c2).
    destruct (Ascii.eqb c1 LF) eqn:H1.
    + cbn [Split]. rewrite H1.
      destruct (Ascii.eqb c2 LF) eqn:H2.
      * destruct (Split t2 LF) eqn:E; [now apply Split_nonempty in E|reflexivity].
      * destruct (Split t2 LF) as [|l [|? ?]]; reflexivity.
    + destruct (Split_cons_shape c1 (String c2 t2) H1) as (l & ls & _ & ->).
      destruct ls as [|? [|? ?]]; reflexivity.
Qed.

Lemma Contains_three_LF (s : string) :
  Contains s (nl ++ nl ++ nl) = hasGap (Split s LF).
Proof.
  induction s as [|c t IH]; [reflexivity|].
  rewrite Contains_cons, IH.
  destruct (Ascii.eqb c LF) eqn:Hc.
  - cbn [Split]. rewrite Hc. cbn [hasGap]. f_equal.
    apply Ascii.eqb_eq in Hc. subst c.
    unfold nl; cbn [append]. rewrite HasPrefix_cons, Ascii.eqb_refl.
    apply HasPrefix_two_LF.
  - destruct (Split_cons_shape c t Hc) as (l & ls & -> & ->).
    unfold nl; cbn [append]. rewrite HasPrefix_cons, Ascii.eqb_sym, Hc. reflexivity.
Qed.

Lemma hasGap_map (f : string -> string) (l : list string) :
  (forall x, isEmpty (f x) = isEmpty x) -> hasGap (map f l) = hasGap l.
Proof.
  intros Hf. induction l as [|x l IH]; [reflexivity|].
  cbn [map hasGap]. rewrite IH. f_equal.
  destruct l as [|a [|b [|c l]]]; try reflexivity.
  cbn [map startsWithTwoEmpty]. now rewrite !Hf.
Qed.

(** Lines that begin with the bullet ["* "], read off the text. *)
Lemma HasPrefix_first_line (s : string) :
  HasPrefix (hd "" (Split s LF)) "* " = HasPrefix s "* ".
Proof.
  destruct s as [|c [|c1 t]].
  - reflexivity.
  - simpl. destruct (Ascii.eqb c LF); cbn [hd];
      rewrite ?HasPrefix_cons, ?HasPrefix_empty, ?andb_false_r; reflexivity.
  - destruct (Ascii.eqb c LF) eqn:Hc.
    + cbn [Split]. rewrite Hc. cbn [hd].
      apply Ascii.eqb_eq in Hc. subst c. reflexivity.
    + destruct (Split_cons_shape c (String c1 t) Hc) as (l & ls & E1 & ->).
      cbn [hd]. rewrite !HasPrefix_cons. f_equal.
      destruct (Ascii.eqb c1 LF) eqn:Hc1.
      * cbn [Split] in E1. rewrite Hc1 in E1. injection E1 as <- _.
        apply Ascii.eqb_eq in Hc1. subst c1. reflexivity.
      * destruct (Split_cons_shape c1 t Hc1) as (l' & ls' & _ & E2).
        rewrite E2 in E1. injection E1 as <- _.
        rewrite !HasPrefix_cons, !HasPrefix_nil. reflexivity.
Qed.

Lemma Contains_bullet_line (s : string) :
  Contains s (nl ++ "* ")
  = existsb (fun l => HasPrefix l "* ") (tl (Split s LF)).
Proof.
  induction s as [|c t IH]; [reflexivity|].
  rewrite Contains_cons, IH.
  destruct (Ascii.eqb c LF) eqn:Hc.
  - cbn [Split]. rewrite Hc. cbn [tl].
    apply Ascii.eqb_eq in Hc. subst c.
    unfold nl; cbn [append]. rewrite HasPrefix_cons, Ascii.eqb_refl. cbn [andb].
    rewrite <- HasPrefix_first_line.
    destruct (Split t LF) as [|l ls] eqn:E; [now apply Split_nonempty in E|].
    reflexivity.
  - destruct (Split_cons_shape c t Hc) as (l & ls & -> & ->).
    unfold nl; cbn [tl append]. rewrite HasPrefix_cons, Ascii.eqb_sym, Hc. reflexivity.
Qed.

(** A text none of whose lines begins with ["* "]. *)
Lemma no_bullet_lines (s : string) :
  HasPrefix s "* " = false ->
  Contains s (nl ++ "* ") = false ->
  Forall (fun l => HasPrefix l "* " = false) (Split s LF).
Proof.
  intros H1 H2.
  rewrite <- HasPrefix_first_line in H1. rewrite Contains_bullet_line in H2.
  destruct (Split s LF) as [|l ls]; [constructor|].
  cbn [hd tl] in *. constructor; [exact H1|].
  apply Forall_forall. intros x Hx.
  destruct (HasPrefix x "* ") eqn:E; [|reflexivity].
  assert (existsb (fun l => HasPrefix l "* ") ls = true)
    by (apply existsb_exists; now exists x).
  congruence.
Qed.

Lemma bullet_lines_Contains (s : string) :
  Forall (fun l => HasPrefix l "* " = false) (Split s LF) ->
  Contains s (nl ++ "* ") = false.
Proof.
  intros H. rewrite Contains_bullet_line.
  destruct (Split s LF) as [|l ls]; [reflexivity|].
  inversion H as [|? ? _ Hls]; subst. cbn [tl].
  destruct (existsb _ ls) eqn:E; [|reflexivity].
  apply existsb_exists in E as (x & Hx & Hp).
  rewrite Forall_forall in Hls. rewrite (Hls x Hx) in Hp. discriminate.
Qed.

(** ** Bullets *)

Lemma noLF_drop (n : nat) (s : string) : noLF s = true -> noLF (drop n s) = true.
Proof.
  revert s; induction n as [|n IH]; intros [|c t] H; simpl; auto.
  simpl in H. apply andb_true_iff in H as [_ H]. auto.
Qed.

Lemma TrimPrefix_noLF (s p : string) :
  noLF s = true -> noLF (TrimPrefix s p) = true.
Proof.
  intros H. unfold TrimPrefix. destruct (HasPrefix s p); [|exact H].
  now apply noLF_drop.
Qed.

Lemma normalizeBullet_noLF (l : string) :
  noLF l = true -> noLF (normalizeBullet l) = true.
Proof.
  intros H. unfold normalizeBullet.
  destruct (HasPrefix l "* " || HasPrefix l "- "); [|exact H].
  change (noLF (TrimPrefix (TrimPrefix l "* ") "- ") = true).
  now apply TrimPrefix_noLF, TrimPrefix_noLF.
Qed.

Lemma normalizeBullet_isEmpty (l : string) :
  isEmpty (normalizeBullet l) = isEmpty l.
Proof.
  unfold normalizeBullet. destruct l as [|c l]; [reflexivity|].
  destruct (HasPrefix (String c l) "* " || HasPrefix (String c l) "- ");
    reflexivity.
Qed.

(** A normalised line never begins with ["* "] ... *)
Lemma normalizeBullet_no_star (l : string) :
  HasPrefix (normalizeBullet l) "* " = false.
Proof.
  unfold normalizeBullet.
  destruct (HasPrefix l "* ") eqn:E; cbn [orb]; [reflexivity|].
  destruct (HasPrefix l "- "); [reflexivity | exact E].
Qed.

(** ... and a line that does not is left as it is. *)
Lemma normalizeBullet_fixed (l : string) :
  HasPrefix l "* " = false -> normalizeBullet l = l.
Proof.
  intros H. unfold normalizeBullet. rewrite H. cbn [orb].
  destruct (HasPrefix l "- ") eqn:E; [|reflexivity].
  unfold TrimPrefix at 2. rewrite H. unfold TrimPrefix. rewrite E.
  symmetry. now apply HasPrefix_inv.
Qed.

Lemma map_normalizeBullet_fixed (ls : list string) :
  Forall (fun l => HasPrefix l "* " = false) ls -> map normalizeBullet ls = ls.
Proof.
  induction 1 as [|l ls Hl _ IH]; [reflexivity|].
  cbn [map]. now rewrite IH, (normalizeBullet_fixed l Hl).
Qed.

(** ** [cleanMarkdown] *)

Lemma cleanMarkdown_unfold (s : string) :
  cleanMarkdown s = TrimSpace (normalizedLines s).
Proof. unfold cleanMarkdown, normalizedLines. now rewrite !ReplaceAll_same. Qed.

Lemma Split_normalizedLines (s : string) :
  Split (normalizedLines s) LF
  = map normalizeBullet
      (Split (collapseBlankLines (String.length s) s) LF).
Proof.
  unfold normalizedLines. apply Split_Join.
  - intros E. apply map_eq_nil in E. now apply Split_nonempty in E.
  - apply Forall_forall. intros x Hx. apply in_map_iff in Hx as (l & <- & Hl).
    apply normalizeBullet_noLF.
    pose proof (Split_noLF (collapseBlankLines (String.length s) s)) as Hall.
    rewrite Forall_forall in Hall. now apply Hall.
Qed.

Lemma normalizedLines_no_gap (s : string) :
  Contains (normalizedLines s) (nl ++ nl ++ nl) = false.
Proof.
  rewrite Contains_three_LF, Split_normalizedLines.
  rewrite (hasGap_map _ _ normalizeBullet_isEmpty), <- Contains_three_LF.
  now apply collapseBlankLines_done.
Qed.

Lemma normalizedLines_no_bullet (s : string) :
  Contains (normalizedLines s) (nl ++ "* ") = false.
Proof.
  apply bullet_lines_Contains. rewrite Split_normalizedLines.
  apply Forall_forall. intros x Hx. apply in_map_iff in Hx as (l & <- & _).
  apply normalizeBullet_no_star.
Qed.

(** A text without three line feeds in a row, none of whose lines begins
    with ["* "], is only trimmed. *)
Lemma cleanMarkdown_normal (t : string) :
  Contains t (nl ++ nl ++ nl) = false ->
  Contains t (nl ++ "* ") = false ->
  HasPrefix t "* " = false ->
  cleanMarkdown t = TrimSpace t.
Proof.
  intros H3 Hb Hp. rewrite cleanMarkdown_unfold. unfold normalizedLines.
  rewrite (collapseBlankLines_fixed _ _ H3).
  rewrite (map_normalizeBullet_fixed _ (no_bullet_lines t Hp Hb)).
  now rewrite Join_Split.
Qed.

Lemma cleanMarkdown_clean (s : string) :
  Contains (cleanMarkdown s) (nl ++ nl ++ nl) = false
  /\ Contains (cleanMarkdown s) (nl ++ "* ") = false.
Proof.
  rewrite cleanMarkdown_unfold.
  destruct (TrimSpace_middle (normalizedLines s)) as (a & b & E).
  split.
  - apply (Contains_middle a _ b). rewrite <- E. apply normalizedLines_no_gap.
  - apply (Contains_middle a _ b). rewrite <- E. apply normalizedLines_no_bullet.
Qed.

(** C4, as the spec states it, fails: trimming comes last, and can bring
    a bullet ["* "] to the head of the text, which a second pass then
    rewrites. *)
Lemma cleanMarkdown_not_idempotent :
  cleanMarkdown (cleanMarkdown "  * x") <> cleanMarkdown "  * x".
Proof. vm_compute. discriminate. Qed.

Lemma cleanMarkdown_twice (s : string) :
  HasPrefix (cleanMarkdown s) "* " = false ->
  cleanMarkdown (cleanMarkdown s) = cleanMarkdown s.
Proof.
  intros Hp. destruct (cleanMarkdown_clean s) as [H3 Hb].
  rewrite (cleanMarkdown_normal _ H3 Hb Hp).
  rewrite cleanMarkdown_unfold. apply TrimSpace_idem.
Qed.

(** C4 (amended): normalising twice equals normalising once for every
    text whose normalisation does not begin with the bullet marker
    ["* "]. *)
Theorem cleanMarkdown_idempotent (s : string) :
  HasPrefix (cleanMarkdown s) "* " = false ->
  cleanMarkdown (cleanMarkdown s) = cleanMarkdown s.
Proof. apply cleanMarkdown_twice. Qed.

Lemma cleanMarkdown_idempotent_witness :
  HasPrefix (cleanMarkdown ("  a" ++ nl ++ nl ++ nl ++ nl ++ "* b " ++ nl)) "* "
  = false
  /\ cleanMarkdown (cleanMarkdown ("  a" ++ nl ++ nl ++ nl ++ nl ++ "* b " ++ nl))
     = cleanMarkdown ("  a" ++ nl ++ nl ++ nl ++ nl ++ "* b " ++ nl).
Proof.
  split; [reflexivity|].
  apply (cleanMarkdown_idempotent ("  a" ++ nl ++ nl ++ nl ++ nl ++ "* b " ++ nl)).
  reflexivity.
Defined.

(** The condition is exact: when the normalisation begins with ["* "],
    the second pass turns that bullet into ["- "]. *)
Lemma cleanMarkdown_bullet_head (t : string) :
  Contains t (nl ++ nl ++ nl) = false ->
  HasPrefix t "* " = true ->
  cleanMarkdown t <> t.
Proof.
  intros H3 Hp E. pose proof Hp as Ht. rewrite cleanMarkdown_unfold in E.
  unfold normalizedLines in E. rewrite (collapseBlankLines_fixed _ _ H3) in E.
  rewrite <- HasPrefix_first_line in Hp.
  destruct (Split t LF) as [|l ls] eqn:El; [now apply Split_nonempty in El|].
  cbn [hd map] in *.
  assert (Hj : exists y, Join (normalizeBullet l :: map normalizeBullet ls) nl
                         = "- " ++ y).
  { unfold normalizeBullet at 1. rewrite Hp. cbn [orb]. unfold Join.
    destruct (map normalizeBullet ls) as [|z zs]; cbn [String.concat].
    - eexists; reflexivity.
    - rewrite app_assoc. eexists; reflexivity. }
  destruct Hj as [y Hy]. rewrite Hy in E.
  unfold TrimSpace in E.
  rewrite (TrimLeftSpace_fixed ("- " ++ y)) in E by (destruct y; reflexivity).
  destruct (TrimRightSpace_prefix ("- " ++ y)) as [b Hb].
  rewrite E in Hb.
  apply HasPrefix_split in Ht as (r & -> & _). discriminate Hb.
Qed.

Corollary cleanMarkdown_twice_iff (s : string) :
  cleanMarkdown (cleanMarkdown s) = cleanMarkdown s
  <-> HasPrefix (cleanMarkdown s) "* " = false.
Proof.
  split; [|apply cleanMarkdown_twice].
  intros E. destruct (HasPrefix (cleanMarkdown s) "* ") eqn:Hp; [|reflexivity].
  destruct (cleanMarkdown_clean s) as [H3 _].
  now destruct (cleanMarkdown_bullet_head _ H3 Hp).
Qed.

(** ** [ensureProtocol] *)

Lemma ensureProtocol_adds (url : string) :
  HasPrefix url "http://" = false -> HasPrefix url "https://" = false ->
  ensureProtocol url = "http://" ++ url.
Proof. intros H1 H2. unfold ensureProtocol. now rewrite H1, H2. Qed.

Lemma ensureProtocol_keeps (url : string) :
  HasPrefix url "http://" = true \/ HasPrefix url "https://" = true ->
  ensureProtocol url = url.
Proof.
  intros [H|H]; unfold ensureProtocol; rewrite H; cbn [negb andb];
    [reflexivity | now rewrite andb_false_r].
Qed.

(** ** [parseArgs] *)

Ltac split_parse :=
  repeat match goal with
         | |- context [if ?b then _ else _] => destruct b eqn:?
         | |- context [match ?l with [] => _ | _ :: _ => _ end] => destruct l
         | |- context [match Atoi ?v with Some _ => _ | None => _ end] =>
             destruct (Atoi v) eqn:?
         end.

(** What the loop does to the truncation budget: it leaves it as it
    was, or sets it to a value of the argument list that [Atoi] reads as
    a number greater than zero; and it leaves the process only through
    [--help]. *)
Lemma parseLoop_budget (n : nat) :
  forall (args : list string) (config : Config),
    List.length args <= n ->
    match parseLoop config args with
    | Some config' =>
        TruncateAfter config' = TruncateAfter config
        \/ exists v, In v args /\ Atoi v = Some (TruncateAfter config')
                     /\ (0 < TruncateAfter config')%Z
    | None => In "--help" args
    end.
Proof.
  induction n as [|n IH]; intros args config Hl.
  - destruct args; [now left | simpl in Hl; lia].
  - destruct args as [|arg rest]; [now left|].
    cbn [parseLoop].
    assert (Hstep : forall (config2 : Config) (rest2 : list string),
               List.length rest2 <= n ->
               (forall v, In v rest2 -> In v (arg :: rest)) ->
               (TruncateAfter config2 = TruncateAfter config
                \/ exists v, In v (arg :: rest)
                             /\ Atoi v = Some (TruncateAfter config2)
                             /\ (0 < TruncateAfter config2)%Z) ->
               match parseLoop config2 rest2 with
               | Some config' =>
                   TruncateAfter config' = TruncateAfter config
                   \/ exists v, In v (arg :: rest)
                                /\ Atoi v = Some (TruncateAfter config')
                                /\ (0 < TruncateAfter config')%Z
               | None => In "--help" (arg :: rest)
               end).
    { intros config2 rest2 Hl2 Hin H2. specialize (IH rest2 config2 Hl2).
      destruct (parseLoop config2 rest2) as [config'|].
      - destruct IH as [E | (v & Hv & Ha & Hp)].
        + rewrite E. exact H2.
        + right. exists v. auto.
      - auto. }
    simpl in Hl.
    split_parse;
      try (apply Hstep; [simpl in *; lia | simpl; tauto | now left]);
      try (now left).
    + apply String.eqb_eq in Heqb. subst arg. now left.
    + apply Hstep; [simpl in *; lia | simpl; tauto |].
      right. exists s. cbn [set_TruncateAfter TruncateAfter].
      repeat split; [simpl; tauto | assumption | lia].
Qed.

(** A value that is not a number, or not greater than zero, changes
    nothing: the loop goes on with the configuration it had. *)
Lemma parseLoop_ignores_invalid (config : Config) (v : string) (rest : list string) :
  (forall n, Atoi v = Some n -> (n <= 0)%Z) ->
  parseLoop config ("--truncate-after" :: v :: rest) = parseLoop config rest.
Proof.
  intros H. cbn [parseLoop]. cbn.
  destruct (Atoi v) as [n|] eqn:E; [|reflexivity].
  specialize (H n eq_refl). destruct (n >? 0)%Z eqn:G; [lia | reflexivity].
Qed.




Lemma parseArgs_invalid_keeps_default (url v : string) :
  (forall n, Atoi v = Some n -> (n <= 0)%Z) ->
  HasPrefix url "--" = false ->
  option_map TruncateAfter (parseArgs [url; "--truncate-after"; v])
  = Some 100000%Z.
Proof.
  intros H Hu. unfold parseArgs.
  assert (E : parseLoop initialConfig [url; "--truncate-after"; v]
              = parseLoop (set_URL initialConfig url) ["--truncate-after"; v]).
  { cbn [parseLoop].
    repeat match goal with
           | |- context [(url =? ?x)] =>
               let Hx := fresh in
               destruct (url =? x) eqn:Hx;
               [apply String.eqb_eq in Hx; subst url; discriminate Hu|]
           end.
    cbn. now rewrite Hu. }
  rewrite E, parseLoop_ignores_invalid by assumption. reflexivity.
Qed.

(** ** Truncation *)

(** What the code does when the normalised text is longer than a
    non-negative budget: it keeps the first [budget] bytes of the
    normalised text, and the notice gives the budget and the length of
    the text as it was before normalisation. *)
Lemma truncate_cut (markdown text : string) (budget : Z) :
  (0 <= budget < len markdown)%Z ->
  truncate markdown text budget
  = Some (take (Z.to_nat budget) markdown
          ++ nl ++ nl ++ "... (output truncated after " ++ Itoa budget
          ++ " chars, full content was " ++ Itoa (len text) ++ " chars)").
Proof.
  intros [H0 H1]. unfold truncate, truncationNotice.
  destruct (len markdown >? budget)%Z eqn:E1; [|lia].
  destruct (budget <? 0)%Z eqn:E2; [lia|]. reflexivity.
Qed.

Lemma truncate_cut_length (markdown text : string) (budget : Z) :
  (0 <= budget < len markdown)%Z ->
  exists out, truncate markdown text budget = Some out
    /\ len out = (budget + len (truncationNotice budget (len text)))%Z.
Proof.
  intros H. eexists. split; [apply truncate_cut; exact H|].
  fold (truncationNotice budget (len text)).
  unfold len in *. rewrite length_app, length_take; lia.
Qed.

Lemma truncate_short (markdown text : string) (budget : Z) :
  (len markdown <= budget)%Z -> truncate markdown text budget = Some markdown.
Proof.
  intros H. unfold truncate. destruct (len markdown >? budget)%Z eqn:E; [lia|].
  reflexivity.
Qed.

(** ** The merged log *)

Section Logs.

Context {X : Externals}.

Lemma fold_appendCaptured (l : list jsval) (acc : list string) :
  fold_left appendCaptured l acc = (acc ++ map capturedLine (objectsOf l))%list.
Proof.
  revert acc; induction l as [|v l IH]; intros acc; cbn [fold_left objectsOf map].
  - now rewrite List.app_nil_r.
  - destruct v; cbn [appendCaptured objectsOf map]; rewrite IH; try reflexivity.
    rewrite <- List.app_assoc. reflexivity.
Qed.

Lemma fold_appendBrowser (l : list LogMessage) (acc : list string) :
  fold_left appendBrowser l acc
  = (acc ++ map browserLine (filter severe l))%list.
Proof.
  revert acc; induction l as [|e l IH]; intros acc; cbn [fold_left filter map].
  - now rewrite List.app_nil_r.
  - rewrite IH. unfold appendBrowser, severe.
    destruct ((ToUpper (Level e) =? "WARNING") || (ToUpper (Level e) =? "WARN")
              || (ToUpper (Level e) =? "ERROR") || (ToUpper (Level e) =? "SEVERE"));
      [|reflexivity].
    cbn [map]. rewrite <- List.app_assoc. reflexivity.
Qed.

Lemma collect_both (capturedLogs : jsval + error)
    (browserLogs : list LogMessage + error) :
  collectBrowser browserLogs (collectCaptured capturedLogs [])
  = (map capturedLine (capturedEntries capturedLogs)
     ++ map browserLine (filter severe (browserEntries browserLogs)))%list.
Proof.
  assert (Hc : collectCaptured capturedLogs []
               = map capturedLine (capturedEntries capturedLogs)).
  { destruct capturedLogs as [[]|]; try reflexivity.
    cbn [collectCaptured capturedEntries]. now rewrite fold_appendCaptured. }
  rewrite Hc. destruct browserLogs as [l|err]; cbn [collectBrowser browserEntries].
  - apply fold_appendBrowser.
  - cbn [filter map]. now rewrite List.app_nil_r.
Qed.

(** The two channels agree on which native entries are kept. *)
Lemma severe_claimedSeverity (e : LogMessage) : severe e = claimedSeverity e.
Proof.
  unfold severe, claimedSeverity, claimedLevel. cbv zeta.
  destruct (ToUpper (Level e) =? "WARN") eqn:E.
  - apply String.eqb_eq in E. rewrite E. reflexivity.
  - now rewrite orb_false_r.
Qed.

(** The instrumented entries are merged as the spec says. *)
Lemma capturedLines_as_claimed (instrumented : list (string * string)) :
  map capturedLine (capturedEntries (inl (capturedArray instrumented)))
  = map (fun e => "[" ++ claimedLevel (fst e) ++ "] " ++ snd e) instrumented.
Proof.
  unfold capturedArray, capturedEntries.
  induction instrumented as [|e l IH]; [reflexivity|].
  cbn [map objectsOf]. now rewrite IH.
Qed.

(** Where the browser's own log holds no entry at level WARN, the code
    merges the two channels as the spec says: the instrumented entries
    first, then the native entries of the three severities, in their
    order, each level upper-cased. *)
Lemma merged_log_as_claimed (instrumented : list (string * string))
    (native : list LogMessage) :
  Forall (fun e => (ToUpper (Level e) =? "WARN") = false) native ->
  collectBrowser (inl native)
    (collectCaptured (inl (capturedArray instrumented)) [])
  = claimedMerge instrumented native.
Proof.
  intros Hn. rewrite collect_both. unfold claimedMerge, browserEntries.
  rewrite capturedLines_as_claimed. f_equal.
  induction Hn as [|e l He _ IH]; [reflexivity|].
  cbn [filter]. rewrite <- severe_claimedSeverity.
  destruct (severe e); [|exact IH].
  cbn [map]. rewrite IH. f_equal.
  unfold browserLine, claimedLevel. now rewrite He.
Qed.

End Logs.

(* ================================================================== *)
(** ** Runs *)

Section Runs.

Context {W : Type} {D : Driver W} {X : Externals}.

Notation "x <- m ;; k" := (bind m (fun x => k))
  (at level 100, m at next level, right associativity).
Notation "m ;; k" := (bind m (fun _ => k))
  (at level 100, right associativity).

(** *** What a computation may call *)

Lemma Emits_ret {R A} P (a : A) : Emits P (ret (W := W) (R := R) a).
Proof. intros w. constructor. Qed.

Lemma Emits_Return {R A} P (r : R) : Emits P (Return (W := W) (A := A) r).
Proof. intros w. constructor. Qed.

Lemma Emits_panic {R A} P msg : Emits P (panic (W := W) (R := R) (A := A) msg).
Proof. intros w. constructor. Qed.

Lemma Emits_call {R A} (P : Event -> Prop) (c : Call A) :
  (forall r, P (Ev c r)) -> Emits P (call (R := R) c).
Proof.
  intros H w. unfold traceOf, call. destruct (handle c w) as [r w'].
  repeat constructor. apply H.
Qed.

Lemma Emits_bind {R A B} P (m : M W R A) (f : A -> M W R B) :
  Emits P m -> (forall a, Emits P (f a)) -> Emits P (bind m f).
Proof.
  intros Hm Hf w. specialize (Hm w). unfold traceOf, bind in *.
  destruct (m w) as [[[a|e] w1] t1]; cbn [snd] in *; [|exact Hm].
  specialize (Hf a w1). destruct (f a w1) as [[o w2] t2]; cbn [snd] in *.
  apply Forall_app. now split.
Qed.

Lemma Emits_fn {R A} P (body : M W A A) : Emits P body -> Emits P (fn (R := R) body).
Proof.
  intros H w. specialize (H w). unfold traceOf, fn in *.
  destruct (body w) as [[[a|[a|msg]] w1] t1]; exact H.
Qed.

Lemma Emits_defer {R A} P (cleanup : Call unit) (body : M W R A) :
  (forall u, P (Ev cleanup u)) -> Emits P body -> Emits P (defer cleanup body).
Proof.
  intros Hc H w. specialize (H w). unfold traceOf, defer in *.
  destruct (body w) as [[o w1] t1]. destruct (handle cleanup w1) as [u w2].
  cbn [snd] in *. apply Forall_app. split; [exact H|]. repeat constructor. apply Hc.
Qed.

Lemma Emits_orReturn {R A} P (r : A + error) (f : error -> R) :
  Emits P (orReturn (W := W) r f).
Proof. destruct r; [apply Emits_ret | apply Emits_Return]. Qed.

Lemma Emits_failIf {R} P (e : option error) (f : error -> R) :
  Emits P (failIf (W := W) e f).
Proof. destruct e; [apply Emits_Return | apply Emits_ret]. Qed.

Lemma Emits_forEach {R A} P (l : list A) (body : A -> M W R unit) :
  (forall x, Emits P (body x)) -> Emits P (forEach l body).
Proof.
  intros H. induction l as [|x l IH]; cbn [forEach].
  - apply Emits_ret.
  - apply Emits_bind; [apply H | intros _; exact IH].
Qed.

Lemma Emits_pollLoop {R S} P
    (condition : S -> M W R (S * (bool * option error))) (budget : nat) (s : S) :
  (forall s, Emits P (condition s)) ->
  (forall u, P (Ev (Sleep DefaultWaitInterval) u)) ->
  (forall x, P (Ev Elapsed x)) ->
  Emits P (pollLoop condition budget s).
Proof.
  intros Hc Hs He. revert s. induction budget as [|n IH]; intros s;
    cbn [pollLoop]; (apply Emits_bind; [apply Hc|]);
    intros [s' [[|] [err|]]]; try apply Emits_ret.
  - apply Emits_bind; [now apply Emits_call | intros; apply Emits_ret].
  - apply Emits_bind; [now apply Emits_call | intros; apply IH].
Qed.

Lemma Emits_WaitWithTimeout {R S} P
    (condition : S -> M W R (S * (bool * option error))) timeout (s : S) :
  (forall s, Emits P (condition s)) ->
  (forall n, P (Ev (PollBudget timeout) n)) ->
  (forall u, P (Ev (Sleep DefaultWaitInterval) u)) ->
  (forall x, P (Ev Elapsed x)) ->
  Emits P (WaitWithTimeout condition timeout s).
Proof.
  intros Hc Hb Hs He. unfold WaitWithTimeout.
  apply Emits_bind; [now apply Emits_call|].
  intros n. now apply Emits_pollLoop.
Qed.

Lemma Emits_weaken {R A} (P Q : Event -> Prop) (m : M W R A) :
  (forall ev, P ev -> Q ev) -> Emits P m -> Emits Q m.
Proof.
  intros H Hm w. specialize (Hm w). eapply Forall_impl; [exact H | exact Hm].
Qed.

(** *** How a computation may leave *)

Lemma Returns_ret {R A} P (a : A) : Returns P (ret (W := W) (R := R) a).
Proof. intros w r H. discriminate. Qed.

Lemma Returns_Return {R A} (P : R -> Prop) (r : R) :
  P r -> Returns P (Return (W := W) (A := A) r).
Proof. intros H w r' E. injection E as <-. exact H. Qed.

Lemma Returns_panic {R A} P msg : Returns P (panic (W := W) (R := R) (A := A) msg).
Proof. intros w r H. discriminate. Qed.

Lemma Returns_call {R A} P (c : Call A) : Returns P (call (R := R) c).
Proof.
  intros w r. unfold outcomeOf, call. destruct (handle c w). discriminate.
Qed.

Lemma Returns_fn {R A} P (body : M W A A) : Returns P (fn (R := R) body).
Proof.
  intros w r. unfold outcomeOf, fn.
  destruct (body w) as [[[a|[a|msg]] w1] t1]; discriminate.
Qed.

Lemma Returns_bind {R A B} P (m : M W R A) (f : A -> M W R B) :
  Returns P m -> (forall a, Returns P (f a)) -> Returns P (bind m f).
Proof.
  intros Hm Hf w r. specialize (Hm w r). unfold outcomeOf, bind in *.
  destruct (m w) as [[[a|e] w1] t1]; cbn [fst] in *.
  - specialize (Hf a w1 r). unfold outcomeOf in Hf.
    destruct (f a w1) as [[o w2] t2]. exact Hf.
  - intros E. injection E as ->. now apply Hm.
Qed.

Lemma Returns_orReturn {R A} (P : R -> Prop) (r : A + error) (f : error -> R) :
  (forall err, P (f err)) -> Returns P (orReturn (W := W) r f).
Proof. intros H. destruct r; [apply Returns_ret | apply Returns_Return, H]. Qed.

Lemma Returns_failIf {R} (P : R -> Prop) (e : option error) (f : error -> R) :
  (forall err, P (f err)) -> Returns P (failIf (W := W) e f).
Proof. intros H. destruct e; [apply Returns_Return, H | apply Returns_ret]. Qed.

Lemma Returns_pollLoop {R S} P
    (condition : S -> M W R (S * (bool * option error))) (budget : nat) (s : S) :
  (forall s, Returns P (condition s)) ->
  Returns P (pollLoop condition budget s).
Proof.
  intros Hc. revert s. induction budget as [|n IH]; intros s;
    cbn [pollLoop]; (apply Returns_bind; [apply Hc|]);
    intros [s' [[|] [err|]]]; try apply Returns_ret.
  - apply Returns_bind; [apply Returns_call | intros; apply Returns_ret].
  - apply Returns_bind; [apply Returns_call | intros; apply IH].
Qed.

Lemma Returns_WaitWithTimeout {R S} P
    (condition : S -> M W R (S * (bool * option error))) timeout (s : S) :
  (forall s, Returns P (condition s)) ->
  Returns P (WaitWithTimeout condition timeout s).
Proof.
  intros Hc. unfold WaitWithTimeout.
  apply Returns_bind; [apply Returns_call|].
  intros n. now apply Returns_pollLoop.
Qed.

(** *** Taking a run apart *)

Lemma run_bind_Val {R A B} (m : M W R A) (f : A -> M W R B) w a w1 t1 :
  m w = (Val a, w1, t1) ->
  bind m f w = (outcomeOf (f a w1), worldOf (f a w1), (t1 ++ traceOf (f a w1))%list).
Proof.
  intros E. unfold bind. rewrite E. unfold outcomeOf, worldOf, traceOf.
  now destruct (f a w1) as [[o w2] t2].
Qed.

Lemma run_bind_Stop {R A B} (m : M W R A) (f : A -> M W R B) w e w1 t1 :
  m w = (Stop e, w1, t1) -> bind m f w = (Stop e, w1, t1).
Proof. intros E. unfold bind. now rewrite E. Qed.

Lemma run_eta {R A} (x : Outcome R A * W * list Event) :
  x = (outcomeOf x, worldOf x, traceOf x).
Proof. now destruct x as [[o w] t]. Qed.

(** A run of [bind m f] that returns [r] is a returning run of [m], or a
    run of [m] to a value followed by a returning run of [f]. *)
Lemma run_bind_Returned {R A B} (m : M W R A) (f : A -> M W R B) w r :
  outcomeOf (bind m f w) = Stop (Returned r) ->
  (outcomeOf (m w) = Stop (Returned r) /\ traceOf (bind m f w) = traceOf (m w))
  \/ exists a,
       outcomeOf (m w) = Val a
       /\ outcomeOf (f a (worldOf (m w))) = Stop (Returned r)
       /\ traceOf (bind m f w)
          = (traceOf (m w) ++ traceOf (f a (worldOf (m w))))%list.
Proof.
  unfold outcomeOf, worldOf, traceOf, bind.
  destruct (m w) as [[[a|e] w1] t1]; cbn [fst snd].
  - destruct (f a w1) as [[o w2] t2] eqn:E; cbn [fst snd].
    intros ->. right. exists a. rewrite E. auto.
  - intros E. injection E as ->. now left.
Qed.

End Runs.

(** *** The equations of a run *)

Section RunEquations.

Context {W : Type} {D : Driver W} {X : Externals}.

Lemma outcome_bind {R A B} (m : M W R A) (f : A -> M W R B) (w : W) :
  outcomeOf (bind m f w)
  = match outcomeOf (m w) with
    | Val a => outcomeOf (f a (worldOf (m w)))
    | Stop e => Stop e
    end.
Proof.
  unfold outcomeOf, worldOf, bind. destruct (m w) as [[[a|e] w1] t1]; cbn [fst snd].
  - now destruct (f a w1) as [[o w2] t2].
  - reflexivity.
Qed.

Lemma world_bind {R A B} (m : M W R A) (f : A -> M W R B) (w : W) :
  worldOf (bind m f w)
  = match outcomeOf (m w) with
    | Val a => worldOf (f a (worldOf (m w)))
    | Stop e => worldOf (m w)
    end.
Proof.
  unfold outcomeOf, worldOf, bind. destruct (m w) as [[[a|e] w1] t1]; cbn [fst snd].
  - now destruct (f a w1) as [[o w2] t2].
  - reflexivity.
Qed.

Lemma trace_bind {R A B} (m : M W R A) (f : A -> M W R B) (w : W) :
  traceOf (bind m f w)
  = match outcomeOf (m w) with
    | Val a => (traceOf (m w) ++ traceOf (f a (worldOf (m w))))%list
    | Stop e => traceOf (m w)
    end.
Proof.
  unfold outcomeOf, worldOf, traceOf, bind.
  destruct (m w) as [[[a|e] w1] t1]; cbn [fst snd].
  - now destruct (f a w1) as [[o w2] t2].
  - reflexivity.
Qed.

Lemma outcome_call {R A} (c : Call A) (w : W) :
  outcomeOf (call (R := R) c w) = Val (fst (handle c w)).
Proof. unfold outcomeOf, call. now destruct (handle c w). Qed.

Lemma world_call {R A} (c : Call A) (w : W) :
  worldOf (call (R := R) c w) = snd (handle c w).
Proof. unfold worldOf, call. now destruct (handle c w). Qed.

Lemma trace_call {R A} (c : Call A) (w : W) :
  traceOf (call (R := R) c w) = [Ev c (fst (handle c w))].
Proof. unfold traceOf, call. now destruct (handle c w). Qed.

Lemma outcome_fn {R A} (body : M W A A) (w : W) :
  outcomeOf (fn (R := R) body w)
  = match outcomeOf (body w) with
    | Val a => Val a
    | Stop (Returned a) => Val a
    | Stop (Panicked msg) => Stop (Panicked msg)
    end.
Proof. unfold outcomeOf, fn. destruct (body w) as [[[a|[a|msg]] w1] t1]; reflexivity. Qed.

Lemma world_fn {R A} (body : M W A A) (w : W) :
  worldOf (fn (R := R) body w) = worldOf (body w).
Proof. unfold worldOf, fn. destruct (body w) as [[[a|[a|msg]] w1] t1]; reflexivity. Qed.

Lemma trace_fn {R A} (body : M W A A) (w : W) :
  traceOf (fn (R := R) body w) = traceOf (body w).
Proof. unfold traceOf, fn. destruct (body w) as [[[a|[a|msg]] w1] t1]; reflexivity. Qed.

Lemma outcome_defer {R A} (cleanup : Call unit) (body : M W R A) (w : W) :
  outcomeOf (defer cleanup body w) = outcomeOf (body w).
Proof.
  unfold outcomeOf, defer. destruct (body w) as [[o w1] t1].
  now destruct (handle cleanup w1).
Qed.

Lemma trace_defer {R A} (cleanup : Call unit) (body : M W R A) (w : W) :
  traceOf (defer cleanup body w)
  = (traceOf (body w)
     ++ [Ev cleanup (fst (handle cleanup (worldOf (body w))))])%list.
Proof.
  unfold traceOf, worldOf, defer. destruct (body w) as [[o w1] t1].
  cbn [fst snd]. now destruct (handle cleanup w1).
Qed.

End RunEquations.

(* ================================================================== *)
(** ** Bounded waits *)

Section Waits.

Context {W : Type} {D : Driver W} {X : Externals}.

(** The condition of [waitForFunction] never gives an error, and gives
    [false] when the script could not be evaluated. *)
Lemma functionCondition_total {R} (jsCode : string) (w : W) :
  exists b,
    outcomeOf (functionCondition (R := R) jsCode tt w) = Val (tt, (b, None))
    /\ (forall err, fst (handle (ExecuteScript jsCode) w) = inr err -> b = false)
    /\ (forall v, fst (handle (ExecuteScript jsCode) w) = inl v ->
        b = match v with JBool x => x | _ => false end).
Proof.
  unfold functionCondition. rewrite outcome_fn, outcome_bind, outcome_call.
  destruct (fst (handle (ExecuteScript jsCode) w)) as [v|err].
  - destruct v; eexists; (split; [reflexivity|]);
      (split; [discriminate|]); intros v' E; injection E as <-; reflexivity.
  - exists false. split; [reflexivity|]. split; [reflexivity | discriminate].
Qed.

(** A wait whose condition never gives an error ends with [nil] or with
    the timeout error. *)
Lemma pollLoop_outcome {R S}
    (condition : S -> M W R (S * (bool * option error))) (budget : nat) (s : S) (w : W) :
  (forall s w, exists s' b, outcomeOf (condition s w) = Val (s', (b, None))) ->
  exists s', outcomeOf (pollLoop condition budget s w) = Val (s', None)
             \/ exists elapsed,
                  outcomeOf (pollLoop condition budget s w)
                  = Val (s', Some ("timeout after " ++ elapsed)).
Proof.
  intros Hc. revert s w. induction budget as [|n IH]; intros s w;
    cbn [pollLoop]; destruct (Hc s w) as (s' & b & E);
    rewrite outcome_bind, E; destruct b.
  - exists s'. now left.
  - rewrite outcome_bind, outcome_call.
    exists s'. right. eexists. reflexivity.
  - exists s'. now left.
  - rewrite outcome_bind, outcome_call. apply IH.
Qed.

(** The wait of [waitForFunction] ends with [nil] or with the timeout
    error. *)
Lemma waitForFunction_outcome {R} (jsCode : string) (timeout : Duration) (w : W) :
  outcomeOf (waitForFunction (R := R) jsCode timeout w) = Val None
  \/ exists elapsed,
       outcomeOf (waitForFunction (R := R) jsCode timeout w)
       = Val (Some ("timeout after " ++ elapsed)).
Proof.
  unfold waitForFunction, WaitWithTimeout.
  rewrite outcome_fn, !outcome_bind, outcome_call.
  destruct (pollLoop_outcome (R := option error) (functionCondition jsCode)
              (fst (handle (PollBudget timeout) w)) tt
              (worldOf (call (R := option error) (PollBudget timeout) w)))
    as (s' & H).
  { intros [] w'. destruct (functionCondition_total (R := option error) jsCode w')
      as (b & E & _). now exists tt, b. }
  destruct H as [-> | (x & ->)]; cbn [snd].
  - now left.
  - right. now exists x.
Qed.

(** The calls of [waitForFunction]: the wait is started with the given
    timeout, and then only polls the given script. *)
Lemma waitForFunction_trace {R} (jsCode : string) (timeout : Duration) (w : W) :
  exists polls,
    traceOf (waitForFunction (R := R) jsCode timeout w)
    = Ev (PollBudget timeout) (fst (handle (PollBudget timeout) w)) :: polls
    /\ Forall (fun ev => isPoll jsCode ev = true) polls.
Proof.
  unfold waitForFunction, WaitWithTimeout. rewrite trace_fn.
  set (wait := bind (call (PollBudget timeout))
                 (fun budget => pollLoop (functionCondition jsCode) budget tt)).
  assert (E : traceOf (bind wait (fun r => ret (R := option error) (snd r)) w)
              = traceOf (wait w)).
  { rewrite trace_bind. destruct (outcomeOf (wait w)); [|reflexivity].
    apply List.app_nil_r. }
  rewrite E. unfold wait. rewrite trace_bind, outcome_call, trace_call.
  eexists. split; [reflexivity|].
  apply (Emits_pollLoop (fun ev => isPoll jsCode ev = true)).
  - intros []. unfold functionCondition. apply Emits_fn.
    apply Emits_bind; [apply Emits_call; intros; cbn; apply String.eqb_refl|].
    intros [[]|]; apply Emits_Return.
  - reflexivity.
  - reflexivity.
Qed.

(** C6: an error raised while the condition of [waitForFunction] is
    evaluated counts as "not yet satisfied": the condition gives [true]
    exactly when the script gave the boolean [true], gives [false] when
    the script could not be evaluated, and never gives an error; so the
    caller never sees the error: the wait ends with [nil] or with the
    timeout error. *)
Theorem waitForFunction_hides_script_errors {R} (jsCode : string)
    (timeout : Duration) (w : W) :
  (forall w',
      outcomeOf (functionCondition (R := option error) jsCode tt w')
      = Val (tt, (match fst (handle (ExecuteScript jsCode) w') with
                  | inl (JBool b) => b
                  | inl _ => false
                  | inr _ => false
                  end, None)))
  /\ (outcomeOf (waitForFunction (R := R) jsCode timeout w) = Val None
      \/ exists elapsed,
           outcomeOf (waitForFunction (R := R) jsCode timeout w)
           = Val (Some ("timeout after " ++ elapsed))).
Proof.
  split.
  - intros w'. unfold functionCondition.
    rewrite outcome_fn, outcome_bind, outcome_call.
    destruct (fst (handle (ExecuteScript jsCode) w')) as [[]|err]; reflexivity.
  - apply waitForFunction_outcome.
Qed.

End Waits.

(* ================================================================== *)
(** ** The form *)

Ltac emits_step :=
  match goal with
  | |- Emits _ (ret _) => apply Emits_ret
  | |- Emits _ (Return _) => apply Emits_Return
  | |- Emits _ (panic _) => apply Emits_panic
  | |- Emits _ (call _) => apply Emits_call; intros; try reflexivity
  | |- Emits _ (Printf _) => apply Emits_call; intros; try reflexivity
  | |- Emits _ (Println _) => apply Emits_call; intros; try reflexivity
  | |- Emits _ (bind _ _) => apply Emits_bind; [|intros ?]
  | |- Emits _ (fn _) => apply Emits_fn
  | |- Emits _ (defer _ _) => apply Emits_defer; [intros; try reflexivity|]
  | |- Emits _ (orReturn _ _) => apply Emits_orReturn
  | |- Emits _ (failIf _ _) => apply Emits_failIf
  | |- Emits _ (WaitWithTimeout _ _ _) =>
      apply Emits_WaitWithTimeout; [intros ? | intros; try reflexivity ..]
  | |- Emits _ (if false then _ else ?b) => change (if false then _ else b) with b
  | |- Emits _ (if ?b then _ else _) => destruct b
  | |- Emits _ (match ?x with _ => _ end) => destruct x
  end.

Section Form.

Context {W : Type} {D : Driver W} {X : Externals}.

(** C10: with an empty field list the program does not touch the form -
    it looks up, clears, fills and clicks nothing - whatever the form
    identifier. *)
Theorem no_inputs_no_form_interaction {R} (config : Config) (w : W) :
  Inputs config = [] ->
  Forall (fun ev => formInteraction ev = false)
    (traceOf (processRequest (R := R) config w)).
Proof.
  intros H. revert w.
  change (Emits (fun ev => formInteraction ev = false)
            (processRequest (R := R) config)).
  unfold processRequest, session, getFirefoxPath, getGeckodriverPath,
    waitAfterScript, waitForSelector, waitForFunction, selectorCondition,
    functionCondition, urlChangedCondition, assertBool.
  rewrite H. cbn [List.length Nat.ltb Nat.leb]. rewrite andb_false_r.
  repeat emits_step.
Qed.

End Form.

Section FormFilling.

Context {W : Type} {D : Driver W} {X : Externals}.

Notation "x <- m ;; k" := (bind m (fun x => k))
  (at level 100, m at next level, right associativity).
Notation "m ;; k" := (bind m (fun _ => k))
  (at level 100, right associativity).

Lemma handleForm_parts {R} (config : Config) (isLiveView : bool) :
  handleForm (R := R) config isLiveView
  = fn (forEach (Inputs config) (fillField (FormID config)) ;;
        submitForm config isLiveView ;;
        ret None).
Proof. unfold handleForm, submitForm. destruct isLiveView; reflexivity. Qed.

Lemma fillField_cases (formID : string) (input : FormInput) (w : W) :
  outcomeOf (fillField formID input w) = Val tt
  \/ exists reason err,
       outcomeOf (fillField formID input w)
       = Stop (Returned (Some ("could not " ++ reason ++ " input "
                               ++ Name input ++ ": " ++ err)))
       /\ failedFill formID input reason err (traceOf (fillField formID input w)).
Proof.
  unfold fillField, failedFill, outcomeOf, traceOf, bind, call.
  destruct (handle (FindElement (inputSelector formID (Name input))) w)
    as [[elem|err] w1]; cbn [orReturn ret Return fst snd].
  - destruct (handle (Clear elem) w1) as [[err|] w2]; cbn [failIf ret Return fst snd].
    + right. exists "clear", err. split; [reflexivity|].
      right; left. exists elem. split; reflexivity.
    + destruct (handle (SendKeys elem (Value input)) w2) as [[err|] w3];
        cbn [failIf ret Return fst snd].
      * right. exists "fill", err. split; [reflexivity|].
        right; right. exists elem. split; reflexivity.
      * now left.
  - right. exists "find", err. split; [reflexivity|]. left. split; reflexivity.
Qed.

(** The loop stops at the first field that fails. *)
Lemma forEach_stops {R A} (body : A -> M W R unit) (before after : list A)
    (x : A) (w : W) :
  outcomeOf (forEach before body w) = Val tt ->
  let w1 := worldOf (forEach before body w) in
  forall e, outcomeOf (body x w1) = Stop e ->
  outcomeOf (forEach (before ++ x :: after) body w) = Stop e
  /\ worldOf (forEach (before ++ x :: after) body w) = worldOf (body x w1)
  /\ traceOf (forEach (before ++ x :: after) body w)
     = (traceOf (forEach before body w) ++ traceOf (body x w1))%list.
Proof.
  revert w. induction before as [|y before IH]; intros w Hb w1 e Hx.
  - cbn [List.app forEach]. subst w1. cbn in Hx |- *.
    rewrite outcome_bind, world_bind, trace_bind, Hx. auto.
  - cbn [List.app forEach] in *. subst w1.
    rewrite outcome_bind in Hb.
    destruct (outcomeOf (body y w)) as [[]|e'] eqn:Ey; [|discriminate].
    rewrite world_bind, Ey in Hx.
    destruct (IH _ Hb e Hx) as (H1 & H2 & H3).
    rewrite outcome_bind, !world_bind, !trace_bind, Ey.
    rewrite H1, H2, H3. rewrite List.app_assoc. auto.
Qed.

(** C5: when the element of some field cannot be located, cleared or
    filled, [handleForm] fails at once, with an error that names the
    field; the calls it has made are those for the fields before, and
    those of the failed attempt up to the failing call: no later field
    is touched and nothing is submitted. *)
Theorem handleForm_fails_on_first_bad_field {R} (config : Config)
    (isLiveView : bool) (before after : list FormInput) (input : FormInput) (w : W) :
  Inputs config = (before ++ input :: after)%list ->
  let filled := forEach before (fillField (FormID config)) w in
  outcomeOf filled = Val tt ->
  let attempt := fillField (FormID config) input (worldOf filled) in
  outcomeOf attempt <> Val tt ->
  exists reason err,
    outcomeOf (handleForm (R := R) config isLiveView w)
    = Val (Some ("could not " ++ reason ++ " input " ++ Name input ++ ": " ++ err))
    /\ failedFill (FormID config) input reason err (traceOf attempt)
    /\ worldOf (handleForm (R := R) config isLiveView w) = worldOf attempt
    /\ traceOf (handleForm (R := R) config isLiveView w)
       = (traceOf filled ++ traceOf attempt)%list.
Proof.
  intros Hin filled Hfilled attempt Hfail.
  destruct (fillField_cases (FormID config) input (worldOf filled))
    as [Hok | (reason & err & Hout & Hshape)]; [contradiction|].
  exists reason, err.
  destruct (forEach_stops (fillField (FormID config)) before after input w
              Hfilled _ Hout) as (H1 & H2 & H3).
  rewrite handleForm_parts, Hin.
  rewrite outcome_fn, world_fn, trace_fn.
  rewrite outcome_bind, world_bind, trace_bind, H1.
  repeat split; assumption.
Qed.

End FormFilling.

(* ================================================================== *)
(** ** The run of [processRequest] *)

Section Results.

Context {W : Type} {D : Driver W} {X : Externals}.

Notation "x <- m ;; k" := (bind m (fun x => k))
  (at level 100, m at next level, right associativity).
Notation "m ;; k" := (bind m (fun _ => k))
  (at level 100, right associativity).

(** *** Computations that only leave through [return] *)

Lemma NoValue_Return {R A} (r : R) : NoValue (Return (W := W) (A := A) r).
Proof. intros w a. discriminate. Qed.

Lemma NoValue_bind {R A B} (m : M W R A) (f : A -> M W R B) :
  (forall a, NoValue (f a)) -> NoValue (bind m f).
Proof.
  intros Hf w b. rewrite outcome_bind.
  destruct (outcomeOf (m w)) as [a|e]; [apply Hf | discriminate].
Qed.

Lemma NoValue_defer {R A} (cleanup : Call unit) (body : M W R A) :
  NoValue body -> NoValue (defer cleanup body).
Proof. intros H w a. rewrite outcome_defer. apply H. Qed.

Lemma session_NoValue {R} (config : Config) (baseURL : string) :
  NoValue (session (R := R) config baseURL).
Proof. unfold session. repeat (apply NoValue_bind; intros ?). apply NoValue_Return. Qed.

(** *** The calls before a [return] *)

Lemma Ends_bind {R A B} Q (m : M W R A) (f : A -> M W R B) :
  Ends Q m -> (forall a, Ends Q (f a)) -> Ends Q (bind m f).
Proof.
  intros Hm Hf w r H.
  destruct (run_bind_Returned m f w r H) as [[E Et] | (a & Ea & Ef & Et)].
  - rewrite Et. now apply Hm.
  - destruct (Hf a _ r Ef) as (pre & suf & Ht & HQ).
    exists (traceOf (m w) ++ pre)%list, suf. split; [|exact HQ].
    now rewrite Et, Ht, List.app_assoc.
Qed.

(** A computation all of whose returns are outside the domain of [Q]. *)
Lemma Ends_Returns {R A} (Q : R -> list Event -> Prop) (P : R -> Prop)
    (m : M W R A) :
  Returns P m -> (forall r, P r -> Q r []) -> Ends Q m.
Proof.
  intros Hm HQ w r H. exists (traceOf (m w)), []. split.
  - now rewrite List.app_nil_r.
  - apply HQ. now apply (Hm w).
Qed.

Lemma Ends_defer {R A} Q (cleanup : Call unit) (body : M W R A) :
  Ends Q body ->
  Ends (fun r suf => exists suf' u, suf = (suf' ++ [Ev cleanup u])%list /\ Q r suf')
    (defer cleanup body).
Proof.
  intros H w r Hr. rewrite outcome_defer in Hr.
  destruct (H w r Hr) as (pre & suf & Ht & HQ).
  exists pre, (suf ++ [Ev cleanup (fst (handle cleanup (worldOf (body w))))])%list.
  split.
  - now rewrite trace_defer, Ht, List.app_assoc.
  - now exists suf, (fst (handle cleanup (worldOf (body w)))).
Qed.

Lemma Ends_weaken {R A} (Q Q' : R -> list Event -> Prop) (m : M W R A) :
  (forall r suf, Q r suf -> Q' r suf) -> Ends Q m -> Ends Q' m.
Proof.
  intros HQ Hm w r H. destruct (Hm w r H) as (pre & suf & Ht & Hq).
  exists pre, suf. auto.
Qed.

(** *** The calls at the start of a run *)

Lemma Begins_bind {R A B} P Q (m : M W R A) (f : A -> M W R B) :
  Q [] -> Emits P m -> (forall a, Begins P Q (f a)) -> Begins P Q (bind m f).
Proof.
  intros Hnil Hm Hf w. rewrite trace_bind. specialize (Hm w).
  destruct (outcomeOf (m w)) as [a|e].
  - destruct (Hf a (worldOf (m w))) as (pre & rest & Ht & Hp & Hq).
    exists (traceOf (m w) ++ pre)%list, rest. repeat split.
    + now rewrite Ht, List.app_assoc.
    + apply Forall_app. now split.
    + exact Hq.
  - exists (traceOf (m w)), []. repeat split; [now rewrite List.app_nil_r | | ]; assumption.
Qed.

Lemma Begins_Emits {R A} (P : Event -> Prop) (Q : list Event -> Prop) (m : M W R A) :
  Q [] -> Emits P m -> Begins P Q m.
Proof.
  intros Hnil Hm w. exists (traceOf (m w)), [].
  repeat split; [now rewrite List.app_nil_r | apply Hm | exact Hnil].
Qed.

Lemma Begins_defer {R A} (P : Event -> Prop) (Q : list Event -> Prop)
    (cleanup : Call unit) (body : M W R A) :
  (forall u, P (Ev cleanup u)) ->
  (forall rest ev, rest <> [] -> Q rest -> Q (rest ++ [ev])%list) ->
  Begins P Q body -> Begins P Q (defer cleanup body).
Proof.
  intros Hc Hq Hb w. rewrite trace_defer.
  destruct (Hb w) as (pre & rest & Ht & Hp & HQ). rewrite Ht.
  destruct rest as [|ev rest].
  - exists (pre ++ [Ev cleanup (fst (handle cleanup (worldOf (body w))))])%list, [].
    rewrite !List.app_nil_r. repeat split; [| exact HQ].
    apply Forall_app. split; [exact Hp|]. repeat constructor. apply Hc.
  - exists pre, ((ev :: rest) ++ [Ev cleanup (fst (handle cleanup (worldOf (body w))))])%list.
    repeat split; [now rewrite List.app_assoc | exact Hp |].
    apply Hq; [discriminate | exact HQ].
Qed.

Lemma Begins_fn {R A} P Q (body : M W A A) :
  Begins P Q body -> Begins P Q (fn (R := R) body).
Proof. intros H w. rewrite trace_fn. apply H. Qed.

End Results.

Ltac returns_step :=
  match goal with
  | |- Returns _ (ret _) => apply Returns_ret
  | |- Returns _ (panic _) => apply Returns_panic
  | |- Returns _ (call _) => apply Returns_call
  | |- Returns _ (Printf _) => apply Returns_call
  | |- Returns _ (Println _) => apply Returns_call
  | |- Returns _ (fn _) => apply Returns_fn
  | |- Returns _ (handleForm _ _) => apply Returns_fn
  | |- Returns _ (waitForFunction _ _) => apply Returns_fn
  | |- Returns _ (waitForSelector _ _) => apply Returns_fn
  | |- Returns _ (getFirefoxPath) => apply Returns_fn
  | |- Returns _ (getGeckodriverPath) => apply Returns_fn
  | |- Returns _ (urlChangedCondition _ _) => apply Returns_fn
  | |- Returns _ (bind _ _) => apply Returns_bind; [|intros ?]
  | |- Returns _ (orReturn _ _) => apply Returns_orReturn; intros ?
  | |- Returns _ (failIf _ _) => apply Returns_failIf; intros ?
  | |- Returns _ (Return _) => apply Returns_Return
  | |- Returns _ (WaitWithTimeout _ _ _) => apply Returns_WaitWithTimeout; intros ?
  | |- Returns _ (if ?b then _ else _) => destruct b
  | |- Returns _ (match ?x with _ => _ end) => destruct x
  end.

Section ProcessRequest.

Context {W : Type} {D : Driver W} {X : Externals}.

Notation "x <- m ;; k" := (bind m (fun x => k))
  (at level 100, m at next level, right associativity).
Notation "m ;; k" := (bind m (fun _ => k))
  (at level 100, right associativity).

Lemma Returns_defer {R A} P (cleanup : Call unit) (body : M W R A) :
  Returns P body -> Returns P (defer cleanup body).
Proof. intros H w r. rewrite outcome_defer. apply H. Qed.

(** The steps of a session before the page is retrieved return only
    errors. *)
Ltac only_errors :=
  apply (Ends_Returns _ (fun r : string * option error => snd r <> None));
  [ unfold waitAfterScript, assertBool; repeat returns_step; cbn; discriminate
  | intros ? Hne Hnone; contradiction ].

Ltac to_page_source :=
  repeat match goal with
         | |- Ends _ (bind (call PageSource) _) => fail 1
         | |- Ends _ (bind _ _) => apply Ends_bind; [only_errors | intros ?]
         end.

Lemma session_raw {R} (config : Config) (baseURL : string) :
  RawFlag config = true -> Ends rawEnd (session (R := R) config baseURL).
Proof.
  intros Hraw. unfold session. rewrite Hraw. to_page_source.
  intros w r. unfold rawEnd, outcomeOf, traceOf, bind, call.
  destruct (handle PageSource w) as [[content|err] w1]; cbn.
  - destruct (handle (ExecuteScript capturedLogsScript) w1) as [r1 w2].
    destruct (handle (Log "browser") w2) as [r2 w3]. cbn.
    intros E. injection E as <-. eexists [], _. split; [reflexivity|].
    intros _. now exists r1, r2.
  - intros E. injection E as <-. eexists _, []. split.
    + now rewrite List.app_nil_r.
    + discriminate.
Qed.

Lemma fn_Val_inv {R A} (body : M W A A) (w : W) (x : A) :
  outcomeOf (fn (R := R) body w) = Val x ->
  outcomeOf (body w) = Val x \/ outcomeOf (body w) = Stop (Returned x).
Proof.
  rewrite outcome_fn. destruct (outcomeOf (body w)) as [a|[a|msg]]; intros E;
    [left | right | discriminate]; now injection E as ->.
Qed.

(** C7: in raw mode a run that succeeds returns exactly what
    [PageSource] gave - no conversion, no truncation, no header, no
    console section - and after retrieving it the run only queries the
    two logs and closes the session. *)
Theorem raw_returns_page_source {R} (config : Config) (w : W) (out : string) :
  RawFlag config = true ->
  outcomeOf (processRequest (R := R) config w) = Val (out, None) ->
  exists pre r1 r2 u1 u2,
    traceOf (processRequest (R := R) config w)
    = (pre ++ [Ev PageSource (inl out);
               Ev (ExecuteScript capturedLogsScript) r1;
               Ev (Log "browser") r2;
               Ev Quit u1; Ev ServiceStop u2])%list.
Proof.
  intros Hraw Hout. unfold processRequest in *. rewrite trace_fn.
  apply fn_Val_inv in Hout.
  set (Q := fun (r : string * option error) (suf : list Event) =>
              snd r = None ->
              exists r1 r2 u1 u2,
                suf = [Ev PageSource (inl (fst r));
                       Ev (ExecuteScript capturedLogsScript) r1;
                       Ev (Log "browser") r2; Ev Quit u1; Ev ServiceStop u2]).
  set (Q1 := fun (r : string * option error) (suf : list Event) =>
               snd r = None ->
               exists r1 r2 u1,
                 suf = [Ev PageSource (inl (fst r));
                        Ev (ExecuteScript capturedLogsScript) r1;
                        Ev (Log "browser") r2; Ev Quit u1]).
  destruct Hout as [Hv | Hr].
  - exfalso. revert Hv.
    match goal with
    | |- outcomeOf (?body w) = _ -> _ => assert (Hnv : NoValue body)
    end.
    { repeat (apply NoValue_bind; intros ?). apply NoValue_defer.
      repeat (apply NoValue_bind; intros ?). apply NoValue_defer.
      apply session_NoValue. }
    apply Hnv.
  - match type of Hr with
    | outcomeOf (?body w) = _ => assert (Hends : Ends Q body)
    end.
    { repeat match goal with
             | |- Ends _ (bind _ _) => apply Ends_bind; [only_errors | intros ?]
             end.
      apply (Ends_weaken
               (fun r suf => exists suf' u, suf = (suf' ++ [Ev ServiceStop u])%list
                                            /\ Q1 r suf')).
      { intros r suf (suf' & u & -> & H1) Hn.
        destruct (H1 Hn) as (r1 & r2 & u1 & ->). now exists r1, r2, u1, u. }
      apply Ends_defer.
      repeat match goal with
             | |- Ends _ (bind _ _) => apply Ends_bind; [only_errors | intros ?]
             end.
      apply (Ends_weaken
               (fun r suf => exists suf' u, suf = (suf' ++ [Ev Quit u])%list
                                            /\ rawEnd r suf')).
      { intros r suf (suf' & u & -> & H1) Hn.
        destruct (H1 Hn) as (r1 & r2 & ->). now exists r1, r2, u. }
      apply Ends_defer. now apply session_raw. }
    destruct (Hends w _ Hr) as (pre & suf & Ht & Hq).
    destruct (Hq eq_refl) as (r1 & r2 & u1 & u2 & ->).
    now exists pre, r1, r2, u1, u2.
Qed.

End ProcessRequest.

(** ** The header *)

Lemma fold_left_lines (msgs : list string) (init : string) :
  fold_left (fun result msg => result ++ msg ++ nl) msgs init
  = init ++ fold_left (fun result msg => result ++ msg ++ nl) msgs "".
Proof.
  revert init. induction msgs as [|m msgs IH]; intros init; cbn [fold_left].
  - now rewrite app_nil_r.
  - rewrite IH, (IH ("" ++ m ++ nl)). now rewrite app_assoc.
Qed.

(** The output begins with the header block, which holds the URL, and
    goes on with the text. *)
Lemma assemble_header (baseURL markdown : string) (consoleMessages : list string) :
  exists rest,
    assemble baseURL markdown consoleMessages
    = header baseURL ++ markdown ++ rest.
Proof.
  unfold assemble, header.
  destruct (0 <? List.length consoleMessages)%nat.
  - rewrite fold_left_lines. eexists.
    rewrite !app_assoc. reflexivity.
  - exists "". now rewrite !app_assoc, app_nil_r.
Qed.

Section Navigation.

Context {W : Type} {D : Driver W} {X : Externals}.

Notation "x <- m ;; k" := (bind m (fun x => k))
  (at level 100, m at next level, right associativity).
Notation "m ;; k" := (bind m (fun _ => k))
  (at level 100, right associativity).

Lemma startsWithGet_app (url : string) (rest : list Event) (ev : Event) :
  rest <> [] -> startsWithGet url rest -> startsWithGet url (rest ++ [ev])%list.
Proof.
  intros Hne [->|(r & rest' & ->)]; [contradiction|].
  right. now exists r, (rest' ++ [ev])%list.
Qed.

Lemma session_starts {R} (config : Config) (baseURL : string) (w : W) :
  exists r rest,
    traceOf (session (R := R) config baseURL w) = Ev (Get baseURL) r :: rest.
Proof.
  unfold session. rewrite trace_bind, outcome_call, trace_call.
  eexists _, _. reflexivity.
Qed.

Ltac setup_steps :=
  repeat match goal with
         | |- Begins _ _ (bind _ _) =>
             apply Begins_bind;
             [ now left
             | unfold getFirefoxPath, getGeckodriverPath; repeat emits_step
             | intros ? ]
         end.

(** The calls of [processRequest] are set-up calls, followed - when the
    session could be opened - by the navigation to the base URL. *)
Lemma processRequest_starts {R} (config : Config) :
  Begins (fun ev => setupCall ev = true)
    (startsWithGet (ensureProtocol (URL config)))
    (processRequest (R := R) config).
Proof.
  unfold processRequest. apply Begins_fn. cbv zeta. setup_steps.
  apply Begins_defer; [reflexivity | apply startsWithGet_app |].
  setup_steps.
  apply Begins_defer; [reflexivity | apply startsWithGet_app |].
  intros w. destruct (session_starts (R := string * option error) config
                        (ensureProtocol (URL config)) w) as (r & rest & E).
  exists [], (Ev (Get (ensureProtocol (URL config))) r :: rest).
  split; [exact E|]. split; [constructor|]. right. now exists r, rest.
Qed.

Lemma session_assembles {R} (config : Config) (baseURL : string) :
  Returns (assembled config baseURL) (session (R := R) config baseURL).
Proof.
  unfold session, waitAfterScript, assertBool, assembled.
  repeat returns_step; cbn [fst snd]; intros Hn Hraw;
    try discriminate Hn; try discriminate Hraw.
  match goal with
  | |- exists _ _, assemble ?b ?m ?c = _ =>
      destruct (assemble_header b m c) as [rest E]; now exists m, rest
  end.
Qed.

(** *** Successful runs *)

Lemma Succeeds_bind {A B} (url : string)
    (m : M W (string * option error) A) (f : A -> M W (string * option error) B) :
  Returns (fun r => snd r <> None) m ->
  Emits (fun ev => setupCall ev = true) m ->
  (forall a, Succeeds (navigated url) (f a)) ->
  Succeeds (navigated url) (bind m f).
Proof.
  intros Hr He Hf w r H Hn.
  destruct (run_bind_Returned m f w r H) as [[E _] | (a & Ea & Ef & Et)].
  - now destruct (Hr w r E).
  - destruct (Hf a _ r Ef Hn) as (setup & rest & Ht & Hs).
    exists (traceOf (m w) ++ setup)%list, rest. split.
    + now rewrite Et, Ht, List.app_assoc.
    + apply Forall_app. split; [apply He | exact Hs].
Qed.

Lemma Succeeds_defer {A} (url : string) (cleanup : Call unit)
    (body : M W (string * option error) A) :
  Succeeds (navigated url) body -> Succeeds (navigated url) (defer cleanup body).
Proof.
  intros Hb w r H Hn. rewrite outcome_defer in H.
  destruct (Hb w r H Hn) as (setup & rest & Ht & Hs).
  rewrite trace_defer, Ht.
  eexists setup, _. split; [|exact Hs].
  rewrite <- List.app_assoc. reflexivity.
Qed.

Lemma session_navigated {R} (config : Config) (baseURL : string) :
  Succeeds (navigated baseURL) (session (R := R) config baseURL).
Proof.
  intros w r H Hn. unfold session in *.
  rewrite outcome_bind, outcome_call in H. rewrite trace_bind, outcome_call, trace_call.
  destruct (fst (handle (Get baseURL) w)) as [err|].
  - rewrite outcome_bind in H. cbn in H. injection H as <-. discriminate Hn.
  - eexists [], _. split; [reflexivity | constructor].
Qed.

Ltac success_steps :=
  repeat match goal with
         | |- Succeeds _ (bind _ _) =>
             apply Succeeds_bind;
             [ repeat returns_step; cbn; discriminate
             | unfold getFirefoxPath, getGeckodriverPath; repeat emits_step
             | intros ? ]
         end.

(** C8: the URL the program uses is the given one, with ["http://"] put
    before it unless it begins with ["http://"] or ["https://"]: the
    first call of a run after the set-up, if there is one, is the
    navigation to that URL; a run that succeeds has made it; and the
    output of a successful run that is not raw begins with the header
    that shows it. *)
Theorem base_url_is_used {R} (config : Config) (w : W) :
  let url := URL config in
  let base := if negb (HasPrefix url "http://") && negb (HasPrefix url "https://")
              then "http://" ++ url else url in
  let run := processRequest (R := R) config w in
  (exists setup rest,
      traceOf run = (setup ++ rest)%list
      /\ Forall (fun ev => setupCall ev = true) setup
      /\ (rest = [] \/ exists r rest', rest = Ev (Get base) r :: rest'))
  /\ (forall out,
        outcomeOf run = Val (out, None) ->
        (exists setup rest,
            traceOf run = (setup ++ Ev (Get base) None :: rest)%list
            /\ Forall (fun ev => setupCall ev = true) setup)
        /\ (RawFlag config = false ->
            exists markdown rest, out = header base ++ markdown ++ rest)).
Proof.
  intros url base run. fold (ensureProtocol url) in base. subst url base run.
  split; [apply processRequest_starts|].
  intros out Hout. unfold processRequest in *. rewrite trace_fn.
  apply fn_Val_inv in Hout. destruct Hout as [Hv | Hr].
  - exfalso. revert Hv.
    match goal with
    | |- outcomeOf (?body w) = _ -> _ => assert (Hnv : NoValue body)
    end.
    { repeat (apply NoValue_bind; intros ?). apply NoValue_defer.
      repeat (apply NoValue_bind; intros ?). apply NoValue_defer.
      apply session_NoValue. }
    apply Hnv.
  - split.
    + match type of Hr with
      | outcomeOf (?body w) = _ =>
          assert (Hs : Succeeds (navigated (ensureProtocol (URL config))) body)
      end.
      { cbv zeta. success_steps. apply Succeeds_defer.
        success_steps. apply Succeeds_defer. apply session_navigated. }
      exact (Hs w _ Hr eq_refl).
    + match type of Hr with
      | outcomeOf (?body w) = _ =>
          assert (Ha : Returns (assembled config (ensureProtocol (URL config))) body)
      end.
      { cbv zeta. unfold assembled.
        repeat match goal with
               | |- Returns _ (bind _ _) =>
                   apply Returns_bind;
                   [ repeat returns_step; cbn [fst snd]; intros Hn; discriminate Hn
                   | intros ? ]
               end.
        apply Returns_defer.
        repeat match goal with
               | |- Returns _ (bind _ _) =>
                   apply Returns_bind;
                   [ repeat returns_step; cbn [fst snd]; intros Hn; discriminate Hn
                   | intros ? ]
               end.
        apply Returns_defer. apply session_assembles. }
      intros Hraw. exact (Ha w _ Hr eq_refl Hraw).
Qed.

End Navigation.

(* ================================================================== *)
(** ** The wait after a LiveView form submission *)

Section LiveViewForm.

Context {W : Type} {D : Driver W} {X : Externals}.

Notation "x <- m ;; k" := (bind m (fun x => k))
  (at level 100, m at next level, right associativity).
Notation "m ;; k" := (bind m (fun _ => k))
  (at level 100, right associativity).

Lemma bind_assoc {R A B C} (m : M W R A) (f : A -> M W R B) (g : B -> M W R C) (w : W) :
  bind (bind m f) g w = bind m (fun a => bind (f a) g) w.
Proof.
  unfold bind. destruct (m w) as [[[a|e] w1] t1]; [|reflexivity].
  destruct (f a w1) as [[[b|e] w2] t2]; [|reflexivity].
  destruct (g b w2) as [[o w3] t3]. now rewrite List.app_assoc.
Qed.

Lemma fn_ext {R A} (body body' : M W A A) (w : W) :
  body w = body' w -> fn (R := R) body w = fn body' w.
Proof. intros E. unfold fn. now rewrite E. Qed.

Lemma bind_ext {R A B} (m : M W R A) (f g : A -> M W R B) (w : W) :
  (forall a w', f a w' = g a w') -> bind m f w = bind m g w.
Proof.
  intros E. unfold bind. destruct (m w) as [[[a|e] w1] t1]; [|reflexivity].
  now rewrite E.
Qed.

Lemma handleForm_liveView {R} (config : Config) (w : W) :
  handleForm (R := R) config true w
  = fn (fillAndSubmit config ;; liveViewWait ;;
        Println "LiveView form submitted" ;; ret None) w.
Proof.
  rewrite handleForm_parts. apply fn_ext.
  unfold fillAndSubmit, submitForm, liveViewWait.
  repeat (rewrite ?bind_assoc; first [reflexivity | apply bind_ext; intros ? ?]).
Qed.

Lemma handle_unit (c : Call unit) (w : W) : fst (handle c w) = tt.
Proof. now destruct (fst (handle c w)). Qed.

Lemma waitForFunction_Val {R} (jsCode : string) (timeout : Duration) (w : W) :
  exists r, outcomeOf (waitForFunction (R := R) jsCode timeout w) = Val r.
Proof.
  destruct (waitForFunction_outcome (R := R) jsCode timeout w)
    as [E | (x & E)]; eexists; exact E.
Qed.

(** The wait never fails, and makes these calls: the 2-second wait for
    the loading flag to be set; then, if that timed out, nothing but the
    informational message; and if the flag was seen, the 10-second wait
    for it to be cleared, followed by a warning when that timed out. *)
Lemma liveViewWait_run (w : W) :
  let w1 := snd (handle (Print waitingText) w) in
  let started := waitForFunction (R := option error) loadingStarted (2 * Second)%Z w1 in
  let stopped :=
    waitForFunction (R := option error) loadingStopped (10 * Second)%Z (worldOf started) in
  outcomeOf (liveViewWait w) = Val tt
  /\ exists r1,
       outcomeOf started = Val r1
       /\ match r1 with
          | Some _ =>
              traceOf (liveViewWait w)
              = (Ev (Print waitingText) tt :: traceOf started
                 ++ [Ev (Print inPlaceText) tt])%list
          | None =>
              exists r2,
                outcomeOf stopped = Val r2
                /\ traceOf (liveViewWait w)
                   = (Ev (Print waitingText) tt :: traceOf started
                      ++ traceOf stopped
                      ++ [Ev (Print match r2 with
                                    | Some err => warningText err
                                    | None => completedText
                                    end) tt])%list
          end.
Proof.
  intros w1 started stopped. unfold liveViewWait, Println, Printf.
  fold waitingText inPlaceText completedText.
  rewrite outcome_bind, trace_bind, outcome_call, world_call, trace_call, handle_unit.
  fold w1. rewrite outcome_bind, trace_bind. fold started.
  destruct (waitForFunction_Val (R := option error) loadingStarted (2 * Second)%Z w1)
    as [r1 E1]. fold started in E1. rewrite E1.
  destruct r1 as [err1|].
  - rewrite outcome_call, trace_call, handle_unit. split; [reflexivity|].
    exists (Some err1). split; reflexivity.
  - rewrite outcome_bind, trace_bind. fold stopped.
    destruct (waitForFunction_Val (R := option error) loadingStopped (10 * Second)%Z
                (worldOf started)) as [r2 E2]. fold stopped in E2. rewrite E2.
    destruct r2 as [err2|]; rewrite outcome_call, trace_call, handle_unit;
      (split; [reflexivity|]); exists None; (split; [reflexivity|]).
    + exists (Some err2). split; [reflexivity|].
      fold (warningText err2). reflexivity.
    + exists None. split; reflexivity.
Qed.

(** C2 (amended): once the form of a LiveView page has been submitted,
    [handleForm] polls up to 2 seconds for the loading flag to be set;
    when it is not observed, it concludes that the update was in place,
    without reading the URL and without a delay; when it is observed,
    it polls up to 10 seconds for the flag to be cleared, and a timeout
    there is a warning; in every case it goes on and returns no error.
    The calls of the run are given in full: those up to the key press,
    the message, the first wait, then the informational message or the
    second wait with its message, and the closing message. *)
Theorem liveView_form_wait {R} (config : Config) (w : W) :
  outcomeOf (fillAndSubmit config w) = Val tt ->
  let w0 := worldOf (fillAndSubmit config w) in
  let w1 := snd (handle (Print waitingText) w0) in
  let started := waitForFunction (R := option error) loadingStarted (2 * Second)%Z w1 in
  let stopped :=
    waitForFunction (R := option error) loadingStopped (10 * Second)%Z (worldOf started) in
  outcomeOf (handleForm (R := R) config true w) = Val None
  /\ (exists r1,
       outcomeOf started = Val r1
       /\ match r1 with
          | Some _ =>
              traceOf (handleForm (R := R) config true w)
              = (traceOf (fillAndSubmit config w)
                 ++ Ev (Print waitingText) tt :: traceOf started
                 ++ [Ev (Print inPlaceText) tt; Ev (Print submittedText) tt])%list
          | None =>
              exists r2,
                outcomeOf stopped = Val r2
                /\ traceOf (handleForm (R := R) config true w)
                   = (traceOf (fillAndSubmit config w)
                      ++ Ev (Print waitingText) tt :: traceOf started
                      ++ traceOf stopped
                      ++ [Ev (Print match r2 with
                                    | Some err => warningText err
                                    | None => completedText
                                    end) tt;
                          Ev (Print submittedText) tt])%list
          end)
  /\ (exists n polls,
        traceOf started = Ev (PollBudget (2 * Second)%Z) n :: polls
        /\ Forall (fun ev => isPoll loadingStarted ev = true) polls)
  /\ (exists n polls,
        traceOf stopped = Ev (PollBudget (10 * Second)%Z) n :: polls
        /\ Forall (fun ev => isPoll loadingStopped ev = true) polls).
Proof.
  intros Hs w0 w1 started stopped.
  assert (Hpolls :
    (exists n polls,
        traceOf started = Ev (PollBudget (2 * Second)%Z) n :: polls
        /\ Forall (fun ev => isPoll loadingStarted ev = true) polls)
    /\ (exists n polls,
          traceOf stopped = Ev (PollBudget (10 * Second)%Z) n :: polls
          /\ Forall (fun ev => isPoll loadingStopped ev = true) polls)).
  { split.
    - destruct (waitForFunction_trace (R := option error) loadingStarted
                  (2 * Second)%Z w1) as (polls & E & H).
      eexists _, polls. split; [exact E | exact H].
    - destruct (waitForFunction_trace (R := option error) loadingStopped
                  (10 * Second)%Z (worldOf started)) as (polls & E & H).
      eexists _, polls. split; [exact E | exact H]. }
  cut (outcomeOf (handleForm (R := R) config true w) = Val None
       /\ exists r1,
            outcomeOf started = Val r1
            /\ match r1 with
               | Some _ =>
                   traceOf (handleForm (R := R) config true w)
                   = (traceOf (fillAndSubmit config w)
                      ++ Ev (Print waitingText) tt :: traceOf started
                      ++ [Ev (Print inPlaceText) tt; Ev (Print submittedText) tt])%list
               | None =>
                   exists r2,
                     outcomeOf stopped = Val r2
                     /\ traceOf (handleForm (R := R) config true w)
                        = (traceOf (fillAndSubmit config w)
                           ++ Ev (Print waitingText) tt :: traceOf started
                           ++ traceOf stopped
                           ++ [Ev (Print match r2 with
                                         | Some err => warningText err
                                         | None => completedText
                                         end) tt;
                               Ev (Print submittedText) tt])%list
               end).
  { intros [H1 H2]. split; [exact H1|]. split; [exact H2 | exact Hpolls]. }
  clear Hpolls.
  destruct (liveViewWait_run w0) as (Hout & r1 & E1 & Ht).
  fold w1 started stopped in E1, Ht.
  rewrite handleForm_liveView, outcome_fn, trace_fn.
  rewrite outcome_bind, trace_bind, Hs. fold w0.
  rewrite outcome_bind, trace_bind, Hout.
  unfold Println. fold submittedText.
  rewrite outcome_bind, trace_bind, outcome_call, trace_call, handle_unit.
  split; [reflexivity|].
  exists r1. split; [exact E1|].
  destruct r1 as [err1|].
  - rewrite Ht. cbn [List.app]. rewrite <- !List.app_assoc. reflexivity.
  - destruct Ht as (r2 & E2 & Ht). exists r2. split; [exact E2|].
    rewrite Ht. cbn [List.app]. rewrite <- !List.app_assoc. reflexivity.
Qed.

(** Whatever happens, [handleForm] never reads the URL, never sleeps for
    the stabilisation delay, and starts no 1-second wait. *)
Lemma handleForm_calls {R} (config : Config) (isLiveView : bool) (w : W) :
  Forall (fun ev => isCurrentURL ev = false
                    /\ isStabilizationDelay ev = false
                    /\ isWait (1 * Second)%Z ev = false)
    (traceOf (handleForm (R := R) config isLiveView w)).
Proof.
  revert w.
  change (Emits (fun ev => isCurrentURL ev = false
                           /\ isStabilizationDelay ev = false
                           /\ isWait (1 * Second)%Z ev = false)
            (handleForm (R := R) config isLiveView)).
  unfold handleForm, waitForFunction, functionCondition.
  apply Emits_fn. apply Emits_bind.
  - apply Emits_forEach. intros x. repeat emits_step; repeat split.
  - intros _. repeat emits_step; repeat split.
Qed.

End LiveViewForm.

(* ================================================================== *)
(** ** Runs in the scripted world *)

Module Runs.

Import Scripted Cases.

(** C2 as the spec states it fails: here the form of a LiveView page is
    submitted and the loading flag is never seen, and yet the wait that
    follows is the 2-second one, not a 1-second one, and the URL is
    never read. *)
Lemma liveView_form_wait_not_as_claimed :
  let run := handleForm (D := driver) (R := unit)
               loginConfig true liveViewPage in
  outcomeOf run = Val None
  /\ existsb isEnterKey (traceOf run) = true
  /\ existsb (isWait (2 * Second)%Z) (traceOf run) = true
  /\ existsb (isWait (1 * Second)%Z) (traceOf run) = false
  /\ existsb isCurrentURL (traceOf run) = false.
Proof. vm_compute. repeat split. Qed.

(** The protocol of the claim is the one that follows an injected
    script: there the wait is the 1-second one, and the URL is read. *)
Lemma script_wait_reads_the_url :
  let run := processRequest (D := driver) (X := externals) (R := unit)
               scriptConfig liveViewPage in
  existsb (isWait (1 * Second)%Z) (traceOf run) = true
  /\ existsb isCurrentURL (traceOf run) = true.
Proof. vm_compute. split; reflexivity. Qed.

Lemma liveView_form_wait_witness :
  outcomeOf (fillAndSubmit (D := driver) loginConfig liveViewPage) = Val tt
  /\ outcomeOf (handleForm (D := driver) (R := unit)
                  loginConfig true liveViewPage) = Val None.
Proof.
  split; [reflexivity|].
  exact (proj1 (liveView_form_wait (D := driver) (R := unit)
                  loginConfig liveViewPage eq_refl)).
Defined.

Lemma handleForm_fails_on_first_bad_field_witness :
  exists reason err,
    outcomeOf (handleForm (D := driver) (R := unit)
                 threeFields false pageWithoutB)
    = Val (Some ("could not " ++ reason ++ " input b: " ++ err)).
Proof.
  destruct (handleForm_fails_on_first_bad_field
              (D := driver) (R := unit)
              threeFields false
              [{| Name := "a"; Value := "1" |}] [{| Name := "c"; Value := "3" |}]
              {| Name := "b"; Value := "2" |} pageWithoutB
              eq_refl eq_refl)
    as (reason & err & H & _).
  - vm_compute. discriminate.
  - now exists reason, err.
Defined.

Lemma no_inputs_no_form_interaction_witness :
  Forall (fun ev => formInteraction ev = false)
    (traceOf (processRequest (D := driver) (X := externals) (R := unit)
                formWithoutFields (page "<form id='f'></form>"))).
Proof.
  apply (no_inputs_no_form_interaction (D := driver) (X := externals) (R := unit)
           formWithoutFields (page "<form id='f'></form>")).
  reflexivity.
Defined.

Lemma raw_returns_page_source_witness :
  exists pre r1 r2 u1 u2,
    traceOf (processRequest (D := driver) (X := externals) (R := unit)
               rawConfig (page "<p>  * x</p>"))
    = (pre ++ [Ev PageSource (inl "<p>  * x</p>");
               Ev (ExecuteScript capturedLogsScript) r1;
               Ev (Log "browser") r2;
               Ev Quit u1; Ev ServiceStop u2])%list.
Proof.
  apply (raw_returns_page_source (D := driver) (X := externals) (R := unit)
           rawConfig (page "<p>  * x</p>") "<p>  * x</p>").
  - reflexivity.
  - vm_compute. reflexivity.
Defined.

Lemma base_url_is_used_witness :
  exists markdown rest,
    "==========================" ++ nl ++ "http://example.com" ++ nl
    ++ "==========================" ++ nl ++ nl ++ "hello"
    = header "http://example.com" ++ markdown ++ rest.
Proof.
  destruct (base_url_is_used (D := driver) (X := externals) (R := unit)
              (config "example.com") (page "hello")) as [_ H].
  destruct (H ("==========================" ++ nl ++ "http://example.com" ++ nl
               ++ "==========================" ++ nl ++ nl ++ "hello"))
    as [_ H2].
  - vm_compute. reflexivity.
  - apply H2. reflexivity.
Defined.

(** C3 at a failing input: the page warns once through the console and
    the browser's own log holds one entry at level WARN.  The merged log
    has the instrumented entry first and the native entry after it, as
    the spec says; the instrumented entry is shown as WARNING, and the
    native entry keeps the short form WARN, which the spec expands. *)
Theorem merged_log_native_warn :
  collectBrowser (X := externals) (inl browserWarning)
    (collectCaptured (X := externals) (inl (capturedArray consoleWarning)) [])
  = ["[WARNING] slow"; "[WARN] deprecated API"]
  /\ claimedMerge (H := externals) consoleWarning browserWarning
     = ["[WARNING] slow"; "[WARNING] deprecated API"]
  /\ outcomeOf (processRequest (D := driver) (X := externals) (R := unit)
                  (config "example.com") warningPage)
     = Val ("==========================" ++ nl ++ "http://example.com" ++ nl
            ++ "==========================" ++ nl ++ nl ++ "hello"
            ++ nl ++ nl ++ Repeat "=" 50 ++ nl ++ "CONSOLE OUTPUT:" ++ nl
            ++ Repeat "=" 50 ++ nl
            ++ "[WARNING] slow" ++ nl ++ "[WARN] deprecated API" ++ nl,
            None).
Proof.
  split; [vm_compute; reflexivity|].
  split; vm_compute; reflexivity.
Qed.

(** C1 at a failing input: the converter gives ["* - ab"], 6 bytes, which
    normalises to ["- ab"], 4 bytes; with a budget of 2 the text is cut,
    and the notice gives 6 as the length of the full content. *)
Theorem truncation_notice_length :
  len (cleanMarkdown "* - ab") = 4%Z
  /\ outcomeOf (processRequest (D := driver) (X := externals) (R := unit)
                  budgetTwo (page "* - ab"))
     = Val ("==========================" ++ nl ++ "http://example.com" ++ nl
            ++ "==========================" ++ nl ++ nl
            ++ "- " ++ nl ++ nl
            ++ "... (output truncated after 2 chars, full content was 6 chars)",
            None).
Proof. split; vm_compute; reflexivity. Qed.

End Runs.

(* ================================================================== *)
(** * Further properties *)

(** ** [ensureProtocol] *)

Lemma ensureProtocol_hasProtocol (url : string) :
  hasProtocol (ensureProtocol url) = true.
Proof.
  unfold hasProtocol, ensureProtocol.
  destruct (HasPrefix url "http://") eqn:E1; cbn [negb andb].
  - now rewrite E1.
  - destruct (HasPrefix url "https://") eqn:E2; cbn [negb].
    + now rewrite E1, E2.
    + now rewrite (HasPrefix_app "http://" url).
Qed.

(** X1: [ensureProtocol] gives a URL with a protocol, and leaves such a
    URL alone: applying it twice is applying it once. *)
Theorem ensureProtocol_idempotent (url : string) :
  hasProtocol (ensureProtocol url) = true
  /\ ensureProtocol (ensureProtocol url) = ensureProtocol url.
Proof.
  pose proof (ensureProtocol_hasProtocol url) as H.
  split; [exact H|].
  apply ensureProtocol_keeps. unfold hasProtocol in H.
  now apply orb_true_iff in H.
Qed.

(** ** [parseArgs] *)

(** An invariant of the loop: a property of the configuration that every
    assignment of [parseArgs] keeps holds of what it returns. *)
Lemma parseLoop_invariant (I : Config -> Prop) :
  (forall c, I c -> I (set_RawFlag c true)) ->
  (forall c s v, Atoi s = Some v -> (0 < v)%Z -> I c -> I (set_TruncateAfter c v)) ->
  (forall c v, I c -> I (set_ScreenshotPath c v)) ->
  (forall c v, I c -> I (set_FormID c v)) ->
  (forall c name value, I c -> I (add_Input c {| Name := name; Value := value |})) ->
  (forall c v, I c -> I (set_AfterSubmitURL c (ensureProtocol v))) ->
  (forall c v, I c -> I (set_JSCode c v)) ->
  (forall c v, I c -> I (set_Profile c v)) ->
  (forall c arg, URL c = "" -> HasPrefix arg "--" = false -> I c -> I (set_URL c arg)) ->
  forall args c c', I c -> parseLoop c args = Some c' -> I c'.
Proof.
  intros Hraw Htrunc Hshot Hform Hinput Hafter Hjs Hprofile Hurl args.
  remember (List.length args) as n eqn:Hn.
  assert (Hl : List.length args <= n) by lia. clear Hn. revert args Hl.
  induction n as [|n IH]; intros args Hl c c' Hc E.
  - destruct args; [|simpl in Hl; lia]. now injection E as <-.
  - destruct args as [|arg rest]; [now injection E as <-|].
    simpl in Hl. revert E. cbn [parseLoop].
    split_parse; intros E;
      try discriminate E;
      try (injection E as <-; exact Hc);
      match goal with
      | E : parseLoop ?c2 ?r = Some _ |- _ =>
          apply (IH r ltac:(simpl in *; lia) c2 c'); [|exact E]
      end;
      eauto.
    + eapply Htrunc; eauto. lia.
    + match goal with
      | H : (_ && _)%bool = true |- _ => apply andb_true_iff in H as [H1 H2]
      end.
      apply Hurl; [now apply String.eqb_eq | now apply negb_true_iff | exact Hc].
Qed.

(** X2: in every configuration that [parseArgs] gives, the after-submit
    URL is empty (none was given) or has a protocol; the URL is empty
    or does not begin with ["--"]; and the budget is positive. *)
Theorem parseArgs_well_formed (args : list string) (config : Config) :
  parseArgs args = Some config ->
  (AfterSubmitURL config = "" \/ hasProtocol (AfterSubmitURL config) = true)
  /\ (URL config = "" \/ HasPrefix (URL config) "--" = false)
  /\ (0 < TruncateAfter config)%Z.
Proof.
  apply (parseLoop_invariant
           (fun c => (AfterSubmitURL c = "" \/ hasProtocol (AfterSubmitURL c) = true)
                     /\ (URL c = "" \/ HasPrefix (URL c) "--" = false)
                     /\ (0 < TruncateAfter c)%Z));
    try (intros; assumption).
  - intros c s v _ Hv (H1 & H2 & _). auto.
  - intros c v (_ & H2 & H3). split; [|split; assumption].
    right. apply ensureProtocol_hasProtocol.
  - intros c arg _ Ha (H1 & _ & H3). auto.
  - split; [now left | split; [now left | reflexivity]].
Qed.

Lemma parseArgs_well_formed_witness :
  (AfterSubmitURL (set_AfterSubmitURL (set_URL initialConfig "example.com")
                     "http://localhost:4000/authd") = ""
   \/ hasProtocol (AfterSubmitURL (set_AfterSubmitURL (set_URL initialConfig "example.com")
                     "http://localhost:4000/authd")) = true)
  /\ (URL (set_AfterSubmitURL (set_URL initialConfig "example.com")
             "http://localhost:4000/authd") = ""
      \/ HasPrefix (URL (set_AfterSubmitURL (set_URL initialConfig "example.com")
                           "http://localhost:4000/authd")) "--" = false)
  /\ (0 < TruncateAfter (set_AfterSubmitURL (set_URL initialConfig "example.com")
                           "http://localhost:4000/authd"))%Z.
Proof.
  apply (parseArgs_well_formed ["example.com"; "--after-submit"; "localhost:4000/authd"]).
  vm_compute. reflexivity.
Defined.

(** X3: once the URL is set to a string that is not empty, no later
    argument changes it: whatever arguments follow, the configuration
    the loop ends with has the same URL. *)
Theorem parseLoop_keeps_URL (args : list string) (config config' : Config) :
  URL config <> "" ->
  parseLoop config args = Some config' ->
  URL config' = URL config.
Proof.
  intros Hne.
  apply (parseLoop_invariant (fun c => URL c = URL config));
    try (intros; assumption); try reflexivity.
  intros c arg He _ Hc. rewrite Hc in He. contradiction.
Qed.

Lemma parseLoop_keeps_URL_witness :
  URL (set_RawFlag (set_URL initialConfig "first.example") true) = "first.example".
Proof.
  apply (parseLoop_keeps_URL ["second.example"; "--raw"; "third.example"]
           (set_URL initialConfig "first.example")).
  - discriminate.
  - vm_compute. reflexivity.
Defined.

(** An empty first argument leaves the URL unset: the next positional
    argument sets it. *)
Example parseArgs_empty_first :
  option_map URL (parseArgs [""; "second.example"]) = Some "second.example".
Proof. vm_compute. reflexivity. Qed.

(** X26: the fields are only ever added to, at the end: whatever the
    arguments that follow, the fields read so far are kept, in their
    order, at the head of the list. *)
Theorem parseLoop_extends_Inputs (args : list string) (config config' : Config) :
  parseLoop config args = Some config' ->
  exists added, Inputs config' = (Inputs config ++ added)%list.
Proof.
  apply (parseLoop_invariant
           (fun c => exists added, Inputs c = (Inputs config ++ added)%list));
    try (intros; assumption).
  - intros c name value [added E]. exists (added ++ [{| Name := name; Value := value |}])%list.
    cbn [add_Input Inputs]. now rewrite E, List.app_assoc.
  - exists []. now rewrite List.app_nil_r.
Qed.

(** An argument that does not begin with ["--"] is none of the options. *)
Lemma not_an_option (arg option : string) :
  HasPrefix arg "--" = false -> HasPrefix option "--" = true ->
  (arg =? option) = false.
Proof.
  intros Ha Ho. apply String.eqb_neq. intros ->. congruence.
Qed.

Lemma parseLoop_inputArgs (inputs : list FormInput) (config : Config)
    (rest : list string) :
  parseLoop config (inputArgs inputs ++ rest)
  = parseLoop (set_Inputs config (Inputs config ++ inputs)) rest.
Proof.
  revert config. induction inputs as [|[name value] inputs IH]; intros config.
  - cbn [inputArgs flat_map List.app]. rewrite List.app_nil_r.
    now destruct config.
  - cbn [inputArgs flat_map List.app Name Value].
    change (flat_map _ inputs) with (inputArgs inputs).
    cbn [parseLoop]. cbn [String.eqb Ascii.eqb Bool.eqb].
    rewrite IH. cbn [add_Input set_Inputs Inputs URL Profile FormID AfterSubmitURL
                      JSCode ScreenshotPath TruncateAfter RawFlag].
    now rewrite <- List.app_assoc.
Qed.

(** X4: a command line that spells a configuration out is read back as
    that configuration, whatever the values are (they are taken by
    position, so a value may even look like an option), provided the URL
    does not begin with ["--"] and the budget text reads as the positive
    budget; the after-submit URL comes back with its protocol. *)
Theorem parseArgs_commandLine (config : Config) (budget : string) :
  HasPrefix (URL config) "--" = false ->
  Atoi budget = Some (TruncateAfter config) ->
  (0 < TruncateAfter config)%Z ->
  parseArgs (commandLine config budget)
  = Some (set_AfterSubmitURL config (ensureProtocol (AfterSubmitURL config))).
Proof.
  intros Hurl Hb Hpos. unfold parseArgs, commandLine.
  destruct config as [url profile formID inputs after js shot trunc raw].
  cbn [URL Profile FormID Inputs AfterSubmitURL JSCode ScreenshotPath
       TruncateAfter RawFlag] in *.
  cbn [parseLoop].
  rewrite !(not_an_option url) by (assumption || reflexivity).
  cbn [initialConfig URL String.eqb andb]. rewrite Hurl. cbn [negb].
  cbn [String.eqb Ascii.eqb Bool.eqb].
  rewrite parseLoop_inputArgs.
  cbn [List.app parseLoop String.eqb Ascii.eqb Bool.eqb].
  rewrite Hb. destruct (trunc >? 0)%Z eqn:G; [|lia].
  destruct raw; reflexivity.
Qed.

Lemma parseArgs_commandLine_witness :
  parseArgs (commandLine
               {| URL := "localhost:4000/login"; Profile := "--help";
                  FormID := "login_form";
                  Inputs := [{| Name := "email"; Value := "--raw" |}];
                  AfterSubmitURL := "localhost:4000/home"; JSCode := "";
                  ScreenshotPath := "page.png"; TruncateAfter := 5000;
                  RawFlag := true |} "+5000")
  = Some {| URL := "localhost:4000/login"; Profile := "--help";
            FormID := "login_form";
            Inputs := [{| Name := "email"; Value := "--raw" |}];
            AfterSubmitURL := "http://localhost:4000/home"; JSCode := "";
            ScreenshotPath := "page.png"; TruncateAfter := 5000;
            RawFlag := true |}.
Proof.
  apply (parseArgs_commandLine
           {| URL := "localhost:4000/login"; Profile := "--help";
              FormID := "login_form";
              Inputs := [{| Name := "email"; Value := "--raw" |}];
              AfterSubmitURL := "localhost:4000/home"; JSCode := "";
              ScreenshotPath := "page.png"; TruncateAfter := 5000;
              RawFlag := true |} "+5000");
    reflexivity.
Defined.

(** ** The output of [cleanMarkdown] *)

Lemma TrimSpace_ends (s : string) :
  spaceWidth (TrimSpace s) = 0 /\ spaceWidthRev (srev (TrimSpace s)) = 0.
Proof.
  unfold TrimSpace. split.
  - destruct (TrimRightSpace_prefix (TrimLeftSpace s)) as [b Hb].
    apply (spaceWidth_prefix _ b). rewrite <- Hb. apply TrimLeftSpace_head.
  - unfold TrimRightSpace. rewrite srev_involutive.
    apply stripWhile_done; [reflexivity|]. rewrite length_srev. lia.
Qed.

(** X5: whatever the text, its normalisation has no three line feeds in
    a row, no line after the first that begins with the bullet ["* "],
    and no white space at its beginning or at its end. *)
Theorem cleanMarkdown_output (s : string) :
  Contains (cleanMarkdown s) (nl ++ nl ++ nl) = false
  /\ Contains (cleanMarkdown s) (nl ++ "* ") = false
  /\ spaceWidth (cleanMarkdown s) = 0
  /\ spaceWidthRev (srev (cleanMarkdown s)) = 0.
Proof.
  destruct (cleanMarkdown_clean s) as [H1 H2].
  repeat split; try assumption;
    rewrite cleanMarkdown_unfold; apply TrimSpace_ends.
Qed.

Lemma length_TrimSpace (s : string) :
  String.length (TrimSpace s) <= String.length s.
Proof.
  destruct (TrimSpace_middle s) as (a & b & E).
  rewrite E at 2. rewrite !length_app. lia.
Qed.

Lemma length_collapseBlankLines (fuel : nat) (s : string) :
  String.length (collapseBlankLines fuel s) <= String.length s.
Proof.
  revert s; induction fuel as [|fuel IH]; intros s; cbn [collapseBlankLines]; [lia|].
  destruct (Contains s (nl ++ nl ++ nl)) eqn:E; [|lia].
  pose proof (ReplaceAll_shrinks s E).
  specialize (IH (ReplaceAll s (nl ++ nl ++ nl) (nl ++ nl))). lia.
Qed.

Lemma length_TrimPrefix (s p : string) :
  String.length (TrimPrefix s p) <= String.length s.
Proof.
  unfold TrimPrefix. destruct (HasPrefix s p); [apply length_drop_le | lia].
Qed.

Lemma length_normalizeBullet (line : string) :
  String.length (normalizeBullet line) <= String.length line.
Proof.
  unfold normalizeBullet.
  destruct (HasPrefix line "* ") eqn:E1; cbn [orb].
  - apply HasPrefix_split in E1 as (r & -> & E).
    unfold TrimPrefix at 2. rewrite HasPrefix_app, E. pose proof (length_TrimPrefix r "- ").
    rewrite !length_app. simpl in *. lia.
  - destruct (HasPrefix line "- ") eqn:E2; [|lia].
    unfold TrimPrefix at 2. rewrite E1. unfold TrimPrefix. rewrite E2.
    apply HasPrefix_split in E2 as (r & -> & E). rewrite E.
    rewrite !length_app. simpl. lia.
Qed.

Lemma length_Join_map (f : string -> string) (ls : list string) (sep : string) :
  (forall l, String.length (f l) <= String.length l) ->
  String.length (Join (map f ls) sep) <= String.length (Join ls sep).
Proof.
  intros Hf. unfold Join. induction ls as [|l ls IH]; [simpl; lia|].
  destruct ls as [|l' ls].
  - simpl. apply Hf.
  - cbn [map String.concat] in *. rewrite !length_app. specialize (Hf l). lia.
Qed.

(** X6: normalisation never makes a text longer. *)
Theorem cleanMarkdown_length (s : string) :
  (len (cleanMarkdown s) <= len s)%Z.
Proof.
  unfold len. apply inj_le. rewrite cleanMarkdown_unfold.
  pose proof (length_TrimSpace (normalizedLines s)) as H1.
  unfold normalizedLines in *.
  pose proof (length_Join_map normalizeBullet
                (Split (collapseBlankLines (String.length s) s) LF) nl
                length_normalizeBullet) as H2.
  rewrite Join_Split in H2.
  pose proof (length_collapseBlankLines (String.length s) s). lia.
Qed.

(** X7: the texts that normalisation leaves as they are, are exactly the
    normal ones. *)
Theorem cleanMarkdown_fixed_points (t : string) :
  cleanMarkdown t = t <-> normalText t.
Proof.
  unfold normalText. split.
  - intros E. destruct (cleanMarkdown_clean t) as [H3 Hb]. rewrite E in H3, Hb.
    assert (Hp : HasPrefix t "* " = false).
    { destruct (HasPrefix t "* ") eqn:Hp; [|reflexivity].
      now destruct (cleanMarkdown_bullet_head t H3 Hp). }
    repeat split; try assumption.
    now rewrite <- (cleanMarkdown_normal t H3 Hb Hp).
  - intros (H3 & Hb & Hp & Ht). now rewrite (cleanMarkdown_normal t H3 Hb Hp).
Qed.

(* ================================================================== *)
(** ** The errors of a run *)

Section Errors.

Context {W : Type} {D : Driver W} {X : Externals}.

Notation "x <- m ;; k" := (bind m (fun x => k))
  (at level 100, m at next level, right associativity).
Notation "m ;; k" := (bind m (fun _ => k))
  (at level 100, right associativity).

Lemma Returns_forEach {R A} P (l : list A) (body : A -> M W R unit) :
  (forall x, Returns P (body x)) -> Returns P (forEach l body).
Proof.
  intros H. induction l as [|x l IH]; cbn [forEach].
  - apply Returns_ret.
  - apply Returns_bind; [apply H | intros _; exact IH].
Qed.

Lemma beginsAs_app (prefixes : list string) (p rest : string) :
  In p prefixes -> beginsAs prefixes (p ++ rest) = true.
Proof.
  intros H. unfold beginsAs. apply existsb_exists. exists p.
  split; [exact H | apply HasPrefix_app].
Qed.

Ltac begins_as :=
  match goal with
  | |- beginsAs _ (?p ++ _) = true => apply beginsAs_app; simpl; tauto
  end.

Lemma bind_Val_inv {R A B} (m : M W R A) (f : A -> M W R B) (w : W) (b : B) :
  outcomeOf (bind m f w) = Val b ->
  exists a, outcomeOf (m w) = Val a /\ outcomeOf (f a (worldOf (m w))) = Val b.
Proof.
  rewrite outcome_bind. destruct (outcomeOf (m w)) as [a|e]; [|discriminate].
  intros H. now exists a.
Qed.

Ltac returns_steps :=
  repeat first
    [ apply Returns_defer
    | apply Returns_forEach; intros ?
    | returns_step ].

(** X8: an error of [handleForm] begins in one of seven ways, each of
    which names the step that failed. *)
Theorem handleForm_errors {R} (config : Config) (isLiveView : bool) (w : W)
    (err : error) :
  outcomeOf (handleForm (R := R) config isLiveView w) = Val (Some err) ->
  beginsAs formErrors err = true.
Proof.
  intros H. rewrite handleForm_parts in H. apply fn_Val_inv in H.
  destruct H as [H | H].
  - apply bind_Val_inv in H as (_ & _ & H).
    apply bind_Val_inv in H as (_ & _ & H). discriminate H.
  - revert H.
    match goal with
    | |- outcomeOf (?body w) = _ -> _ =>
        assert (Hr : Returns (fun r => match r with
                                       | Some e => beginsAs formErrors e = true
                                       | None => True
                                       end) body)
    end.
    { unfold fillField, submitForm. returns_steps; begins_as. }
    intros H. exact (Hr w _ H).
Qed.

(** X9: when [processRequest] returns an error, it returns no text with
    it, and the error begins in one of ten ways, each of which names the
    step that failed: the home directory, the driver service, the
    session, a navigation, the form, the screenshot, the page source or
    the conversion.  A failure of the injected script, a wait that times
    out and a log that cannot be read are not among them. *)
Theorem processRequest_errors {R} (config : Config) (w : W) (out : string)
    (err : error) :
  outcomeOf (processRequest (R := R) config w) = Val (out, Some err) ->
  out = "" /\ beginsAs requestErrors err = true.
Proof.
  intros H. unfold processRequest in H. apply fn_Val_inv in H.
  destruct H as [H | H].
  - exfalso. revert H.
    match goal with
    | |- outcomeOf (?body w) = _ -> _ => assert (Hnv : NoValue body)
    end.
    { repeat (apply NoValue_bind; intros ?). apply NoValue_defer.
      repeat (apply NoValue_bind; intros ?). apply NoValue_defer.
      apply session_NoValue. }
    apply Hnv.
  - revert H.
    match goal with
    | |- outcomeOf (?body w) = _ -> _ =>
        assert (Hr : Returns (fun r => match snd r with
                                       | Some e =>
                                           fst r = "" /\ beginsAs requestErrors e = true
                                       | None => True
                                       end) body)
    end.
    { unfold session, waitAfterScript, assertBool. returns_steps;
        cbn [fst snd]; try exact I; (split; [reflexivity | begins_as]). }
    intros H. exact (Hr w _ H).
Qed.

End Errors.

Module ErrorRuns.

Import Scripted Cases.

Lemma handleForm_errors_witness :
  beginsAs formErrors "could not find input b: no such element" = true.
Proof.
  apply (handleForm_errors (D := driver) (R := unit) threeFields false pageWithoutB).
  vm_compute. reflexivity.
Defined.

Lemma processRequest_errors_witness :
  "" = ""
  /\ beginsAs requestErrors
       "error handling form: could not find input b: no such element" = true.
Proof.
  apply (processRequest_errors (D := driver) (X := externals) (R := unit)
           threeFields pageWithoutB).
  vm_compute. reflexivity.
Defined.

End ErrorRuns.

(* ================================================================== *)
(** ** The panics of a run *)

Section PanicFacts.

Context {W : Type} {D : Driver W} {X : Externals}.

Notation "x <- m ;; k" := (bind m (fun x => k))
  (at level 100, m at next level, right associativity).
Notation "m ;; k" := (bind m (fun _ => k))
  (at level 100, right associativity).

Lemma Panics_ret {R A} P (a : A) : Panics P (ret (W := W) (R := R) a).
Proof. intros w msg H. discriminate. Qed.

Lemma Panics_Return {R A} P (r : R) : Panics P (Return (W := W) (A := A) r).
Proof. intros w msg H. discriminate. Qed.

Lemma Panics_panic {R A} (P : string -> Prop) msg :
  P msg -> Panics P (panic (W := W) (R := R) (A := A) msg).
Proof. intros H w msg' E. injection E as <-. exact H. Qed.

Lemma Panics_call {R A} P (c : Call A) : Panics P (call (R := R) c).
Proof. intros w msg. rewrite outcome_call. discriminate. Qed.

Lemma Panics_bind {R A B} P (m : M W R A) (f : A -> M W R B) :
  Panics P m -> (forall a, Panics P (f a)) -> Panics P (bind m f).
Proof.
  intros Hm Hf w msg. rewrite outcome_bind.
  destruct (outcomeOf (m w)) as [a|e] eqn:E.
  - apply Hf.
  - intros E'. injection E' as ->. now apply (Hm w).
Qed.

Lemma Panics_fn {R A} P (body : M W A A) : Panics P body -> Panics P (fn (R := R) body).
Proof.
  intros H w msg. rewrite outcome_fn.
  destruct (outcomeOf (body w)) as [a|[a|msg']] eqn:E; try discriminate.
  intros E'. injection E' as <-. now apply (H w).
Qed.

Lemma Panics_defer {R A} P (cleanup : Call unit) (body : M W R A) :
  Panics P body -> Panics P (defer cleanup body).
Proof. intros H w msg. rewrite outcome_defer. apply H. Qed.

Lemma Panics_orReturn {R A} P (r : A + error) (f : error -> R) :
  Panics P (orReturn (W := W) r f).
Proof. destruct r; [apply Panics_ret | apply Panics_Return]. Qed.

Lemma Panics_failIf {R} P (e : option error) (f : error -> R) :
  Panics P (failIf (W := W) e f).
Proof. destruct e; [apply Panics_Return | apply Panics_ret]. Qed.

Lemma Panics_forEach {R A} P (l : list A) (body : A -> M W R unit) :
  (forall x, Panics P (body x)) -> Panics P (forEach l body).
Proof.
  intros H. induction l as [|x l IH]; cbn [forEach].
  - apply Panics_ret.
  - apply Panics_bind; [apply H | intros _; exact IH].
Qed.

Lemma Panics_pollLoop {R S} P
    (condition : S -> M W R (S * (bool * option error))) (budget : nat) (s : S) :
  (forall s, Panics P (condition s)) ->
  Panics P (pollLoop condition budget s).
Proof.
  intros Hc. revert s. induction budget as [|budget IH]; intros s;
    cbn [pollLoop]; (apply Panics_bind; [apply Hc|]);
    intros [s' [[|] [err|]]]; try apply Panics_ret.
  - apply Panics_bind; [apply Panics_call | intros ?; apply Panics_ret].
  - apply Panics_bind; [apply Panics_call | intros ?; apply IH].
Qed.

Lemma Panics_WaitWithTimeout {R S} P
    (condition : S -> M W R (S * (bool * option error))) timeout (s : S) :
  (forall s, Panics P (condition s)) ->
  Panics P (WaitWithTimeout condition timeout s).
Proof.
  intros Hc. unfold WaitWithTimeout.
  apply Panics_bind; [apply Panics_call | intros ?; now apply Panics_pollLoop].
Qed.

Lemma truncate_None (markdown text : string) (budget : Z) :
  truncate markdown text budget = None -> (budget < 0)%Z.
Proof.
  unfold truncate. destruct (len markdown >? budget)%Z; [|discriminate].
  destruct (budget <? 0)%Z eqn:E; [lia | discriminate].
Qed.

Lemma Panics_bind_Return {R A B} P (r : R) (f : A -> M W R B) :
  Panics P (bind (Return r) f).
Proof. intros w msg H. discriminate. Qed.

Ltac panics_step :=
  match goal with
  | |- Panics _ (bind (Return _) _) => apply Panics_bind_Return
  | |- Panics _ (ret _) => apply Panics_ret
  | |- Panics _ (Return _) => apply Panics_Return
  | |- Panics _ (call _) => apply Panics_call
  | |- Panics _ (Printf _) => apply Panics_call
  | |- Panics _ (Println _) => apply Panics_call
  | |- Panics _ (fn _) => apply Panics_fn
  | |- Panics _ (handleForm _ _) => apply Panics_fn
  | |- Panics _ (waitForFunction _ _) => apply Panics_fn
  | |- Panics _ (waitForSelector _ _) => apply Panics_fn
  | |- Panics _ (getFirefoxPath) => apply Panics_fn
  | |- Panics _ (getGeckodriverPath) => apply Panics_fn
  | |- Panics _ (urlChangedCondition _ _) => apply Panics_fn
  | |- Panics _ (selectorCondition _ _) => apply Panics_fn
  | |- Panics _ (functionCondition _ _) => apply Panics_fn
  | |- Panics _ (defer _ _) => apply Panics_defer
  | |- Panics _ (forEach _ _) => apply Panics_forEach; intros ?
  | |- Panics _ (bind _ _) => apply Panics_bind; [|intros ?]
  | |- Panics _ (orReturn _ _) => apply Panics_orReturn
  | |- Panics _ (failIf _ _) => apply Panics_failIf
  | |- Panics _ (WaitWithTimeout _ _ _) => apply Panics_WaitWithTimeout; intros ?
  | |- Panics _ (match truncate ?m ?t ?b with _ => _ end) =>
      let E := fresh "Htruncate" in
      destruct (truncate m t b) eqn:E; [|apply truncate_None in E]
  | |- Panics _ (let _ := _ in _) => cbv zeta
  | |- Panics _ (if ?b then _ else _) => destruct b eqn:?
  | |- Panics _ (match ?x with _ => _ end) => destruct x
  end.

Lemma processRequest_Panics {R} (config : Config) :
  Panics (fun msg => msg = conversionPanic
                     \/ (msg = slicePanic /\ (TruncateAfter config < 0)%Z
                         /\ RawFlag config = false))
    (processRequest (R := R) config).
Proof.
  unfold processRequest, session, waitAfterScript, assertBool.
  destruct (RawFlag config) eqn:Hraw; cbv iota;
    repeat panics_step;
    first [ apply Panics_panic; left; reflexivity
          | apply Panics_panic; right; split; [reflexivity | split; [assumption | reflexivity]] ].
Qed.

(** X10: the program panics in two places only: where it takes the
    answer of the LiveView detection script for a boolean, and where it
    cuts the text at the budget, which panics only when the budget is
    negative and the output is not raw.  Neither the waits nor the form
    handling can panic. *)
Theorem processRequest_panics {R} (config : Config) (w : W) (msg : string) :
  outcomeOf (processRequest (R := R) config w) = Stop (Panicked msg) ->
  msg = conversionPanic
  \/ (msg = slicePanic /\ (TruncateAfter config < 0)%Z /\ RawFlag config = false).
Proof. apply processRequest_Panics. Qed.

(** The form handling cannot panic. *)
Lemma handleForm_no_panic {R} (config : Config) (isLiveView : bool) :
  Panics (fun _ => False) (handleForm (R := R) config isLiveView).
Proof. unfold handleForm. repeat panics_step. Qed.

End PanicFacts.

Module PanicRuns.

Import Scripted Cases.

Lemma processRequest_panics_witness :
  slicePanic = conversionPanic
  \/ (slicePanic = slicePanic /\ (TruncateAfter negativeBudget < 0)%Z
      /\ RawFlag negativeBudget = false).
Proof.
  apply (processRequest_panics (D := driver) (X := externals) (R := unit)
           negativeBudget (page "<p>text</p>")).
  vm_compute. reflexivity.
Defined.

End PanicRuns.

(* ================================================================== *)
(** ** Set-up and release *)

Section Release.

Context {W : Type} {D : Driver W} {X : Externals}.

Notation "x <- m ;; k" := (bind m (fun x => k))
  (at level 100, m at next level, right associativity).
Notation "m ;; k" := (bind m (fun _ => k))
  (at level 100, right associativity).

Lemma getFirefoxPath_total {R} (w : W) :
  exists path, outcomeOf (getFirefoxPath (R := R) w) = Val path.
Proof.
  unfold getFirefoxPath. rewrite outcome_fn, outcome_bind, outcome_call.
  destruct (fst (handle (LookPath "firefox") w)) as [path|err];
    rewrite outcome_bind; cbn [Return ret outcomeOf fst]; [now exists path|].
  rewrite outcome_bind, outcome_call. cbv zeta.
  destruct (GOOS =? "darwin"); [eexists; reflexivity|].
  destruct (GOOS =? "linux"); eexists; reflexivity.
Qed.

Lemma getGeckodriverPath_total {R} (w : W) :
  exists path, outcomeOf (getGeckodriverPath (R := R) w) = Val path.
Proof.
  unfold getGeckodriverPath. rewrite outcome_fn, outcome_bind, outcome_call.
  destruct (fst (handle (LookPath "geckodriver") w)) as [path|err];
    rewrite outcome_bind; cbn [Return ret outcomeOf fst]; [now exists path|].
  rewrite outcome_bind, outcome_call. eexists; reflexivity.
Qed.

Lemma getFirefoxPath_calls {R} :
  Emits (fun ev => pathCall ev = true) (getFirefoxPath (R := R)).
Proof. unfold getFirefoxPath. repeat emits_step. Qed.

Lemma getGeckodriverPath_calls {R} :
  Emits (fun ev => pathCall ev = true) (getGeckodriverPath (R := R)).
Proof. unfold getGeckodriverPath. repeat emits_step. Qed.

Ltac run_step :=
  rewrite ?trace_fn, ?outcome_fn, ?trace_defer, ?outcome_defer,
    ?trace_bind, ?outcome_bind, ?world_bind,
    ?trace_call, ?outcome_call, ?world_call.

Lemma processRequest_runs {R} (config : Config) (w : W) :
  let base := ensureProtocol (URL config) in
  let run := processRequest (R := R) config w in
  exists setup,
    Forall (fun ev => pathCall ev = true) setup
    /\ ((exists err,
           traceOf run = setup
           /\ outcomeOf run = Val ("", Some ("could not get home directory: " ++ err)))
        \/ (exists path err,
              traceOf run
              = (setup ++ [Ev (NewGeckoDriverService path 4444) (Some err)])%list
              /\ outcomeOf run
                 = Val ("", Some ("could not start geckodriver service: " ++ err)))
        \/ (exists path firefox home e err u,
              let dir := profileDirectory home config in
              traceOf run
              = (setup ++ [Ev (NewGeckoDriverService path 4444) None;
                           Ev (MkdirAll dir) e;
                           Ev (NewRemote (firefoxCapabilities firefox dir)
                                 "http://localhost:4444") (Some err);
                           Ev ServiceStop u])%list
              /\ outcomeOf run
                 = Val ("", Some ("could not create webdriver: " ++ err)))
        \/ (exists path firefox home e w0 u1 u2,
              let dir := profileDirectory home config in
              traceOf run
              = (setup ++ [Ev (NewGeckoDriverService path 4444) None;
                           Ev (MkdirAll dir) e;
                           Ev (NewRemote (firefoxCapabilities firefox dir)
                                 "http://localhost:4444") None]
                 ++ traceOf (session (R := string * option error) config base w0)
                 ++ [Ev Quit u1; Ev ServiceStop u2])%list
              /\ outcomeOf run
                 = outcomeOf (fn (R := R) (session config base) w0))).
Proof.
  intros base run. subst run.
  unfold processRequest. cbv zeta. fold base.
  rewrite trace_fn, outcome_fn.
  unfold error in *.
  rewrite trace_bind, outcome_bind.
  match goal with
  | |- context [outcomeOf (?m w)] =>
      let H := fresh in
      assert (H : exists p, outcomeOf (m w) = Val p)
        by apply getFirefoxPath_total;
      destruct H as [p1 E1];
      assert (T1 : Forall (fun ev => pathCall ev = true) (traceOf (m w)))
        by apply getFirefoxPath_calls;
      rewrite E1;
      set (w1 := worldOf (m w)) in *;
      set (t1 := traceOf (m w)) in *
  end.
  rewrite trace_bind, outcome_bind.
  match goal with
  | |- context [outcomeOf (?m w1)] =>
      let H := fresh in
      assert (H : exists p, outcomeOf (m w1) = Val p)
        by apply getGeckodriverPath_total;
      destruct H as [p2 E2];
      assert (T2 : Forall (fun ev => pathCall ev = true) (traceOf (m w1)))
        by apply getGeckodriverPath_calls;
      rewrite E2;
      set (w2 := worldOf (m w1)) in *;
      set (t2 := traceOf (m w1)) in *
  end.
  rewrite trace_bind, outcome_bind, outcome_call, trace_call, world_call.
  unfold error in *.
  match goal with
  | |- context [@handle ?W0 ?D0 ?A ?c w2] =>
      destruct (@handle W0 D0 A c w2) as [[home|err] w3]
  end; cbn [fst snd orReturn];
    rewrite trace_bind, outcome_bind;
    cbn [ret Return outcomeOf traceOf worldOf fst snd].
  2:{ exists (t1 ++ t2 ++ [Ev UserHomeDir (inr err)])%list. split.
      { repeat (apply Forall_app; split; try assumption). now constructor. }
      left. exists err. rewrite !List.app_nil_r. split; reflexivity. }
  exists (t1 ++ t2 ++ [Ev UserHomeDir (inl home)])%list. split.
  { repeat (apply Forall_app; split; try assumption). now constructor. }
  right. cbn [List.app].
  rewrite trace_bind, outcome_bind, outcome_call, trace_call, world_call.
  unfold error in *.
  match goal with
  | |- context [@handle ?W0 ?D0 ?A ?c w3] =>
      destruct (@handle W0 D0 A c w3) as [[err|] w4]
  end; cbn [fst snd failIf];
    rewrite trace_bind, outcome_bind;
    cbn [ret Return outcomeOf traceOf worldOf fst snd].
  { left. exists p2, err. rewrite !List.app_nil_r.
    rewrite <- !List.app_assoc. split; reflexivity. }
  right. cbn [List.app].
  rewrite trace_defer, outcome_defer.
  rewrite trace_bind, outcome_bind, outcome_call, trace_call, world_call.
  fold (profileDirectory home config).
  set (dir := profileDirectory home config).
  unfold error in *.
  match goal with
  | |- context [@handle ?W0 ?D0 ?A ?c w4] =>
      destruct (@handle W0 D0 A c w4) as [e w5]
  end; cbn [fst snd].
  rewrite trace_bind, outcome_bind, outcome_call, trace_call, world_call.
  change ("http://localhost:" ++ Itoa 4444) with "http://localhost:4444".
  match goal with
  | |- context [handle ServiceStop ?w'] =>
      generalize (fst (handle ServiceStop w')); intros u2
  end.
  unfold error in *.
  match goal with
  | |- context [@handle ?W0 ?D0 ?A (NewRemote ?c ?url) w5] =>
      change c with (firefoxCapabilities p1 dir);
      destruct (@handle W0 D0 A (NewRemote (firefoxCapabilities p1 dir) url) w5)
        as [[err|] w6]
  end; cbn [fst snd failIf];
    rewrite trace_bind, outcome_bind;
    cbn [ret Return outcomeOf traceOf worldOf fst snd].
  { left. exists p2, p1, home, e, err, u2. rewrite !List.app_nil_r.
    rewrite <- !List.app_assoc. split; reflexivity. }
  right. cbn [List.app].
  rewrite trace_defer, outcome_defer.
  match goal with
  | |- context [handle Quit ?w'] =>
      generalize (fst (handle Quit w')); intros u1
  end.
  exists p2, p1, home, e, w6, u1, u2.
  split.
  - rewrite <- !List.app_assoc. reflexivity.
  - now rewrite outcome_fn.
Qed.


Lemma session_quiet {R} (config : Config) (baseURL : string) :
  Emits (fun ev => setupCall ev = false) (session (R := R) config baseURL).
Proof.
  unfold session, handleForm, waitAfterScript, waitForSelector, waitForFunction,
    selectorCondition, functionCondition, urlChangedCondition, assertBool.
  repeat first [ apply Emits_forEach; intros ? | emits_step ].
Qed.

Lemma setupCall_quiet (ev : Event) : setupCall ev = false -> quiet ev = true.
Proof. destruct ev as [R0 c r]. now destruct c. Qed.

Lemma pathCall_quiet (ev : Event) : pathCall ev = true -> quiet ev = true.
Proof. destruct ev as [R0 c r]. now destruct c. Qed.

Lemma pathCall_setupCall (ev : Event) : pathCall ev = true -> setupCall ev = true.
Proof. destruct ev as [R0 c r]. now destruct c. Qed.

(** X11: what the program acquires it releases, once, at the very end
    and in reverse order, however the run ends - with a result, with an
    error or in a panic.  A run acquires nothing and releases nothing;
    or it starts the driver service, and then its last call stops the
    service; or it also opens the session, and then its last two calls
    quit the session and stop the service.  No other call of the run
    starts, opens, quits or stops anything. *)
Theorem processRequest_releases {R} (config : Config) (w : W) :
  let t := traceOf (processRequest (R := R) config w) in
  exists calls,
    Forall (fun ev => quiet ev = true) calls
    /\ (t = calls
        \/ (exists path port calls' u,
              t = (calls ++ Ev (NewGeckoDriverService path port) None
                         :: calls' ++ [Ev ServiceStop u])%list
              /\ Forall (fun ev => quiet ev = true) calls')
        \/ (exists path port calls' caps url calls'' u1 u2,
              t = (calls ++ Ev (NewGeckoDriverService path port) None
                         :: calls' ++ Ev (NewRemote caps url) None
                         :: calls'' ++ [Ev Quit u1; Ev ServiceStop u2])%list
              /\ Forall (fun ev => quiet ev = true) calls'
              /\ Forall (fun ev => quiet ev = true) calls'')).
Proof.
  intros t. subst t.
  destruct (processRequest_runs (R := R) config w) as (setup & Hs & H).
  assert (Hq : Forall (fun ev => quiet ev = true) setup).
  { eapply Forall_impl; [|exact Hs]. apply pathCall_quiet. }
  destruct H as [(err & -> & _) | [(path & err & -> & _) |
                 [(path & firefox & home & e & err & u & Ht & _) |
                  (path & firefox & home & e & w0 & u1 & u2 & Ht & _)]]].
  - exists setup. split; [exact Hq | now left].
  - eexists. split; [|left; reflexivity].
    apply Forall_app; split; [exact Hq | now repeat constructor].
  - exists setup. split; [exact Hq|]. right. left. cbv zeta in Ht. rewrite Ht.
    eexists _, _, [_; _], _. split; [reflexivity | now repeat constructor].
  - exists setup. split; [exact Hq|]. right. right. cbv zeta in Ht. rewrite Ht.
    eexists _, _, [_], _, _, _, _, _. split; [reflexivity|].
    split; [now repeat constructor|].
    eapply Forall_impl; [|apply session_quiet]. apply setupCall_quiet.
Qed.

End Release.


(* ================================================================== *)
(** ** The result of a session *)

Section SessionResults.

Context {W : Type} {D : Driver W} {X : Externals}.

Notation "x <- m ;; k" := (bind m (fun x => k))
  (at level 100, m at next level, right associativity).
Notation "m ;; k" := (bind m (fun _ => k))
  (at level 100, right associativity).

(** The first call that is not a set-up call is where it is. *)
Lemma first_other_call (P : Event -> bool) (l1 l2 r1 r2 : list Event) (x y : Event) :
  Forall (fun ev => P ev = true) l1 -> Forall (fun ev => P ev = true) l2 ->
  P x = false -> P y = false ->
  (l1 ++ x :: r1 = l2 ++ y :: r2)%list ->
  l1 = l2 /\ x = y /\ r1 = r2.
Proof.
  intros H1. revert l2. induction H1 as [|a l1 Ha _ IH]; intros l2 H2 Hx Hy E.
  - destruct H2 as [|b l2 Hb _]; cbn [List.app] in E.
    + injection E as -> ->. auto.
    + injection E as -> _. congruence.
  - destruct H2 as [|b l2 Hb H2]; cbn [List.app] in E.
    + injection E as -> _. congruence.
    + injection E as -> E. destruct (IH l2 H2 Hx Hy E) as (-> & -> & ->). auto.
Qed.

Lemma session_navigation {R} (config : Config) (baseURL : string) (w : W) :
  exists rest,
    traceOf (session (R := R) config baseURL w)
    = Ev (Get baseURL) (fst (handle (Get baseURL) w)) :: rest
    /\ forall err,
         fst (handle (Get baseURL) w) = Some err ->
         rest = []
         /\ outcomeOf (session (R := R) config baseURL w)
            = Stop (Returned ("", Some ("could not navigate to " ++ baseURL
                                        ++ ": " ++ err))).
Proof.
  unfold session. rewrite trace_bind, outcome_bind, outcome_call, trace_call, world_call.
  eexists. split; [reflexivity|].
  intros err E. rewrite trace_bind, outcome_bind.
  unfold error in *. rewrite E.
  cbn [failIf ret Return outcomeOf traceOf worldOf fst snd]. auto.
Qed.

(** X12: a failure of the navigation to the base URL ends the run: the
    error names the URL and gives the driver's reason, and the only
    calls that follow close the session and stop the service.  Nothing
    is injected, submitted, captured or read from the page. *)
Theorem base_navigation_failure {R} (config : Config) (w : W)
    (setup rest : list Event) (err : error) :
  let base := ensureProtocol (URL config) in
  let run := processRequest (R := R) config w in
  Forall (fun ev => setupCall ev = true) setup ->
  traceOf run = (setup ++ Ev (Get base) (Some err) :: rest)%list ->
  outcomeOf run
  = Val ("", Some ("could not navigate to " ++ base ++ ": " ++ err))
  /\ exists u1 u2, rest = [Ev Quit u1; Ev ServiceStop u2].
Proof.
  intros base run Hsetup Ht. subst run.
  destruct (processRequest_runs (R := R) config w) as (setup0 & Hs & H).
  fold base in H.
  assert (Hq : Forall (fun ev => setupCall ev = true) setup0).
  { eapply Forall_impl; [|exact Hs]. apply pathCall_setupCall. }
  assert (Hno : forall l, Forall (fun ev => setupCall ev = true) l ->
                  traceOf (processRequest (R := R) config w) <> l).
  { intros l Hl E. rewrite Ht in E. rewrite <- E in Hl.
    apply Forall_app in Hl as [_ Hl]. inversion Hl as [|? ? Hg _]. discriminate Hg. }
  destruct H as [(e0 & E & _) | [(path & e0 & E & _) |
                 [(path & firefox & home & e & e0 & u & E & _) |
                  (path & firefox & home & e & w0 & u1 & u2 & E & Ho)]]].
  - now destruct (Hno setup0 Hq).
  - exfalso. eapply Hno; [|exact E].
    apply Forall_app; split; [exact Hq | now repeat constructor].
  - exfalso. cbv zeta in E. eapply Hno; [|exact E].
    apply Forall_app; split; [exact Hq | now repeat constructor].
  - cbv zeta in E.
    destruct (session_navigation (R := string * option error) config base w0)
      as (rest0 & Es & Hfail).
    rewrite Es in E. rewrite Ht in E.
    rewrite List.app_assoc in E. cbn [List.app] in E.
    apply (first_other_call setupCall) in E as (_ & Eev & Er);
      [ | exact Hsetup
        | apply Forall_app; split; [exact Hq | now repeat constructor]
        | reflexivity | reflexivity ].
    apply (f_equal navigationAnswer) in Eev. cbn [navigationAnswer] in Eev.
    injection Eev as Eev. symmetry in Eev.
    destruct (Hfail err Eev) as [-> Hout].
    split.
    + rewrite Ho, outcome_fn, Hout. reflexivity.
    + now exists u1, u2.
Qed.

Ltac only_errors :=
  apply (Ends_Returns _ (fun r : string * option error => snd r <> None));
  [ unfold waitAfterScript, assertBool; repeat returns_step; cbn; discriminate
  | intros ? Hne Hnone; contradiction ].

Ltac to_page_source :=
  repeat match goal with
         | |- Ends _ (bind (call PageSource) _) => fail 1
         | |- Ends _ (bind _ _) => apply Ends_bind; [only_errors | intros ?]
         end.

Lemma session_text {R} (config : Config) (baseURL : string) :
  RawFlag config = false ->
  Ends (textEnd config baseURL) (session (R := R) config baseURL).
Proof.
  intros Hraw. unfold session. rewrite Hraw. to_page_source.
  intros w r. unfold textEnd, outcomeOf, traceOf, bind, call.
  destruct (handle PageSource w) as [[content|err] w1];
    cbn -[cleanMarkdown truncate assemble collectBrowser collectCaptured].
  - destruct (handle (ExecuteScript capturedLogsScript) w1) as [r1 w2].
    destruct (handle (Log "browser") w2) as [r2 w3].
    cbn -[cleanMarkdown truncate assemble collectBrowser collectCaptured].
    destruct (html2text_FromString content) as [text|err] eqn:Etext;
      cbn -[cleanMarkdown truncate assemble collectBrowser collectCaptured].
    + destruct (truncate (cleanMarkdown text) text (TruncateAfter config))
        as [markdown|] eqn:Etr;
        cbn -[cleanMarkdown truncate assemble collectBrowser collectCaptured];
        [|discriminate].
      intros E. injection E as <-. eexists [], _. split; [reflexivity|].
      intros _. exists content, r1, r2, text, markdown. auto.
    + intros E. injection E as <-. eexists _, []. split.
      * now rewrite List.app_nil_r.
      * discriminate.
  - intros E. injection E as <-. eexists _, []. split.
    + now rewrite List.app_nil_r.
    + discriminate.
Qed.

(** X13: the text of a successful run that is not raw is made of what
    the run read last: the page source, converted to text, normalised
    and cut at the budget, under the header of the base URL, and
    followed by the console section built from the two logs, which the
    run reads after the page source.  After these three reads the run
    only closes the session and stops the service. *)
Theorem text_of_a_run {R} (config : Config) (w : W) (out : string) :
  let base := ensureProtocol (URL config) in
  let run := processRequest (R := R) config w in
  RawFlag config = false ->
  outcomeOf run = Val (out, None) ->
  exists pre content r1 r2 text markdown u1 u2,
    traceOf run
    = (pre ++ [Ev PageSource (inl content);
               Ev (ExecuteScript capturedLogsScript) r1;
               Ev (Log "browser") r2;
               Ev Quit u1; Ev ServiceStop u2])%list
    /\ html2text_FromString content = inl text
    /\ truncate (cleanMarkdown text) text (TruncateAfter config) = Some markdown
    /\ out = assemble base markdown (collectBrowser r2 (collectCaptured r1 [])).
Proof.
  intros base run Hraw Hout. subst run.
  destruct (processRequest_runs (R := R) config w) as (setup0 & Hs & H).
  fold base in H.
  destruct H as [(e0 & _ & E) | [(path & e0 & _ & E) |
                 [(path & firefox & home & e & e0 & u & _ & E) |
                  (path & firefox & home & e & w0 & u1 & u2 & Et & Eo)]]];
    try (rewrite E in Hout; discriminate Hout).
  cbv zeta in Et. rewrite Eo in Hout. apply fn_Val_inv in Hout.
  destruct Hout as [Hv | Hr]; [now apply session_NoValue in Hv|].
  destruct (session_text config base Hraw w0 _ Hr) as (pre & suf & Ets & Hq).
  destruct (Hq eq_refl) as (content & r1 & r2 & text & markdown & -> & H1 & H2 & H3).
  exists (setup0 ++ [Ev (NewGeckoDriverService path 4444) None;
                     Ev (MkdirAll (profileDirectory home config)) e;
                     Ev (NewRemote (firefoxCapabilities firefox
                                      (profileDirectory home config))
                           "http://localhost:4444") None] ++ pre)%list.
  exists content, r1, r2, text, markdown, u1, u2.
  split; [|now repeat split].
  rewrite Et, Ets. rewrite <- !List.app_assoc. cbn [List.app]. reflexivity.
Qed.

End SessionResults.

Module SessionRuns.

Import Scripted Cases.

Lemma base_navigation_failure_witness :
  outcomeOf (processRequest (D := Offline.driver) (X := externals) (R := unit)
               (config "example.com") (page ""))
  = Val ("", Some ("could not navigate to http://example.com: "
                   ++ "Reached error page: about:neterror")).
Proof.
  refine (proj1 (base_navigation_failure (D := Offline.driver) (X := externals)
                   (R := unit) (config "example.com") (page "")
                   (firstn 6 (traceOf (processRequest
                                         (D := Offline.driver) (X := externals)
                                         (R := unit)
                                         (config "example.com") (page ""))))
                   (skipn 7 (traceOf (processRequest
                                        (D := Offline.driver) (X := externals)
                                        (R := unit)
                                        (config "example.com") (page ""))))
                   "Reached error page: about:neterror" _ _)).
  - vm_compute. repeat constructor.
  - vm_compute. reflexivity.
Defined.

Lemma text_of_a_run_witness :
  exists pre content r1 r2 text markdown u1 u2,
    traceOf (processRequest (D := driver) (X := externals) (R := unit)
               budgetTwo (page "abcdef"))
    = (pre ++ [Ev PageSource (inl content);
               Ev (ExecuteScript capturedLogsScript) r1;
               Ev (Log "browser") r2;
               Ev Quit u1; Ev ServiceStop u2])%list
    /\ html2text_FromString content = inl text
    /\ truncate (cleanMarkdown text) text (TruncateAfter budgetTwo) = Some markdown
    /\ "==========================" ++ nl ++ "http://example.com" ++ nl
       ++ "==========================" ++ nl ++ nl ++ "ab" ++ nl ++ nl
       ++ "... (output truncated after 2 chars, full content was 6 chars)"
       = assemble "http://example.com" markdown
           (collectBrowser r2 (collectCaptured r1 [])).
Proof.
  apply (text_of_a_run (D := driver) (X := externals) (R := unit)
           budgetTwo (page "abcdef")).
  - reflexivity.
  - vm_compute. reflexivity.
Defined.

End SessionRuns.

(* ================================================================== *)
(** ** The wait for an element *)

Section SelectorWait.

Context {W : Type} {D : Driver W} {X : Externals}.

Notation "x <- m ;; k" := (bind m (fun x => k))
  (at level 100, m at next level, right associativity).
Notation "m ;; k" := (bind m (fun _ => k))
  (at level 100, right associativity).

Lemma selectorCondition_run {R} (selector : string) (w : W) :
  let r := fst (handle (FindElement selector) w) in
  outcomeOf (selectorCondition (R := R) selector tt w)
  = Val (tt, (match r with inl _ => true | inr _ => false end, None))
  /\ traceOf (selectorCondition (R := R) selector tt w)
     = [Ev (FindElement selector) r]
  /\ worldOf (selectorCondition (R := R) selector tt w)
     = snd (handle (FindElement selector) w).
Proof.
  unfold selectorCondition.
  rewrite outcome_fn, trace_fn, world_fn, outcome_bind, trace_bind, world_bind,
    outcome_call, trace_call, world_call.
  destruct (fst (handle (FindElement selector) w)); cbn; auto.
Qed.

Lemma pollLoop_selector {R} (selector : string) (budget : nat) (w : W) :
  let run := pollLoop (R := R) (selectorCondition selector) budget tt w in
  exists polls,
    Forall (fun ev => missedLookup selector ev = true) polls
    /\ ((outcomeOf run = Val (tt, None)
         /\ exists elem,
              traceOf run = (polls ++ [Ev (FindElement selector) (inl elem)])%list)
        \/ (exists elapsed,
              outcomeOf run = Val (tt, Some ("timeout after " ++ elapsed))
              /\ traceOf run = polls)).
Proof.
  cbv zeta. revert w. induction budget as [|n IH]; intros w; cbn [pollLoop];
    destruct (selectorCondition_run (R := R) selector w) as (Eo & Et & Ew);
    cbv zeta in Eo, Et; rewrite outcome_bind, trace_bind, Eo, Et;
    destruct (fst (handle (FindElement selector) w)) as [elem|err] eqn:Ef.
  - exists []. split; [constructor|]. left. split; [reflexivity|].
    exists elem. reflexivity.
  - rewrite outcome_bind, trace_bind, outcome_call, trace_call.
    eexists. split; [|right; eexists; split; reflexivity].
    repeat constructor. cbn. now rewrite String.eqb_refl.
  - exists []. split; [constructor|]. left. split; [reflexivity|].
    exists elem. reflexivity.
  - rewrite outcome_bind, trace_bind, outcome_call, trace_call.
    match goal with
    | |- context [pollLoop _ n tt ?w'] => destruct (IH w') as (polls & Hp & H)
    end.
    exists (Ev (FindElement selector) (inr err)
              :: Ev (Sleep DefaultWaitInterval)
                   (fst (handle (Sleep DefaultWaitInterval)
                           (worldOf (selectorCondition (R := R) selector tt w))))
              :: polls).
    split.
    { constructor; [cbn; now rewrite String.eqb_refl|].
      constructor; [reflexivity | exact Hp]. }
    destruct H as [(Ho & elem & Ht) | (elapsed & Ho & Ht)].
    + left. split; [exact Ho|]. exists elem. now rewrite Ht.
    + right. exists elapsed. split; [exact Ho|]. now rewrite Ht.
Qed.

(** X14: the wait for an element ends with [nil] exactly when a look-up
    of the selector succeeds, and that look-up is then its last call;
    otherwise it ends with the timeout error.  The error of a look-up
    that fails is never reported: it only means "not there yet". *)
Theorem waitForSelector_result {R} (selector : string) (timeout : Duration) (w : W) :
  let run := waitForSelector (R := R) selector timeout w in
  exists budget polls,
    Forall (fun ev => missedLookup selector ev = true) polls
    /\ ((outcomeOf run = Val None
         /\ exists elem,
              traceOf run
              = (Ev (PollBudget timeout) budget
                   :: polls ++ [Ev (FindElement selector) (inl elem)])%list)
        \/ (exists elapsed,
              outcomeOf run = Val (Some ("timeout after " ++ elapsed))
              /\ traceOf run = Ev (PollBudget timeout) budget :: polls)).
Proof.
  cbv zeta. unfold waitForSelector, WaitWithTimeout.
  rewrite outcome_fn, trace_fn, !outcome_bind, !trace_bind, outcome_call,
    trace_call, world_call.
  destruct (pollLoop_selector (R := option error) selector
              (fst (handle (PollBudget timeout) w))
              (snd (handle (PollBudget timeout) w)))
    as (polls & Hp & H).
  cbv zeta in H.
  exists (fst (handle (PollBudget timeout) w)), polls. split; [exact Hp|].
  destruct H as [(Ho & elem & Ht) | (elapsed & Ho & Ht)]; rewrite Ho, Ht;
    cbn [ret outcomeOf traceOf fst snd]; rewrite List.app_nil_r.
  - left. split; [reflexivity|]. exists elem.
    match goal with
    | |- match ?x with _ => _ end = _ => destruct x; reflexivity
    end.
  - right. exists elapsed. split; [reflexivity|].
    match goal with
    | |- match ?x with _ => _ end = _ => destruct x; reflexivity
    end.
Qed.

End SelectorWait.

(* ================================================================== *)
(** ** Pages that are not LiveView pages *)

Section StaticPages.

Context {W : Type} {D : Driver W} {X : Externals}.

Notation "x <- m ;; k" := (bind m (fun x => k))
  (at level 100, m at next level, right associativity).
Notation "m ;; k" := (bind m (fun _ => k))
  (at level 100, right associativity).

Ltac by_calls :=
  match goal with
  | |- Forall ?P (traceOf (?m ?w)) =>
      let He := fresh in
      assert (He : Emits P m); [|exact (He w)]
  end.

Lemma session_static {R} (config : Config) (baseURL : string) (w : W) :
  JSCode config = "" ->
  existsb liveViewDetected (traceOf (session (R := R) config baseURL w)) = false ->
  Forall (fun ev => waits ev = false) (traceOf (session (R := R) config baseURL w)).
Proof.
  intros Hjs. unfold session. rewrite Hjs. cbn [String.eqb negb].
  rewrite trace_bind, outcome_call, trace_call, world_call.
  unfold error in *.
  match goal with
  | |- context [@handle ?W0 ?D0 ?A ?c w] =>
      destruct (@handle W0 D0 A c w) as [[err|] w1]
  end; cbn [fst snd failIf]; rewrite trace_bind;
    cbn [ret Return outcomeOf traceOf worldOf fst snd List.app].
  { intros _. now repeat constructor. }
  rewrite trace_bind, outcome_call, trace_call, world_call.
  unfold error in *.
  match goal with
  | |- context [@handle ?W0 ?D0 ?A ?c w1] =>
      destruct (@handle W0 D0 A c w1) as [r1 w2]
  end; cbn [fst snd List.app].
  match goal with
  | |- context [bind _ ?k0 w2] => set (k := k0)
  end.
  rewrite trace_bind.
  assert (Hk : forall w3,
             existsb liveViewDetected (traceOf (k tt w3)) = false ->
             Forall (fun ev => waits ev = false) (traceOf (k tt w3))).
  { intros w3. unfold k.
    rewrite trace_bind, outcome_call, trace_call, world_call.
    unfold error in *.
    match goal with
    | |- context [@handle ?W0 ?D0 ?A ?c w3] =>
        destruct (@handle W0 D0 A c w3) as [r2 w4]
    end; cbn [fst snd List.app existsb liveViewDetected].
    rewrite String.eqb_refl. cbn [andb].
    rewrite trace_bind.
    destruct r2 as [[|b|n|s|l|m]|err];
      cbn [assertBool ret panic outcomeOf traceOf worldOf fst snd List.app orb];
      try (intros _; now repeat constructor).
    - destruct b; cbn [orb]; [discriminate|]. intros _.
      constructor; [reflexivity|]. unfold handleForm. by_calls.
      repeat first [ apply Emits_forEach; intros ? | emits_step ].
    - intros _. constructor; [reflexivity|]. unfold handleForm. by_calls.
      repeat first [ apply Emits_forEach; intros ? | emits_step ]. }
  clearbody k. cbn [existsb liveViewDetected].
  change (consoleCaptureScript =? detectLiveViewScript) with false.
  cbn [andb orb].
  destruct r1 as [v|err]; unfold Printf;
    rewrite ?outcome_call, ?trace_call, ?world_call;
    cbn [ret outcomeOf traceOf worldOf fst snd List.app existsb liveViewDetected orb];
    intros H; (constructor; [reflexivity|]); (constructor; [reflexivity|]).
  - now apply Hk.
  - destruct (fst (handle _ w2)). constructor; [reflexivity|]. now apply Hk.
Qed.

(** X15: on a page that is not detected as a LiveView page, a run with
    no script to inject never waits: it starts no bounded wait and never
    sleeps, not even after it has submitted a form - the page source is
    read as soon as the form is submitted. *)
Theorem static_page_is_not_awaited {R} (config : Config) (w : W) :
  let t := traceOf (processRequest (R := R) config w) in
  JSCode config = "" ->
  existsb liveViewDetected t = false ->
  Forall (fun ev => waits ev = false) t.
Proof.
  intros t Hjs. subst t.
  destruct (processRequest_runs (R := R) config w) as (setup & Hs & H).
  assert (Hq : Forall (fun ev => waits ev = false) setup).
  { eapply Forall_impl; [|exact Hs].
    intros [R0 c r]. now destruct c. }
  destruct H as [(err & -> & _) | [(path & err & -> & _) |
                 [(path & firefox & home & e & err & u & Ht & _) |
                  (path & firefox & home & e & w0 & u1 & u2 & Ht & _)]]];
    cbv zeta in *; try rewrite Ht; intros Hd.
  - exact Hq.
  - apply Forall_app; split; [exact Hq | now repeat constructor].
  - apply Forall_app; split; [exact Hq | now repeat constructor].
  - rewrite !existsb_app in Hd.
    apply orb_false_iff in Hd as [_ Hd].
    apply orb_false_iff in Hd as [_ Hd].
    apply orb_false_iff in Hd as [Hd _].
    repeat (apply Forall_app; split); try exact Hq; try now repeat constructor.
    now apply session_static.
Qed.

End StaticPages.

Module StaticRuns.

Import Scripted Cases.

Lemma static_page_is_not_awaited_witness :
  Forall (fun ev => waits ev = false)
    (traceOf (processRequest (D := driver) (X := externals) (R := unit)
                threeFields (page "<form id='f'></form>"))).
Proof.
  apply (static_page_is_not_awaited (D := driver) (X := externals) (R := unit)
           threeFields (page "<form id='f'></form>"));
    vm_compute; reflexivity.
Defined.

End StaticRuns.

(* ================================================================== *)
(** ** The wait after an injected script *)

Section ScriptWait.

Context {W : Type} {D : Driver W} {X : Externals}.

Notation "x <- m ;; k" := (bind m (fun x => k))
  (at level 100, m at next level, right associativity).
Notation "m ;; k" := (bind m (fun _ => k))
  (at level 100, right associativity).

Lemma Completes_ret {R A} (a : A) : Completes (ret (W := W) (R := R) a).
Proof. intros w. now exists a. Qed.

Lemma Completes_call {R A} (c : Call A) : Completes (call (R := R) c).
Proof. intros w. rewrite outcome_call. eexists; reflexivity. Qed.

Lemma Completes_bind {R A B} (m : M W R A) (f : A -> M W R B) :
  Completes m -> (forall a, Completes (f a)) -> Completes (bind m f).
Proof.
  intros Hm Hf w. destruct (Hm w) as [a E]. rewrite outcome_bind, E. apply Hf.
Qed.

Lemma Completes_waitForFunction {R} (jsCode : string) (timeout : Duration) :
  Completes (waitForFunction (R := R) jsCode timeout).
Proof.
  intros w. destruct (waitForFunction_outcome (R := R) jsCode timeout w)
    as [E | (x & E)]; rewrite E; eexists; reflexivity.
Qed.

Lemma urlChangedCondition_total {R} (currentURL : string) (s : bool) (w : W) :
  exists s' b,
    outcomeOf (urlChangedCondition (R := R) currentURL s w) = Val (s', (b, None)).
Proof.
  unfold urlChangedCondition. rewrite outcome_fn, outcome_bind, outcome_call.
  destruct (fst (handle CurrentURL w)) as [newURL|err]; cbv beta iota.
  - destruct (negb (newURL =? currentURL)); eexists _, _; reflexivity.
  - eexists _, _; reflexivity.
Qed.

Lemma Completes_WaitWithTimeout {R S}
    (condition : S -> M W R (S * (bool * option error))) timeout (s : S) :
  (forall s w, exists s' b, outcomeOf (condition s w) = Val (s', (b, None))) ->
  Completes (WaitWithTimeout condition timeout s).
Proof.
  intros Hc w. unfold WaitWithTimeout. rewrite outcome_bind, outcome_call.
  destruct (pollLoop_outcome condition (fst (handle (PollBudget timeout) w)) s
              (worldOf (call (R := R) (PollBudget timeout) w)) Hc)
    as (s' & [E | (x & E)]); rewrite E; eexists; reflexivity.
Qed.

Ltac completes_step :=
  match goal with
  | |- Completes (ret _) => apply Completes_ret
  | |- Completes (call _) => apply Completes_call
  | |- Completes (Printf _) => apply Completes_call
  | |- Completes (Println _) => apply Completes_call
  | |- Completes (waitForFunction _ _) => apply Completes_waitForFunction
  | |- Completes (WaitWithTimeout (urlChangedCondition _) _ _) =>
      apply Completes_WaitWithTimeout; apply urlChangedCondition_total
  | |- Completes (bind _ _) => apply Completes_bind; [|intros ?]
  | |- Completes (let _ := _ in _) => cbv zeta
  | |- Completes (if ?b then _ else _) => destruct b
  | |- Completes (match ?x with _ => _ end) => destruct x
  end.

(** X16: what follows an injected script cannot end the run: whatever
    the driver answers - scripts that fail, waits that time out, a URL
    that cannot be read - the wait for the navigation runs to its end,
    with neither an error nor a panic. *)
Theorem waitAfterScript_completes {R} (isLiveView : bool) (currentURL : string)
    (w : W) :
  outcomeOf (waitAfterScript (R := R) isLiveView currentURL w) = Val tt.
Proof.
  assert (H : Completes (waitAfterScript (R := R) isLiveView currentURL)).
  { unfold waitAfterScript. repeat completes_step. }
  destruct (H w) as [[] E]. exact E.
Qed.

(** X17: on a LiveView page, when no loading event is seen after the
    script and the URL cannot be read, the program compares the empty
    string with the URL it read before the script: unless that read had
    failed as well, it takes the failure for a change of URL, says so
    and sleeps for the 500 ms that let a new page stabilise. *)
Theorem liveView_script_wait_url_error {R} (currentURL : string) (w : W)
    (e err : error) :
  let start := bind (R := R) (Println "Waiting for Phoenix LiveView navigation...")
                 (fun _ => call (Sleep (100 * Millisecond)%Z)) w in
  let wait := waitForFunction (R := R) loadingStarted (1 * Second)%Z (worldOf start) in
  outcomeOf wait = Val (Some e) ->
  fst (handle CurrentURL (worldOf wait)) = inr err ->
  exists pre u1 u2,
    traceOf (waitAfterScript (R := R) true currentURL w)
    = (pre ++ Ev CurrentURL (inr err)
           :: (if currentURL =? ""
               then [Ev (Print ("Info: No navigation detected (in-place LiveView update)"
                                ++ nl)) u1]
               else [Ev (Print ("URL changed, waiting for page to stabilize..." ++ nl)) u1;
                     Ev (Sleep (500 * Millisecond)%Z) u2]))%list.
Proof.
  intros start wait Hwait Hurl. subst wait start.
  unfold Println in *.
  rewrite world_bind, outcome_call, !world_call in Hwait, Hurl.
  unfold waitAfterScript, Println.
  rewrite trace_bind, outcome_call, trace_call, world_call.
  rewrite trace_bind, outcome_call, trace_call, world_call.
  rewrite trace_bind, Hwait. cbv iota.
  rewrite trace_bind, outcome_call, trace_call, world_call.
  unfold error in *. rewrite Hurl. cbn [orZero].
  rewrite String.eqb_sym.
  match goal with
  | |- context [traceOf (waitForFunction ?a ?b ?c)] =>
      set (polls := traceOf (waitForFunction (R := R) a b c))
  end.
  destruct (currentURL =? "") eqn:E; cbn [negb].
  - rewrite trace_call. cbn [List.app].
    eexists (_ :: _ :: polls), _, tt. cbn [List.app]. reflexivity.
  - rewrite trace_bind, outcome_call, trace_call, world_call, trace_call.
    cbn [List.app].
    eexists (_ :: _ :: polls), _, _. cbn [List.app]. reflexivity.
Qed.

End ScriptWait.

Module ScriptWaitRuns.

Import Scripted Cases.

Lemma liveView_script_wait_url_error_witness :
  exists pre u1 u2,
    traceOf (waitAfterScript (D := Offline.driver) (R := unit) true
               "http://localhost:4000/" liveViewPage)
    = (pre ++ [Ev CurrentURL (inr "no such window");
               Ev (Print ("URL changed, waiting for page to stabilize..." ++ nl)) u1;
               Ev (Sleep (500 * Millisecond)%Z) u2])%list.
Proof.
  apply (liveView_script_wait_url_error (D := Offline.driver) (R := unit)
           "http://localhost:4000/" liveViewPage "timeout after 1s" "no such window");
    vm_compute; reflexivity.
Defined.

End ScriptWaitRuns.

(* ================================================================== *)
(** ** The wait after a script on a page that is not a LiveView page *)

Section StaticScriptWait.

Context {W : Type} {D : Driver W} {X : Externals}.

Notation "x <- m ;; k" := (bind m (fun x => k))
  (at level 100, m at next level, right associativity).
Notation "m ;; k" := (bind m (fun _ => k))
  (at level 100, right associativity).

Lemma urlChangedCondition_run {R} (currentURL : string) (s : bool) (w : W) :
  let r := fst (handle CurrentURL w) in
  let changed := urlDiffers currentURL (Ev CurrentURL r) in
  outcomeOf (urlChangedCondition (R := R) currentURL s w)
  = Val (if changed then (true, (true, None)) else (s, (false, None)))
  /\ traceOf (urlChangedCondition (R := R) currentURL s w) = [Ev CurrentURL r].
Proof.
  unfold urlChangedCondition.
  rewrite outcome_fn, trace_fn, outcome_bind, trace_bind, outcome_call, trace_call.
  cbn [urlDiffers].
  destruct (fst (handle CurrentURL w)) as [newURL|err]; cbv beta iota.
  - destruct (negb (newURL =? currentURL)); cbn; auto.
  - cbn; auto.
Qed.

Lemma pollLoop_url {R} (currentURL : string) (budget : nat) (s : bool) (w : W) :
  let run := pollLoop (R := R) (urlChangedCondition currentURL) budget s w in
  existsb readinessPoll (traceOf run) = false
  /\ ((outcomeOf run = Val (true, None)
       /\ existsb (urlDiffers currentURL) (traceOf run) = true)
      \/ (exists elapsed,
            outcomeOf run = Val (s, Some ("timeout after " ++ elapsed))
            /\ existsb (urlDiffers currentURL) (traceOf run) = false)).
Proof.
  cbv zeta. revert w. induction budget as [|n IH]; intros w; cbn [pollLoop];
    destruct (urlChangedCondition_run (R := R) currentURL s w) as (Eo & Et);
    cbv zeta in Eo, Et; rewrite outcome_bind, trace_bind, Eo, Et;
    destruct (urlDiffers currentURL (Ev CurrentURL (fst (handle CurrentURL w))))
      eqn:Ed;
    cbn [ret outcomeOf traceOf fst snd List.app existsb readinessPoll orb];
    try rewrite Ed; cbn [orb]; try (split; [reflexivity|]; left; now split).
  - rewrite outcome_bind, trace_bind, outcome_call, trace_call.
    cbn [ret outcomeOf traceOf fst snd List.app existsb readinessPoll orb].
    split; [reflexivity|]. right. eexists. split; reflexivity.
  - rewrite outcome_bind, trace_bind, outcome_call, trace_call.
    cbn [List.app existsb readinessPoll urlDiffers orb].
    match goal with
    | |- context [pollLoop _ n s ?w'] => destruct (IH w') as (Hr & H)
    end.
    split; [exact Hr | exact H].
Qed.

Lemma pollLoop_function_first {R} (jsCode : string) (budget : nat) (w : W) :
  exists r rest,
    traceOf (pollLoop (R := R) (functionCondition jsCode) budget tt w)
    = Ev (ExecuteScript jsCode) r :: rest.
Proof.
  assert (E : traceOf (functionCondition (R := R) jsCode tt w)
              = [Ev (ExecuteScript jsCode) (fst (handle (ExecuteScript jsCode) w))]).
  { unfold functionCondition.
    rewrite trace_fn, trace_bind, outcome_call, trace_call.
    destruct (fst (handle _ w)) as [[]|]; reflexivity. }
  destruct budget; cbn [pollLoop]; rewrite trace_bind, E;
    destruct (outcomeOf _); eexists _, _; reflexivity.
Qed.

Lemma trace_bind_prefix {R A B} (m : M W R A) (f : A -> M W R B) (w : W) :
  exists rest, traceOf (bind m f w) = (traceOf (m w) ++ rest)%list.
Proof.
  rewrite trace_bind. destruct (outcomeOf (m w)).
  - eexists; reflexivity.
  - exists []. now rewrite List.app_nil_r.
Qed.

Lemma waitForFunction_first_poll {R} (jsCode : string) (timeout : Duration) (w : W) :
  exists n r rest,
    traceOf (waitForFunction (R := R) jsCode timeout w)
    = Ev (PollBudget timeout) n :: Ev (ExecuteScript jsCode) r :: rest.
Proof.
  unfold waitForFunction, WaitWithTimeout. rewrite trace_fn.
  match goal with
  | |- context [traceOf (bind ?m ?f w)] =>
      destruct (trace_bind_prefix m f w) as (rest1 & ->)
  end.
  rewrite trace_bind, outcome_call, trace_call, world_call.
  match goal with
  | |- context [traceOf (pollLoop (functionCondition ?js) ?n tt ?w')] =>
      destruct (pollLoop_function_first (R := option error) js n w')
        as (r & rest & ->)
  end.
  eexists _, r, _. cbn [List.app]. reflexivity.
Qed.

Lemma WaitWithTimeout_url {R} (currentURL : string) (timeout : Duration) (w : W) :
  let run := WaitWithTimeout (R := R) (urlChangedCondition currentURL)
               timeout false w in
  existsb readinessPoll (traceOf run) = false
  /\ ((outcomeOf run = Val (true, None)
       /\ existsb (urlDiffers currentURL) (traceOf run) = true)
      \/ (exists elapsed,
            outcomeOf run = Val (false, Some ("timeout after " ++ elapsed))
            /\ existsb (urlDiffers currentURL) (traceOf run) = false)).
Proof.
  cbv zeta. unfold WaitWithTimeout.
  rewrite outcome_bind, trace_bind, outcome_call, trace_call, world_call.
  cbn [List.app existsb readinessPoll urlDiffers orb].
  apply pollLoop_url.
Qed.

(** X18: after a script on a page that is not a LiveView page, the
    program waits for the document to be ready exactly when, while
    polling the URL, it has read a URL that differs from the one it read
    before the script.  A URL that cannot be read counts as unchanged. *)
Theorem static_script_wait {R} (currentURL : string) (w : W) :
  let t := traceOf (waitAfterScript (R := R) false currentURL w) in
  existsb readinessPoll t = existsb (urlDiffers currentURL) t.
Proof.
  cbv zeta. unfold waitAfterScript, Println.
  rewrite trace_bind, outcome_call, trace_call, world_call.
  rewrite trace_bind, outcome_call, trace_call, world_call.
  rewrite trace_bind.
  match goal with
  | |- context [WaitWithTimeout _ ?t false ?w'] =>
      destruct (WaitWithTimeout_url (R := R) currentURL t w') as (Hr & H);
      cbv zeta in Hr, H;
      set (polls := traceOf (WaitWithTimeout (R := R)
                               (urlChangedCondition currentURL) t false w')) in *;
      set (w3 := worldOf (WaitWithTimeout (R := R)
                            (urlChangedCondition currentURL) t false w')) in *
  end.
  cbn [List.app existsb readinessPoll urlDiffers orb].
  destruct H as [(Ho & Hu) | (elapsed & Ho & Hu)]; rewrite Ho; cbn [fst];
    rewrite !existsb_app, Hr, Hu; cbn [orb].
  - rewrite trace_bind, outcome_call, trace_call, world_call.
    match goal with
    | |- context [traceOf (bind ?m ?f ?w')] =>
        destruct (trace_bind_prefix m f w') as (rest1 & ->)
    end.
    match goal with
    | |- context [traceOf (waitForFunction ?js ?t ?w')] =>
        destruct (waitForFunction_first_poll (R := R) js t w')
          as (n & r & rest & ->)
    end.
    cbn [List.app existsb readinessPoll orb]. rewrite String.eqb_refl.
    cbn [orb]. reflexivity.
  - rewrite trace_call. reflexivity.
Qed.

End StaticScriptWait.

(* ================================================================== *)
(** ** Running commands *)

Example Fields_ex :
  Fields ("  tar -xzf" ++ nl ++ " /tmp/a.tar.gz   ")
  = ["tar"; "-xzf"; "/tmp/a.tar.gz"].
Proof. reflexivity. Qed.

(** *** [strings.Fields] *)

Lemma spaceWidth_le (s : string) : spaceWidth s <= String.length s.
Proof.
  destruct s as [|c0 [|c1 [|c2 t]]]; cbn [spaceWidth String.length]; cbv zeta;
    repeat match goal with
           | |- context [if ?b then _ else _] => destruct b
           end; lia.
Qed.

(** The test for white space at the head of a string does not look past
    a blank. *)
Lemma spaceWidth_before_blank (a b : string) :
  a <> "" -> spaceWidth (a ++ String " " b) = spaceWidth a.
Proof.
  intros Ha. destruct a as [|c0 [|c1 [|c2 t]]]; [contradiction| | |];
    cbn [append spaceWidth]; cbv zeta.
  - destruct (asciiSpace c0); [reflexivity|].
    change (byte " ") with 32%N.
    destruct (byte c0 =? 194)%N; [reflexivity|].
    destruct b; [reflexivity|].
    cbn [N.eqb Pos.eqb andb]. rewrite !andb_false_r. reflexivity.
  - destruct (asciiSpace c0); [reflexivity|].
    destruct (byte c0 =? 194)%N; [reflexivity|].
    change (byte " ") with 32%N.
    cbn [N.eqb N.leb N.compare Pos.compare Pos.compare_cont Pos.eqb andb orb].
    rewrite !andb_false_r. reflexivity.
  - reflexivity.
Qed.

Lemma drop_app_le (n : nat) (a b : string) :
  n <= String.length a -> drop n (a ++ b) = drop n a ++ b.
Proof.
  revert a. induction n as [|n IH]; intros a Hn.
  - now destruct a.
  - destruct a as [|c t]; [simpl in Hn; lia|]. cbn [append drop].
    apply IH. simpl in Hn. lia.
Qed.

Lemma fieldsFrom_enough (fuel1 fuel2 : nat) (current s : string) :
  String.length s <= fuel1 -> String.length s <= fuel2 ->
  fieldsFrom fuel1 current s = fieldsFrom fuel2 current s.
Proof.
  revert fuel2 current s.
  induction fuel1 as [|fuel1 IH]; intros fuel2 current s H1 H2.
  - destruct s; [now destruct fuel2 | simpl in H1; lia].
  - destruct s as [|c t]; [now destruct fuel2|].
    destruct fuel2 as [|fuel2]; [simpl in H2; lia|].
    cbn [fieldsFrom]. simpl in H1, H2.
    destruct (spaceWidth (String c t)) as [|n] eqn:E.
    + apply IH; lia.
    + f_equal. cbn [drop]. pose proof (length_drop_le n t).
      apply IH; lia.
Qed.

Lemma fieldsFrom_fuel (fuel : nat) (current s : string) :
  String.length s <= fuel ->
  fieldsFrom fuel current s = fieldsFrom (String.length s) current s.
Proof. intros H. apply fieldsFrom_enough; [exact H | lia]. Qed.

(** A blank ends the field before it. *)
Lemma fieldsFrom_blank (fuel : nat) (current a b : string) :
  String.length a <= fuel ->
  fieldsFrom (S fuel + String.length b) current (a ++ String " " b)
  = (fieldsFrom fuel current a ++ Fields b)%list.
Proof.
  revert current a. induction fuel as [|fuel IH]; intros current a Hl.
  - destruct a; [|simpl in Hl; lia].
    cbn [append fieldsFrom spaceWidth asciiSpace Nat.add drop].
    change (asciiSpace " ") with true. cbv iota. cbn [drop]. reflexivity.
  - destruct a as [|c t].
    + change (S (S fuel) + String.length b) with (S (S fuel + String.length b)).
      cbn [append]. cbn [fieldsFrom spaceWidth].
      change (asciiSpace " ") with true. cbv iota. cbn [drop].
      f_equal. unfold Fields. apply fieldsFrom_fuel. lia.
    + change (S (S fuel) + String.length b) with (S (S fuel + String.length b)).
      cbn [fieldsFrom]. change (String c t ++ String " " b)
        with (String c (t ++ String " " b)) at 1.
      cbv iota.
      change (String c (t ++ String " " b)) with (String c t ++ String " " b).
      rewrite (spaceWidth_before_blank (String c t) b) by discriminate.
      destruct (spaceWidth (String c t)) as [|n] eqn:E.
      * cbn [append]. apply IH. simpl in Hl. lia.
      * rewrite <- List.app_assoc. f_equal.
        pose proof (spaceWidth_le (String c t)) as Hw. rewrite E in Hw.
        rewrite drop_app_le by exact Hw.
        assert (Hd : String.length (drop (S n) (String c t)) <= fuel).
        { cbn [drop]. pose proof (length_drop_le n t). simpl in Hl. lia. }
        apply IH. exact Hd.
Qed.

Lemma Fields_blank (a b : string) :
  Fields (a ++ String " " b) = (Fields a ++ Fields b)%list.
Proof.
  unfold Fields at 1 2.
  rewrite <- (fieldsFrom_blank (String.length a) "" a b) by lia.
  f_equal. rewrite length_app. simpl. lia.
Qed.

(** The arguments of [tar]: the two paths are split like the rest of
    the command. *)
Lemma tarCommand_fields (src dest : string) :
  Fields (tarCommand src dest)
  = ("tar" :: "-xzf" :: Fields src ++ "-C" :: Fields dest)%list.
Proof.
  unfold tarCommand.
  change ("tar -xzf " ++ src ++ " -C " ++ dest)
    with ("tar" ++ String " " ("-xzf" ++ String " "
            (src ++ String " " ("-C" ++ String " " dest)))).
  rewrite !Fields_blank. reflexivity.
Qed.

(** X20: [extractTarGz] gives [tar] the arguments it means to - the
    archive after [-xzf] and the directory after [-C] - exactly when
    each of the two paths is one word: not empty, and without white
    space.  A path with a blank in it, such as a home directory with a
    blank in its name, is split into several arguments. *)
Theorem tarCommand_arguments (src dest : string) :
  Fields (tarCommand src dest) = ["tar"; "-xzf"; src; "-C"; dest]
  <-> Fields src = [src] /\ Fields dest = [dest].
Proof.
  rewrite tarCommand_fields. split.
  - intros E. injection E as E.
    destruct (Fields src) as [|f1 [|f2 [|f3 fs]]] eqn:Es; cbn [List.app] in E.
    + injection E as <- E. vm_compute in Es. discriminate Es.
    + injection E as <- E. auto.
    + injection E as -> -> <- E. vm_compute in E. discriminate E.
    + injection E as _ _ _ E. destruct fs; discriminate E.
  - intros [-> ->]. reflexivity.
Qed.

(** The extraction on a system with [tar]: it works in a home directory
    without blanks, and fails in one with a blank in its name, where
    [tar] is given six arguments instead of five. *)
Example extractTarGz_ex :
  extractTarGz (X := Scripted.externals) (Sys := Unix.system)
    "/tmp/geckodriver-1.tar.gz" "/home/user/.web-firefox/geckodriver" = None
  /\ extractTarGz (X := Scripted.externals) (Sys := Unix.system)
       "/tmp/geckodriver-1.tar.gz" "/home/my user/.web-firefox/geckodriver"
     = Some ("failed to extract tar.gz: command failed: tar -xzf "
             ++ "/tmp/geckodriver-1.tar.gz -C /home/my user/.web-firefox/geckodriver").
Proof. split; reflexivity. Qed.

Section CommandFacts.

Context {X : Externals} {Sys : System}.

(** X19: [findExecutable] looks in [/bin], [/usr/bin] and
    [/usr/local/bin], in this order, and nowhere else: it gives the
    first of the three places where the file exists, and fails exactly
    when the file is in none of them - wherever else on the search path
    of the user it may be. *)
Theorem findExecutable_first (name : string) :
  let path := fun dir => filepath_Join [dir; name] in
  match findExecutable name with
  | inl found =>
      os_Stat found = true
      /\ exists before dir after,
           ["/bin"; "/usr/bin"; "/usr/local/bin"] = (before ++ dir :: after)%list
           /\ found = path dir
           /\ Forall (fun d => os_Stat (path d) = false) before
  | inr err =>
      err = "executable not found: " ++ name
      /\ Forall (fun d => os_Stat (path d) = false)
           ["/bin"; "/usr/bin"; "/usr/local/bin"]
  end.
Proof.
  cbv zeta. unfold findExecutable.
  generalize ["/bin"; "/usr/bin"; "/usr/local/bin"]. intros paths.
  induction paths as [|dir paths IH]; cbn [searchPaths].
  - split; [reflexivity | constructor].
  - destruct (os_Stat (filepath_Join [dir; name])) eqn:E.
    + split; [exact E|]. exists [], dir, paths. repeat split. constructor.
    + destruct (searchPaths paths name) as [found|err].
      * destruct IH as (Hf & before & d & after & -> & -> & Hb).
        split; [exact Hf|]. exists (dir :: before), d, after.
        repeat split. now constructor.
      * destruct IH as (-> & Hall). split; [reflexivity | now constructor].
Qed.

(** X21: [extractTarGz] succeeds exactly when [tar] is found in one of
    the three directories, the process starts on the words of the
    command, and it ends with success. *)
Theorem extractTarGz_succeeds (src dest : string) :
  extractTarGz src dest = None
  <-> exists executable proc,
        findExecutable "tar" = inl executable
        /\ os_StartProcess executable
             ("tar" :: "-xzf" :: Fields src ++ "-C" :: Fields dest)%list
           = inl proc
        /\ proc_Wait proc = inl true.
Proof.
  unfold extractTarGz, runCommand. cbv zeta. rewrite tarCommand_fields.
  split.
  - destruct (findExecutable "tar") as [executable|err]; [|discriminate].
    destruct (os_StartProcess executable _) as [proc|err] eqn:Ep; [|discriminate].
    destruct (proc_Wait proc) as [[|]|err] eqn:Ew; try discriminate.
    intros _. now exists executable, proc.
  - intros (executable & proc & -> & -> & ->). reflexivity.
Qed.

End CommandFacts.

(* ================================================================== *)
(** ** The program *)

Example main_ex :
  main (D := Scripted.driver) (X := Scripted.externals) (Ins := Installed.setup)
    ["example.com"; "--truncate-after"; "2"] (Scripted.page "abcdef")
  = (Exited 0,
     [Stdout ("==========================" ++ nl ++ "http://example.com" ++ nl
              ++ "==========================" ++ nl ++ nl ++ "ab" ++ nl ++ nl
              ++ "... (output truncated after 2 chars, full content was 6 chars)"
              ++ nl)]).
Proof. vm_compute. reflexivity. Qed.

Example main_liveView_ex :
  snd (main (D := Scripted.driver) (X := Scripted.externals) (Ins := Installed.setup)
         ["localhost:4000"; "--raw"] Cases.liveViewPage)
  = [Stdout ("Detected Phoenix LiveView page, waiting for connection..." ++ nl);
     Stdout ("Phoenix LiveView connected" ++ nl);
     Stdout ("<form id='login_form' data-phx-session='x'></form>" ++ nl)].
Proof. vm_compute. reflexivity. Qed.

Section MainFacts.

Context {W : Type} {D : Driver W} {X : Externals} {Ins : Setup}.

Lemma parseLoop_no_url (n : nat) :
  forall (args : list string) (config : Config),
    List.length args <= n ->
    forallb (fun arg => HasPrefix arg "--") args = true ->
    URL config = "" ->
    match parseLoop config args with
    | Some config' => URL config' = ""
    | None => True
    end.
Proof.
  induction n as [|n IH]; intros args config Hl Hall Hurl.
  - destruct args; [exact Hurl | simpl in Hl; lia].
  - destruct args as [|arg rest]; [exact Hurl|].
    cbn [forallb] in Hall. apply andb_true_iff in Hall as [Harg Hall].
    simpl in Hl. cbn [parseLoop]. rewrite Harg, andb_false_r.
    assert (Htl : forall l, List.length l <= n ->
                    forallb (fun arg => HasPrefix arg "--") l = true ->
                    forall c, URL c = "" ->
                    match parseLoop c l with
                    | Some config' => URL config' = ""
                    | None => True
                    end).
    { intros l Hn Hl' c Hc. now apply IH. }
    split_parse; try exact I; try exact Hurl;
      cbn [forallb] in Hall;
      repeat match goal with
             | H : (_ && _)%bool = true |- _ => apply andb_true_iff in H as [? H]
             end;
      apply Htl; try assumption; try (simpl in *; lia).
  cbn [forallb]. now rewrite H0, Hall.
Qed.

(** X22: when every argument begins with ["--"] and none is [--help],
    there is no URL: the program prints the help text and exits with
    status 1, before it sets anything up. *)
Theorem main_without_url (args : list string) (w : W) :
  forallb (fun arg => HasPrefix arg "--") args = true ->
  existsb (String.eqb "--help") args = false ->
  main args w = (Exited 1, [Stdout helpText]).
Proof.
  intros Hall Hhelp. unfold main, parseArgs.
  pose proof (parseLoop_budget (List.length args) args initialConfig (le_n _)) as Hb.
  pose proof (parseLoop_no_url (List.length args) args initialConfig (le_n _)
                Hall eq_refl) as Hu.
  destruct (parseLoop initialConfig args) as [config|].
  - now rewrite Hu.
  - exfalso. assert (Hx : existsb (String.eqb "--help") args = true).
    { apply existsb_exists. exists "--help". split; [exact Hb | reflexivity]. }
    congruence.
Qed.

Lemma parseArgs_budget (args : list string) (config : Config) :
  parseArgs args = Some config -> (0 < TruncateAfter config)%Z.
Proof.
  apply (parseLoop_invariant (fun c => (0 < TruncateAfter c)%Z));
    try (intros; assumption); try reflexivity.
Qed.

Lemma forallb_onStdout (texts : list string) :
  forallb onStdout (map Stdout texts) = true.
Proof. induction texts; [reflexivity | assumption]. Qed.

(** X23: the program ends in one of three ways.  With status 0, and
    then all it has written is on the standard output.  With status 1,
    and then it has written the help text, or progress messages on the
    standard output followed by one line on the error stream that begins
    with ["Error "].  Or in a panic, which can only be the failed
    conversion of the detection script's answer, since the budget that
    [parseArgs] gives is never negative. *)
Theorem main_reports (args : list string) (w : W) :
  let outputs := snd (main args w) in
  match fst (main args w) with
  | Exited code =>
      (code = 0%Z /\ forallb onStdout outputs = true)
      \/ (code = 1%Z
          /\ (outputs = [Stdout helpText]
              \/ exists progress text,
                   outputs = (progress ++ [Stderr ("Error " ++ text)])%list
                   /\ forallb onStdout progress = true))
  | Panicking msg => msg = conversionPanic /\ forallb onStdout outputs = true
  end.
Proof.
  cbv zeta. unfold main.
  destruct (parseArgs args) as [config|] eqn:Ep; [|now left].
  destruct (URL config =? ""); [right; split; [reflexivity | now left]|].
  destruct ensureFirefox as [progress1 [err|]]; cbn [fst snd].
  { right. split; [reflexivity|]. right.
    exists (map Stdout progress1), ("setting up Firefox: " ++ err ++ nl).
    split; [reflexivity | apply forallb_onStdout]. }
  destruct ensureGeckodriver as [progress2 [err|]]; cbn [fst snd].
  { right. split; [reflexivity|]. right.
    exists (map Stdout (progress1 ++ progress2)),
      ("setting up geckodriver: " ++ err ++ nl).
    split; [reflexivity | apply forallb_onStdout]. }
  destruct (outcomeOf (processRequest config w))
    as [[result [err|]]|[[]|msg]] eqn:Eo; cbn [fst snd].
  - right. split; [reflexivity|]. right.
    eexists _, ("processing request: " ++ err ++ nl).
    split; [reflexivity | apply forallb_onStdout].
  - left. split; [reflexivity|].
    rewrite forallb_app, forallb_onStdout. reflexivity.
  - split; [|apply forallb_onStdout].
    destruct (processRequest_Panics config w msg Eo) as [H | (_ & H & _)];
      [exact H|].
    pose proof (parseArgs_budget args config Ep). lia.
Qed.

End MainFacts.

Module MainRuns.

Import Scripted Cases.

Lemma main_without_url_witness :
  main (D := driver) (X := externals) (Ins := Installed.setup)
    ["--raw"; "--profile"; "--work"; "--truncate-after"] (page "")
  = (Exited 1, [Stdout helpText]).
Proof.
  apply (main_without_url (D := driver) (X := externals) (Ins := Installed.setup)
           ["--raw"; "--profile"; "--work"; "--truncate-after"] (page ""));
    reflexivity.
Defined.

End MainRuns.

(* ================================================================== *)
(** ** The profile of the session *)

Section Profile.

Context {W : Type} {D : Driver W} {X : Externals}.

(** A call that occurs once is where it is. *)
Lemma only_call (P : Event -> bool) (l1 l2 r1 r2 : list Event) (x y : Event) :
  Forall (fun ev => P ev = false) l2 -> Forall (fun ev => P ev = false) r2 ->
  P x = true ->
  (l1 ++ x :: r1 = l2 ++ y :: r2)%list ->
  l1 = l2 /\ x = y /\ r1 = r2.
Proof.
  intros H2 Hr Hx. revert l1. induction H2 as [|b l2 Hb _ IH]; intros l1 E.
  - destruct l1 as [|a l1]; cbn [List.app] in E.
    + injection E as -> ->. auto.
    + injection E as -> E. exfalso.
      assert (Hin : In x r2) by (rewrite <- E; apply in_elt).
      rewrite Forall_forall in Hr. specialize (Hr x Hin). congruence.
  - destruct l1 as [|a l1]; cbn [List.app] in E.
    + injection E as -> _. congruence.
    + injection E as -> E. destruct (IH l1 E) as (-> & -> & ->). auto.
Qed.

(** X24: when the program asks for a session, it is a headless Firefox
    on the driver service it has started, with a profile directory named
    after the profile under the home directory; the call just before
    creates that directory, and its failure is ignored. *)
Theorem session_profile {R} (config : Config) (w : W) (pre rest : list Event)
    (caps : Capabilities) (url : string) (r : option error) :
  traceOf (processRequest (R := R) config w)
  = (pre ++ Ev (NewRemote caps url) r :: rest)%list ->
  exists home firefox e pre',
    pre = (pre' ++ [Ev (MkdirAll (profileDirectory home config)) e])%list
    /\ caps = firefoxCapabilities firefox (profileDirectory home config)
    /\ args caps = ["-headless"; "-profile"; profileDirectory home config]
    /\ url = "http://localhost:4444".
Proof.
  intros Ht.
  destruct (processRequest_runs (R := R) config w) as (setup & Hs & H).
  assert (Hq : Forall (fun ev => requestsSession ev = false) setup).
  { eapply Forall_impl; [|exact Hs]. intros [R0 c a]. now destruct c. }
  assert (Hno : forall l, Forall (fun ev => requestsSession ev = false) l ->
                  traceOf (processRequest (R := R) config w) <> l).
  { intros l Hl E. rewrite Ht in E. rewrite <- E in Hl.
    apply Forall_app in Hl as [_ Hl]. inversion Hl as [|? ? Hg _]. discriminate Hg. }
  destruct H as [(e0 & E & _) | [(path & e0 & E & _) |
                 [(path & firefox & home & e & e0 & u & E & _) |
                  (path & firefox & home & e & w0 & u1 & u2 & E & _)]]];
    cbv zeta in E.
  - now destruct (Hno setup Hq).
  - exfalso. eapply Hno; [|exact E].
    apply Forall_app; split; [exact Hq | now repeat constructor].
  - rewrite Ht in E.
    change (setup ++ [?a; ?b; ?c; ?d])%list
      with (setup ++ [a; b] ++ c :: [d])%list in E.
    rewrite List.app_assoc in E.
    apply (only_call requestsSession) in E as (-> & Eev & _);
      [ | apply Forall_app; split; [exact Hq | now repeat constructor]
        | now repeat constructor | reflexivity ].
    apply (f_equal sessionRequest) in Eev. cbn [sessionRequest] in Eev.
    injection Eev as -> ->.
    exists home, firefox, e, (setup ++ [Ev (NewGeckoDriverService path 4444) None])%list.
    rewrite <- List.app_assoc. repeat split.
  - rewrite Ht in E.
    change (setup ++ [?a; ?b; ?c] ++ ?t)%list
      with (setup ++ [a; b] ++ c :: t)%list in E.
    rewrite List.app_assoc in E.
    apply (only_call requestsSession) in E as (-> & Eev & _);
      [ | apply Forall_app; split; [exact Hq | now repeat constructor]
        | | reflexivity ].
    + apply (f_equal sessionRequest) in Eev. cbn [sessionRequest] in Eev.
      injection Eev as -> ->.
      exists home, firefox, e, (setup ++ [Ev (NewGeckoDriverService path 4444) None])%list.
      rewrite <- List.app_assoc. repeat split.
    + apply Forall_app; split; [|now repeat constructor].
      eapply Forall_impl; [|apply (session_quiet (R := string * option error))].
      intros [R0 c a]. now destruct c.
Qed.

End Profile.

Module ProfileRuns.

Import Scripted Cases.

Lemma session_profile_witness :
  exists home firefox e pre',
    firstn 5 (traceOf (processRequest (D := driver) (X := externals) (R := unit)
                         (config "example.com") (page "")))
    = (pre' ++ [Ev (MkdirAll (profileDirectory home (config "example.com"))) e])%list
    /\ firefoxCapabilities "/usr/bin/firefox" "/home/user/.web-firefox/profiles/default"
       = firefoxCapabilities firefox (profileDirectory home (config "example.com"))
    /\ args (firefoxCapabilities "/usr/bin/firefox"
               "/home/user/.web-firefox/profiles/default")
       = ["-headless"; "-profile"; profileDirectory home (config "example.com")]
    /\ "http://localhost:4444" = "http://localhost:4444".
Proof.
  apply (session_profile (D := driver) (X := externals) (R := unit)
           (config "example.com") (page "") _
           (skipn 6 (traceOf (processRequest (D := driver) (X := externals)
                                (R := unit) (config "example.com") (page ""))))
           _ _ None).
  vm_compute. reflexivity.
Defined.

End ProfileRuns.

(* ================================================================== *)
(** ** The submission of a form that is not a LiveView form *)

Section StaticForm.

Context {W : Type} {D : Driver W} {X : Externals}.

Notation "x <- m ;; k" := (bind m (fun x => k))
  (at level 100, m at next level, right associativity).
Notation "m ;; k" := (bind m (fun _ => k))
  (at level 100, right associativity).

(** X25: once the fields are filled, a form that is not a LiveView form
    is submitted by a click on its submit control when it has one, and
    only otherwise by the Enter key sent to the form; an error of the
    click is returned, not followed by the key.  The calls of the run
    after the fields are given in full: the message that the form is
    submitted is the last one, and is printed only when the submission
    raised no error. *)
Theorem static_form_submission {R} (config : Config) (w : W) :
  let filled := forEach (R := option error) (Inputs config)
                  (fillField (FormID config)) w in
  outcomeOf filled = Val tt ->
  let run := handleForm (R := R) config false w in
  let found := fst (handle (FindElement (submitSelector (FormID config)))
                      (worldOf filled)) in
  exists calls,
    traceOf run
    = (traceOf filled
       ++ Ev (FindElement (submitSelector (FormID config))) found :: calls)%list
    /\ match found with
       | inl elem =>
           exists e,
             calls = Ev (Click elem) e
                       :: match e with
                          | None => [Ev (Print ("Form submitted" ++ nl)) tt]
                          | Some _ => []
                          end
             /\ outcomeOf run
                = Val match e with
                      | None => None
                      | Some err => Some ("could not click submit button: " ++ err)
                      end
       | inr _ =>
           exists r,
             match r with
             | inr err =>
                 calls = [Ev (FindElement (formSelector (FormID config))) r]
                 /\ outcomeOf run = Val (Some ("could not submit form: " ++ err))
             | inl formElem =>
                 exists e,
                   calls = Ev (FindElement (formSelector (FormID config))) r
                             :: Ev (SendKeys formElem EnterKey) e
                             :: match e with
                                | None => [Ev (Print ("Form submitted" ++ nl)) tt]
                                | Some _ => []
                                end
                   /\ outcomeOf run
                      = Val match e with
                            | None => None
                            | Some err => Some ("could not submit form: " ++ err)
                            end
             end
       end.
Proof.
  intros filled Hfilled run found. subst run found filled.
  rewrite handleForm_parts.
  unfold submitForm, Println.
  unfold fn, bind, call, orReturn, failIf, ret, Return,
    outcomeOf, traceOf, worldOf in *.
  destruct (forEach (Inputs config) (fillField (FormID config)) w)
    as [[o w1] t1]. cbn [fst snd] in *. subst o.
  unfold error in *.
  match goal with
  | |- context [@handle ?W0 ?D0 ?A ?c w1] =>
      destruct (@handle W0 D0 A c w1) as [[elem|err] w2]
  end; cbn [fst snd].
  - match goal with
    | |- context [@handle ?W0 ?D0 ?A ?c w2] =>
        destruct (@handle W0 D0 A c w2) as [[err|] w3]
    end; cbn [fst snd List.app].
    + eexists. split; [reflexivity|].
      exists (Some err). split; reflexivity.
    + match goal with
      | |- context [@handle ?W0 ?D0 ?A ?c w3] =>
          destruct (@handle W0 D0 A c w3) as [[] w4]
      end; cbn [fst snd List.app].
      eexists. split; [reflexivity|].
      exists None. split; reflexivity.
  - match goal with
    | |- context [@handle ?W0 ?D0 ?A ?c w2] =>
        destruct (@handle W0 D0 A c w2) as [[formElem|err'] w3]
    end; cbn [fst snd List.app].
    + match goal with
      | |- context [@handle ?W0 ?D0 ?A ?c w3] =>
          destruct (@handle W0 D0 A c w3) as [[err'|] w4]
      end; cbn [fst snd List.app].
      * eexists. split; [reflexivity|].
        exists (inl formElem), (Some err'). split; reflexivity.
      * match goal with
        | |- context [@handle ?W0 ?D0 ?A ?c w4] =>
            destruct (@handle W0 D0 A c w4) as [[] w5]
        end; cbn [fst snd List.app].
        eexists. split; [reflexivity|].
        exists (inl formElem), None. split; reflexivity.
    + eexists. split; [reflexivity|].
      exists (inr err'). split; reflexivity.
Qed.

End StaticForm.

Module StaticFormRuns.

Import Scripted Cases.

Lemma static_form_submission_witness :
  exists calls,
    traceOf (handleForm (D := driver) (R := unit) threeFields false
               (page "<form id='f'></form>"))
    = (traceOf (forEach (R := option error) (Inputs threeFields)
                  (fillField (D := driver) (FormID threeFields))
                  (page "<form id='f'></form>"))
       ++ Ev (FindElement (submitSelector "f"))
            (inl (String.length (submitSelector "f"))) :: calls)%list.
Proof.
  destruct (static_form_submission (D := driver) (R := unit) threeFields
              (page "<form id='f'></form>") eq_refl) as (calls & H & _).
  exists calls. exact H.
Defined.

End StaticFormRuns.

Lemma parseLoop_extends_Inputs_witness :
  exists added,
    Inputs (add_Input (add_Input initialConfig {| Name := "a"; Value := "1" |})
              {| Name := "c"; Value := "3" |})
    = (Inputs (add_Input initialConfig {| Name := "a"; Value := "1" |})
       ++ added)%list.
Proof.
  apply (parseLoop_extends_Inputs
           ["--input"; "b"; "--input"; "c"; "--value"; "3"; "--input"; "d"]
           (add_Input initialConfig {| Name := "a"; Value := "1" |})).
  vm_compute. reflexivity.
Defined.
